(** * Error Tracker SDK: a shallow embedding of the capture pipeline

    The development follows the TypeScript sources of the SDK:

    - [packages/core/src/types.ts]      the data model (options, events, scope);
    - [packages/core/src/config.ts]     [Config] and its validation;
    - [packages/core/src/hub.ts]        [BaseHub]: scope mutators, [buildEvent],
                                        [applyBeforeSend];
    - [packages/core/src/transport.ts]  [BaseTransport]: headers, payload,
                                        [parseResponse];
    - [packages/browser/src/...]        [FetchTransport], [BeaconTransport], the
                                        localStorage queue, [BrowserClient] and
                                        the package functions;
    - [packages/node/src/...]           [NodeTransport], [NodeClient] and the
                                        package functions.

    JavaScript objects that the code shares by reference (the tag and extras
    maps of the scope, the map objects hanging off an event) live in an explicit
    heap; every other effect (console, localStorage, network) is a field of the
    [World].  Code that can throw runs in a state-and-exception monad, and
    [try]/[catch] is a combinator of that monad.  An [await] is modelled by
    running the awaited computation to completion: the embedding describes one
    call at a time and does not interleave calls.

    Left out: the stack parser (a parameter of the clients), the handlers
    that the integrations install, the [flush] timers, and the Express
    middleware.

    The values of the model are those the SDK's own types describe.  Tags,
    extras and user fields hold JSON primitives, so every event serializes:
    [JSON.stringify] throwing on a [BigInt] or a circular structure is not
    modelled.  The stored queue, when present, is an array of events, which
    is what the SDK writes; a stored text of another shape is modelled apart
    ([ForeignText]).  A captured value can be converted by [String()].
    Objects are extensible: the host does not freeze the tags object it
    passes.  The statements below say so where they depend on it. *)

From stdpp Require Import gmap strings list fin_maps pretty.
From Stdlib Require Import ZArith Lia Ascii.

Local Open Scope string_scope.
Local Open Scope Z_scope.

(* ===================================================================== *)
(** ** JavaScript values                                                  *)
(* ===================================================================== *)

(** Values that survive [JSON.stringify]. *)
Inductive JsonValue : Type :=
  | JNull
  | JBool (b : bool)
  | JNum (z : Z)
  | JStr (s : string).

(** Values of type [unknown] as the SDK stores them: a JSON value or
    [undefined]. *)
Inductive JsValue : Type :=
  | JUndefined
  | JV (v : JsonValue).

Definition jstr (s : string) : JsValue := JV (JStr s).

#[global] Instance JsonValue_eq_dec : EqDecision JsonValue.
Proof. solve_decision. Defined.

#[global] Instance JsValue_eq_dec : EqDecision JsValue.
Proof. solve_decision. Defined.

(** JavaScript truthiness, as used by [!x], [x || y] and [if (x)]. *)
Definition truthy (v : JsValue) : bool :=
  match v with
  | JUndefined => false
  | JV JNull => false
  | JV (JBool b) => b
  | JV (JNum z) => negb (z =? 0)
  | JV (JStr s) => negb (String.eqb s EmptyString)
  end.

(** A plain object used as a map ([Record<string, unknown>]). *)
Abbreviation JsObject := (gmap string JsValue).
(** The same object after a round trip through JSON text. *)
Abbreviation JsonObject := (gmap string JsonValue).

Definition json_of_value (v : JsValue) : option JsonValue :=
  match v with
  | JUndefined => None
  | JV j => Some j
  end.

(** [JSON.stringify] drops the keys whose value is [undefined]. *)
Definition JSON_stringify_object (o : JsObject) : JsonObject :=
  omap json_of_value o.

(** [JSON.parse] of an object literal. *)
Definition JSON_parse_object (o : JsonObject) : JsObject :=
  JV <$> o.

(** [Object.keys(o).length]. *)
Definition keys_length (o : JsObject) : nat := size o.

(** An object spread [{ ...a, ...b }]: the keys of [b] win. *)
Definition spread (a b : JsObject) : JsObject := b ∪ a.

(** An assignment [o[key] = value] into an extensible object whose prototype
    is [Object.prototype], as the objects that the SDK creates are.  The key
    ['__proto__'], unless the object has it as an own property, reaches the
    setter inherited from [Object.prototype]: no property is defined.  (With
    the value [null] that setter also replaces the prototype of the object;
    prototypes are not tracked here, and neither are objects that the host has
    frozen, on which the assignment throws.) *)
Definition assign (key : string) (value : JsValue) (o : JsObject) : JsObject :=
  if bool_decide (key = "__proto__") && bool_decide (o !! key = None) then o
  else <[key := value]> o.

(* ===================================================================== *)
(** ** The data model (types.ts)                                          *)
(* ===================================================================== *)

Inductive ErrorLevel : Type := LError | LWarning | LCritical.

#[global] Instance ErrorLevel_eq_dec : EqDecision ErrorLevel.
Proof. solve_decision. Defined.

Record SourceContext : Type := {
  fileName : option string;
  lineNumber : option Z;
  columnNumber : option Z;
  functionName : option string;
}.

Record UserInfo : Type := {
  user_id : option string;
  user_email : option string;
  user_username : option string;
}.

(** References to map objects of the heap. *)
Definition loc : Type := nat.

(** [ErrorEvent] as it sits in memory.  [appId], [commitHash] and
    [environment] are whatever the configuration holds; [metadata] and [tags]
    are references to map objects; an optional field that is [undefined] is
    [None]. *)
Record ErrorEvent : Type := {
  ev_appId : JsValue;
  ev_commitHash : JsValue;
  ev_environment : JsValue;
  ev_level : ErrorLevel;
  ev_message : string;
  ev_stackTrace : option string;
  ev_metadata : option loc;
  ev_sourceContext : option SourceContext;
  ev_userAgent : option string;
  ev_timestamp : option string;
  ev_tags : option loc;
  ev_user : option UserInfo;
}.

(** An event as JSON text holds it (the localStorage queue). *)
Record JsonEvent : Type := {
  je_appId : JsValue;
  je_commitHash : JsValue;
  je_environment : JsValue;
  je_level : ErrorLevel;
  je_message : string;
  je_stackTrace : option string;
  je_metadata : option JsonObject;
  je_sourceContext : option SourceContext;
  je_userAgent : option string;
  je_timestamp : option string;
  je_tags : option JsonObject;
  je_user : option UserInfo;
}.

Record TransportResponse : Type := {
  success : bool;
  id : option string;
  statusCode : option Z;
  error : option string;
}.

(* ===================================================================== *)
(** ** The heap of map objects                                            *)
(* ===================================================================== *)

Abbreviation Heap := (list JsObject).

(** Reading through a reference. *)
Definition deref (h : Heap) (l : loc) : JsObject := default ∅ (h !! l).

(** In-place update of the object behind a reference. *)
Definition store (l : loc) (o : JsObject) (h : Heap) : Heap := <[l := o]> h.

(** The reference a new object literal gets, and the heap that holds it. *)
Definition fresh (h : Heap) : loc := length h.
Definition extend (h : Heap) (o : JsObject) : Heap := h ++ [o].

(** The snapshot of an event that [JSON.stringify] takes. *)
Definition toJSON (h : Heap) (e : ErrorEvent) : JsonEvent :=
  {| je_appId := ev_appId e;
     je_commitHash := ev_commitHash e;
     je_environment := ev_environment e;
     je_level := ev_level e;
     je_message := ev_message e;
     je_stackTrace := ev_stackTrace e;
     je_metadata := (fun l => JSON_stringify_object (deref h l)) <$> ev_metadata e;
     je_sourceContext := ev_sourceContext e;
     je_userAgent := ev_userAgent e;
     je_timestamp := ev_timestamp e;
     je_tags := (fun l => JSON_stringify_object (deref h l)) <$> ev_tags e;
     je_user := ev_user e |}.

(* ===================================================================== *)
(** ** The wire format (transport.ts, payload part of the data)           *)
(* ===================================================================== *)

(** The values of the [metadata] object that [buildPayload] assembles: an
    extras value, the tags object, or the user. *)
Inductive MetaVal : Type :=
  | MValue (v : JsValue)
  | MTags (t : JsObject)
  | MUser (u : UserInfo).

(** The same after [JSON.stringify]. *)
Inductive MetaJson : Type :=
  | MJValue (v : JsonValue)
  | MJTags (t : JsonObject)
  | MJUser (u : UserInfo).

Definition json_of_meta (m : MetaVal) : option MetaJson :=
  match m with
  | MValue v => MJValue <$> json_of_value v
  | MTags t => Some (MJTags (JSON_stringify_object t))
  | MUser u => Some (MJUser u)
  end.

(** The request body, as the JSON text holds it: a key that the payload
    object does not have, or has with value [undefined], is absent. *)
Record Payload : Type := {
  p_appId : JsValue;
  p_commitHash : JsValue;
  p_environment : JsValue;
  p_level : ErrorLevel;
  p_message : string;
  p_stackTrace : option string;
  p_metadata : option (gmap string MetaJson);
  p_sourceContext : option SourceContext;
  p_userAgent : option string;
}.

Record Request : Type := {
  req_url : string;
  req_headers : list (string * string);
  req_body : Payload;
}.

(** What a parsed response body looks like to [parseResponse]. *)
Inductive ParsedBody : Type :=
  | PNotObject
      (* null, a number, a string, a boolean: the [in] operator throws *)
  | PObject (resp_success : option JsValue) (resp_id : option string)
            (resp_error : option string).
      (* an object; [resp_success = None] when it has no [success] key *)

Inductive ResponseBody : Type :=
  | BodyText (text : string)       (* not valid JSON *)
  | BodyJson (parsed : ParsedBody).

(** What the network does with one request. *)
Inductive HttpOutcome : Type :=
  | NetError (message : string)
  | NetTimeout
  | NetResponse (status : Z) (body : ResponseBody).

(* ===================================================================== *)
(** ** The world                                                          *)
(* ===================================================================== *)

Inductive ConsoleLine : Type :=
  | Warn (text : string)
  | Debug (text : string).

#[global] Instance ConsoleLine_eq_dec : EqDecision ConsoleLine.
Proof. solve_decision. Defined.

(** Everything outside the SDK objects: the heap of shared map objects, the
    console, [navigator], the clock, the stack the engine gives a new [Error],
    the URL parser of the runtime, the localStorage entry of the queue with the
    failures the storage may raise, the network with the requests issued so
    far (the n-th request gets the outcome [network n]), and the names of the
    global handlers that are installed.

    [ls_item] is the stored entry as [JSON.parse] reads it when the entry is
    an array of events, [None] when there is no entry.  An entry whose text
    is not JSON, or is the JSON of something else than an array, cannot be
    held here: [QueueStorage.get_foreign] and [BrowserClient.enqueue_foreign]
    below model the code on such an entry. *)
Record World : Type := {
  heap : Heap;
  console : list ConsoleLine;
  navigator_onLine : bool;
  navigator_userAgent : string;
  clock : string;
  new_error_stack : option string;
  URL_valid : string -> bool;
  ls_item : option (list JsonEvent);
  ls_getItem_throws : bool;
  ls_setItem_throws : list JsonEvent -> bool;
  ls_removeItem_throws : bool;
  network : nat -> HttpOutcome;
  requests : list Request;
  listeners : list string;
}.

Definition with_heap (h : Heap) (w : World) : World :=
  {| heap := h; console := console w;
     navigator_onLine := navigator_onLine w;
     navigator_userAgent := navigator_userAgent w; clock := clock w;
     new_error_stack := new_error_stack w; URL_valid := URL_valid w;
     ls_item := ls_item w; ls_getItem_throws := ls_getItem_throws w;
     ls_setItem_throws := ls_setItem_throws w;
     ls_removeItem_throws := ls_removeItem_throws w; network := network w;
     requests := requests w; listeners := listeners w |}.

Definition with_console (c : list ConsoleLine) (w : World) : World :=
  {| heap := heap w; console := c; navigator_onLine := navigator_onLine w;
     navigator_userAgent := navigator_userAgent w; clock := clock w;
     new_error_stack := new_error_stack w; URL_valid := URL_valid w;
     ls_item := ls_item w; ls_getItem_throws := ls_getItem_throws w;
     ls_setItem_throws := ls_setItem_throws w;
     ls_removeItem_throws := ls_removeItem_throws w; network := network w;
     requests := requests w; listeners := listeners w |}.

Definition with_ls_item (i : option (list JsonEvent)) (w : World) : World :=
  {| heap := heap w; console := console w;
     navigator_onLine := navigator_onLine w;
     navigator_userAgent := navigator_userAgent w; clock := clock w;
     new_error_stack := new_error_stack w; URL_valid := URL_valid w;
     ls_item := i; ls_getItem_throws := ls_getItem_throws w;
     ls_setItem_throws := ls_setItem_throws w;
     ls_removeItem_throws := ls_removeItem_throws w; network := network w;
     requests := requests w; listeners := listeners w |}.

Definition with_requests (r : list Request) (w : World) : World :=
  {| heap := heap w; console := console w;
     navigator_onLine := navigator_onLine w;
     navigator_userAgent := navigator_userAgent w; clock := clock w;
     new_error_stack := new_error_stack w; URL_valid := URL_valid w;
     ls_item := ls_item w; ls_getItem_throws := ls_getItem_throws w;
     ls_setItem_throws := ls_setItem_throws w;
     ls_removeItem_throws := ls_removeItem_throws w; network := network w;
     requests := r; listeners := listeners w |}.

Definition with_listeners (l : list string) (w : World) : World :=
  {| heap := heap w; console := console w;
     navigator_onLine := navigator_onLine w;
     navigator_userAgent := navigator_userAgent w; clock := clock w;
     new_error_stack := new_error_stack w; URL_valid := URL_valid w;
     ls_item := ls_item w; ls_getItem_throws := ls_getItem_throws w;
     ls_setItem_throws := ls_setItem_throws w;
     ls_removeItem_throws := ls_removeItem_throws w; network := network w;
     requests := requests w; listeners := l |}.

(* ===================================================================== *)
(** ** State and exceptions                                               *)
(* ===================================================================== *)

(** The outcome of running a piece of JavaScript: a value, or a thrown error
    (a rejected promise) with its message. *)
Inductive result (A : Type) : Type :=
  | Ok (a : A)
  | Throw (message : string).
Arguments Ok {A} a.
Arguments Throw {A} message.

(** The state a method runs in: its receiver and the world. *)
Record St (C : Type) : Type := mkSt { this : C; world : World }.
Arguments mkSt {C} this world.
Arguments this {C} s.
Arguments world {C} s.

Definition M (C A : Type) : Type := St C -> result A * St C.

Definition ret {C A} (a : A) : M C A := fun s => (Ok a, s).

Definition throw {C A} (message : string) : M C A := fun s => (Throw message, s).

Definition bind {C A B} (m : M C A) (k : A -> M C B) : M C B :=
  fun s =>
    match m s with
    | (Ok a, s') => k a s'
    | (Throw e, s') => (Throw e, s')
    end.

Declare Scope js_scope.
Delimit Scope js_scope with js.
Notation "'let*' x ':=' c 'in' k" := (bind c (fun x => k))
  (at level 10, x pattern, c at level 100, k at level 200) : js_scope.
Local Open Scope js_scope.

(** [try { m } catch (e) { handler e }]: effects made before the throw stay. *)
Definition try_catch {C A} (m : M C A) (handler : string -> M C A) : M C A :=
  fun s =>
    match m s with
    | (Ok a, s') => (Ok a, s')
    | (Throw e, s') => handler e s'
    end.

(** [try { m } finally { f }]. *)
Definition try_finally {C A} (m : M C A) (f : M C unit) : M C A :=
  fun s =>
    match m s with
    | (Ok a, s') =>
        match f s' with
        | (Ok _, s'') => (Ok a, s'')
        | (Throw e, s'') => (Throw e, s'')
        end
    | (Throw e, s') =>
        match f s' with
        | (Ok _, s'') => (Throw e, s'')
        | (Throw e', s'') => (Throw e', s'')
        end
    end.

Definition get_this {C} : M C C := fun s => (Ok (this s), s).
Definition put_this {C} (c : C) : M C unit := fun s => (Ok tt, mkSt c (world s)).
Definition get_world {C} : M C World := fun s => (Ok (world s), s).
Definition put_world {C} (w : World) : M C unit := fun s => (Ok tt, mkSt (this s) w).
Definition modify_world {C} (f : World -> World) : M C unit :=
  fun s => (Ok tt, mkSt (this s) (f (world s))).

(** Running a method of an object held in a field: [get] reads the field,
    [set] writes it back. *)
Definition zoom {C D A} (get : C -> D) (set : D -> C -> C) (m : M D A) : M C A :=
  fun s =>
    match m (mkSt (get (this s)) (world s)) with
    | (r, s') => (r, mkSt (set (this s') (this s)) (world s'))
    end.

(** Allocation of a new map object. *)
Definition alloc {C} (o : JsObject) : M C loc :=
  fun s =>
    (Ok (fresh (heap (world s))),
     mkSt (this s) (with_heap (extend (heap (world s)) o) (world s))).

Definition read_object {C} (l : loc) : M C JsObject :=
  fun s => (Ok (deref (heap (world s)) l), s).

Definition write_object {C} (l : loc) (o : JsObject) : M C unit :=
  modify_world (fun w => with_heap (store l o (heap w)) w).

Definition console_warn {C} (text : string) : M C unit :=
  modify_world (fun w => with_console (console w ++ [Warn text]) w).

Definition console_debug {C} (text : string) : M C unit :=
  modify_world (fun w => with_console (console w ++ [Debug text]) w).

Definition lift_result {C A} (r : result A) : M C A := fun s => (r, s).

(* ===================================================================== *)
(** ** Options and the beforeSend hook (types.ts)                         *)
(* ===================================================================== *)

(** [Error] objects. *)
Record JsError : Type := {
  err_name : string;
  err_message : string;
  err_stack : option string;
}.

(** One run of a [beforeSend] hook.  The hook is host code: it gets the event
    object itself, so besides returning (an event, or null) or failing (a
    throw or a rejected promise) it may have assigned to the fields of its
    argument and to the map objects it can reach.  [hr_event] is the argument
    object and [hr_heap] the heap once the hook has run. *)
Inductive HookOutcome : Type :=
  | HookReturns (r : option ErrorEvent)
  | HookThrows (message : string).

Record HookRun : Type := {
  hr_event : ErrorEvent;
  hr_heap : Heap;
  hr_outcome : HookOutcome;
}.

Definition BeforeSend : Type := ErrorEvent -> Heap -> HookRun.

(** [ErrorTrackerOptions] as an object literal of the host.  A field is [None]
    when the literal has no such key.  The four required fields and the two
    flags hold any value, [undefined] included, since JavaScript callers are
    not held to the declared types; [opt_tags] is a reference to the host's
    own object.  For [apiKey], [beforeSend], [tags] and [user] an explicit
    [undefined] is not told apart from a missing key. *)
Record ErrorTrackerOptions : Type := {
  opt_dsn : option JsValue;
  opt_appId : option JsValue;
  opt_commitHash : option JsValue;
  opt_environment : option JsValue;
  opt_apiKey : option string;
  opt_autoCapture : option JsValue;
  opt_debug : option JsValue;
  opt_beforeSend : option BeforeSend;
  opt_tags : option loc;
  opt_user : option UserInfo;
}.

(** One key of an object spread [{ ...a, ...b }]. *)
Definition over {A} (b a : option A) : option A :=
  match b with
  | Some v => Some v
  | None => a
  end.

(** [{ ...a, ...b }] on option objects. *)
Definition spread_options (a b : ErrorTrackerOptions) : ErrorTrackerOptions :=
  {| opt_dsn := over (opt_dsn b) (opt_dsn a);
     opt_appId := over (opt_appId b) (opt_appId a);
     opt_commitHash := over (opt_commitHash b) (opt_commitHash a);
     opt_environment := over (opt_environment b) (opt_environment a);
     opt_apiKey := over (opt_apiKey b) (opt_apiKey a);
     opt_autoCapture := over (opt_autoCapture b) (opt_autoCapture a);
     opt_debug := over (opt_debug b) (opt_debug a);
     opt_beforeSend := over (opt_beforeSend b) (opt_beforeSend a);
     opt_tags := over (opt_tags b) (opt_tags a);
     opt_user := over (opt_user b) (opt_user a) |}.

(** Reading a key of an object: [undefined] when the key is missing. *)
Definition prop (f : option JsValue) : JsValue := default JUndefined f.

(* ===================================================================== *)
(** ** Config (config.ts)                                                 *)
(* ===================================================================== *)

Module Config.

Definition DEFAULT_OPTIONS : ErrorTrackerOptions :=
  {| opt_dsn := None; opt_appId := None; opt_commitHash := None;
     opt_environment := Some (jstr "Development");
     opt_apiKey := None;
     opt_autoCapture := Some (JV (JBool true));
     opt_debug := Some (JV (JBool false));
     opt_beforeSend := None; opt_tags := None; opt_user := None |}.

Definition VALID_ENVIRONMENTS : list string :=
  ["Production"; "Staging"; "Development"].

(** [Array.prototype.includes] on an array of strings. *)
Definition includes (l : list string) (v : JsValue) : bool :=
  existsb (fun s => bool_decide (v = jstr s)) l.

Record Config : Type := { options : ErrorTrackerOptions }.

Definition validate (c : Config) : result unit :=
  if negb (truthy (prop (opt_dsn (options c)))) then
    Throw "ErrorTracker: dsn is required"
  else if negb (truthy (prop (opt_appId (options c)))) then
    Throw "ErrorTracker: appId is required"
  else if negb (truthy (prop (opt_commitHash (options c)))) then
    Throw "ErrorTracker: commitHash is required"
  else if negb (includes VALID_ENVIRONMENTS (prop (opt_environment (options c)))) then
    Throw "ErrorTracker: environment must be one of: Production, Staging, Development"
  else Ok tt.

(** [new Config(options)]. *)
Definition new (opts : ErrorTrackerOptions) : result Config :=
  let c := {| options := spread_options DEFAULT_OPTIONS opts |} in
  match validate c with
  | Ok _ => Ok c
  | Throw e => Throw e
  end.

Definition getAll (c : Config) : ErrorTrackerOptions := options c.

Definition update (updates : ErrorTrackerOptions) (c : Config) : Config :=
  {| options := spread_options (options c) updates |}.

(** [debug(message, ...args)]: the arguments after the message are not
    recorded. *)
Definition debug {C} (c : Config) (message : string) : M C unit :=
  if truthy (prop (opt_debug (options c))) then
    console_debug ("[ErrorTracker] " ++ message)
  else ret tt.

End Config.

(* ===================================================================== *)
(** ** BaseHub (hub.ts)                                                   *)
(* ===================================================================== *)

Record Scope : Type := {
  scope_tags : loc;
  scope_user : option UserInfo;
  scope_extras : loc;
}.

Module BaseHub.

Record BaseHub : Type := {
  config : Config.Config;
  scope : Scope;
  initialized : bool;
}.

Definition set_scope (sc : Scope) (hub : BaseHub) : BaseHub :=
  {| config := config hub; scope := sc; initialized := initialized hub |}.

Definition set_config (c : Config.Config) (hub : BaseHub) : BaseHub :=
  {| config := c; scope := scope hub; initialized := initialized hub |}.

(** [constructor(options)]: [options.tags || {}] keeps the host's own tags
    object when there is one. *)
Definition new {C} (opts : ErrorTrackerOptions) : M C BaseHub :=
  let* c := lift_result (Config.new opts) in
  let* tags :=
    match opt_tags opts with
    | Some l => ret l
    | None => alloc ∅
    end in
  let* extras := alloc ∅ in
  let hub :=
    {| config := c;
       scope := {| scope_tags := tags; scope_user := opt_user opts;
                   scope_extras := extras |};
       initialized := true |} in
  let* _ := Config.debug c "SDK initialized" in
  ret hub.

Definition this_config : M BaseHub Config.Config :=
  let* hub := get_this in ret (config hub).

Definition this_scope : M BaseHub Scope :=
  let* hub := get_this in ret (scope hub).

Definition put_scope (sc : Scope) : M BaseHub unit :=
  let* hub := get_this in put_this (set_scope sc hub).

Definition debug (message : string) : M BaseHub unit :=
  let* c := this_config in Config.debug c message.

(** [setUser(user)]: [user || undefined]. *)
Definition setUser (user : option UserInfo) : M BaseHub unit :=
  let* sc := this_scope in
  let* _ := put_scope {| scope_tags := scope_tags sc; scope_user := user;
                         scope_extras := scope_extras sc |} in
  debug "User set".

(** [this.scope.tags[key] = value]: an assignment into the object. *)
Definition setTag (key value : string) : M BaseHub unit :=
  let* sc := this_scope in
  let* tags := read_object (scope_tags sc) in
  write_object (scope_tags sc) (assign key (jstr value) tags).

(** [this.scope.tags = { ...this.scope.tags, ...tags }]: a new object. *)
Definition setTags (tags : gmap string string) : M BaseHub unit :=
  let* sc := this_scope in
  let* old := read_object (scope_tags sc) in
  let* l := alloc (spread old (jstr <$> tags)) in
  put_scope {| scope_tags := l; scope_user := scope_user sc;
               scope_extras := scope_extras sc |}.

(** [setExtra(key, value)]: [delete this.scope.extras[key]] for [undefined],
    the assignment [this.scope.extras[key] = value] otherwise. *)
Definition setExtra (key : string) (value : JsValue) : M BaseHub unit :=
  let* sc := this_scope in
  let* extras := read_object (scope_extras sc) in
  if bool_decide (value = JUndefined) then
    write_object (scope_extras sc) (delete key extras)
  else
    write_object (scope_extras sc) (assign key value extras).

Definition setExtras (extras : JsObject) : M BaseHub unit :=
  let* sc := this_scope in
  let* old := read_object (scope_extras sc) in
  let* l := alloc (spread old extras) in
  put_scope {| scope_tags := scope_tags sc; scope_user := scope_user sc;
               scope_extras := l |}.

Definition getConfig : M BaseHub Config.Config := this_config.

Definition isInitialized : M BaseHub bool :=
  let* hub := get_this in ret (initialized hub).

(** [Object.keys(o).length > 0 ? { ...o } : undefined]. *)
Definition copy_unless_empty {C} (l : loc) : M C (option loc) :=
  let* o := read_object l in
  if (0 <? keys_length o)%nat then
    let* l' := alloc (spread ∅ o) in ret (Some l')
  else ret None.

Definition buildEvent (message : string) (level : ErrorLevel)
    (error : option JsError) : M BaseHub ErrorEvent :=
  let* c := this_config in
  let* sc := this_scope in
  let* metadata := copy_unless_empty (scope_extras sc) in
  let* tags := copy_unless_empty (scope_tags sc) in
  let* w := get_world in
  ret {| ev_appId := prop (opt_appId (Config.options c));
         ev_commitHash := prop (opt_commitHash (Config.options c));
         ev_environment := prop (opt_environment (Config.options c));
         ev_level := level;
         ev_message := message;
         ev_stackTrace := error ≫= err_stack;
         ev_metadata := metadata;
         ev_sourceContext := None;
         ev_userAgent := None;
         ev_timestamp := Some (clock w);
         ev_tags := tags;
         ev_user := scope_user sc |}.

(** The call [beforeSend(event)]: the heap becomes the one the hook leaves. *)
Definition run_hook {C} (beforeSend : BeforeSend) (event : ErrorEvent) : M C HookRun :=
  let* w := get_world in
  let run := beforeSend event (heap w) in
  let* _ := put_world (with_heap (hr_heap run) w) in
  ret run.

(** [await] of what the hook returned. *)
Definition await_hook {C} (run : HookRun) : M C (option ErrorEvent) :=
  match hr_outcome run with
  | HookReturns r => ret r
  | HookThrows e => throw e
  end.

(** [applyBeforeSend(event)].  The [catch] branch returns [event], the object
    that was handed to the hook, in the state the hook left it in. *)
Definition applyBeforeSend (event : ErrorEvent) : M BaseHub (option ErrorEvent) :=
  let* c := this_config in
  match opt_beforeSend (Config.options c) with
  | Some beforeSend =>
      let* run := run_hook beforeSend event in
      try_catch (await_hook run)
        (fun err =>
           let* _ := debug "beforeSend threw an error" in
           ret (Some (hr_event run)))
  | None => ret (Some event)
  end.

End BaseHub.

(* ===================================================================== *)
(** ** BaseTransport (transport.ts)                                       *)
(* ===================================================================== *)

(** [s.replace(/\/$/, '')]: one slash at the very end goes. *)
Fixpoint strip_trailing_slash (s : string) : string :=
  match s with
  | EmptyString => EmptyString
  | String c EmptyString => if Ascii.eqb c "/"%char then EmptyString else s
  | String c rest => String c (strip_trailing_slash rest)
  end.

(** Truthiness of an optional string. *)
Definition nonempty (s : option string) : option string :=
  match s with
  | Some t => if String.eqb t EmptyString then None else Some t
  | None => None
  end.

Module BaseTransport.

(** The transport keeps a reference to the [Config] object of its hub, not a
    copy: the methods below take that object as it is at the call. *)
Record BaseTransport : Type := { endpoint : string }.

(** [constructor(config)]: [dsn.replace] exists on strings only. *)
Definition new (c : Config.Config) : result BaseTransport :=
  match prop (opt_dsn (Config.options c)) with
  | JV (JStr dsn) =>
      Ok {| endpoint := strip_trailing_slash dsn ++ "/api/ingest-error" |}
  | _ => Throw "TypeError: dsn.replace is not a function"
  end.

Definition buildHeaders (c : Config.Config) : list (string * string) :=
  let headers := [("Content-Type", "application/json")] in
  match nonempty (opt_apiKey (Config.options c)) with
  | Some apiKey => headers ++ [("x-functions-key", apiKey)]
  | None => headers
  end.

(** The [metadata] object of the payload, before it is serialized. *)
Definition merged_metadata (h : Heap) (event : ErrorEvent) : gmap string MetaVal :=
  let metadata : gmap string MetaVal :=
    MValue <$> (match ev_metadata event with
                | Some l => deref h l
                | None => ∅
                end) in
  let metadata :=
    match ev_tags event with
    | Some l =>
        if (0 <? keys_length (deref h l))%nat
        then <["tags" := MTags (deref h l)]> metadata
        else metadata
    | None => metadata
    end in
  match ev_user event with
  | Some u => <["user" := MUser u]> metadata
  | None => metadata
  end.

(** [buildPayload(event)], as the JSON text it returns.  The code ends in
    [JSON.stringify(payload)], which throws when a value of the metadata is
    a [BigInt] or part of a circular structure; the values of [JsonValue] are
    primitives, so here the function is total.  What the transports do when
    it throws (no request) is outside this model. *)
Definition buildPayload (h : Heap) (event : ErrorEvent) : Payload :=
  let metadata := merged_metadata h event in
  {| p_appId := ev_appId event;
     p_commitHash := ev_commitHash event;
     p_environment := ev_environment event;
     p_level := ev_level event;
     p_message := ev_message event;
     p_stackTrace := nonempty (ev_stackTrace event);
     p_metadata :=
       if (0 <? size metadata)%nat then Some (omap json_of_meta metadata)
       else None;
     p_sourceContext := ev_sourceContext event;
     p_userAgent := nonempty (ev_userAgent event) |}.

(** [parseResponse(response)]: ['success' in response] throws on a value
    that is not an object. *)
Definition parseResponse {C} (response : ParsedBody) : M C TransportResponse :=
  match response with
  | PNotObject =>
      throw "TypeError: cannot use 'in' operator to search for 'success'"
  | PObject resp_success resp_id resp_error =>
      match resp_success with
      | Some v =>
          if truthy v then
            ret {| success := true; id := resp_id; statusCode := None;
                   error := None |}
          else
            ret {| success := false; id := None; statusCode := None;
                   error := resp_error |}
      | None =>
          ret {| success := false; id := None; statusCode := None;
                 error := resp_error |}
      end
  end.

End BaseTransport.

(** Issuing one HTTP request: it is recorded, and the network answers. *)
Definition http_request {C} (req : Request) : M C HttpOutcome :=
  fun s =>
    let w := world s in
    (Ok (network w (length (requests w))),
     mkSt (this s) (with_requests (requests w ++ [req]) w)).

Definition status_ok (status : Z) : bool := (200 <=? status) && (status <? 300).

(** [JSON.parse] of a response body, and [response.json()]. *)
Definition JSON_parse_body {C} (body : ResponseBody) : M C ParsedBody :=
  match body with
  | BodyText _ => throw "SyntaxError: Unexpected token in JSON"
  | BodyJson parsed => ret parsed
  end.

Definition failure (code : option Z) (message : string) : TransportResponse :=
  {| success := false; id := None; statusCode := code; error := Some message |}.

(* ===================================================================== *)
(** ** FetchTransport (browser/src/transports/fetch.ts)                   *)
(* ===================================================================== *)

Module FetchTransport.

(** [fetch(url, init)]: the promise rejects when the network fails. *)
Definition fetch {C} (req : Request) : M C (Z * ResponseBody) :=
  let* outcome := http_request req in
  match outcome with
  | NetError message => throw message
  | NetTimeout => throw "Failed to fetch"
  | NetResponse status body => ret (status, body)
  end.

Definition send {C} (c : Config.Config) (t : BaseTransport.BaseTransport)
    (event : ErrorEvent) : M C TransportResponse :=
  try_catch
    (let* w := get_world in
     let* response :=
       fetch {| req_url := BaseTransport.endpoint t;
                req_headers := BaseTransport.buildHeaders c;
                req_body := BaseTransport.buildPayload (heap w) event |} in
     let '(status, body) := response in
     if negb (status_ok status) then
       ret (failure (Some status) ("HTTP " ++ pretty status))
     else
       let* data := JSON_parse_body body in
       BaseTransport.parseResponse data)
    (fun message => ret (failure None message)).

End FetchTransport.

(* ===================================================================== *)
(** ** BeaconTransport (browser/src/transports/beacon.ts)                 *)
(* ===================================================================== *)

Module BeaconTransport.
Section WithNavigator.

(** [navigator.sendBeacon(url, blob)]: whether the user agent has queued the
    data for transfer; the call may throw.  The answer is the runtime's. *)
Variable sendBeacon : string -> Payload -> result bool.

(** The call itself.  Data that the user agent queues goes out as a request
    whose only header is the type of the blob. *)
Definition navigator_sendBeacon {C} (url : string) (body : Payload) : M C bool :=
  match sendBeacon url body with
  | Ok true =>
      let* _ :=
        modify_world
          (fun w =>
             with_requests
               (requests w ++
                [{| req_url := url;
                    req_headers := [("Content-Type", "application/json")];
                    req_body := body |}])%list w) in
      ret true
  | Ok false => ret false
  | Throw e => throw e
  end.

Definition send {C} (t : BaseTransport.BaseTransport) (event : ErrorEvent) : M C TransportResponse :=
  try_catch
    (let* w := get_world in
     let payload := BaseTransport.buildPayload (heap w) event in
     let* accepted := navigator_sendBeacon (BaseTransport.endpoint t) payload in
     ret {| success := accepted; id := None; statusCode := None; error := None |})
    (fun _ => ret (failure None "Beacon API failed")).

End WithNavigator.
End BeaconTransport.

(* ===================================================================== *)
(** ** NodeTransport (node/src/transports/http.ts)                        *)
(* ===================================================================== *)

Module NodeTransport.

Record NodeTransport : Type := {
  base : BaseTransport.BaseTransport;
  isHttps : bool;
}.

(** [dsn.startsWith('https://')]. *)
Definition starts_with_https (dsn : string) : bool :=
  String.prefix "https://" dsn.

Definition new (c : Config.Config) : result NodeTransport :=
  match BaseTransport.new c with
  | Ok b =>
      match prop (opt_dsn (Config.options c)) with
      | JV (JStr dsn) => Ok {| base := b; isHttps := starts_with_https dsn |}
      | _ => Throw "TypeError: dsn.startsWith is not a function"
      end
  | Throw e => Throw e
  end.

(** [new URL(endpoint)]. *)
Definition new_URL {C} (endpoint : string) : M C unit :=
  let* w := get_world in
  if URL_valid w endpoint then ret tt else throw "Invalid URL".

(** [send(event)]: the promise is resolved by whichever of the [end],
    [error] and [timeout] handlers the request triggers. *)
Definition send {C} (c : Config.Config) (t : NodeTransport)
    (event : ErrorEvent) : M C TransportResponse :=
  try_catch
    (let* _ := new_URL (BaseTransport.endpoint (base t)) in
     let* w := get_world in
     let* outcome :=
       http_request {| req_url := BaseTransport.endpoint (base t);
                       req_headers := BaseTransport.buildHeaders c;
                       req_body := BaseTransport.buildPayload (heap w) event |} in
     match outcome with
     | NetResponse statusCode data =>
         if status_ok statusCode then
           try_catch
             (let* parsed := JSON_parse_body data in
              BaseTransport.parseResponse parsed)
             (fun _ =>
                ret {| success := true; id := None; statusCode := None;
                       error := None |})
         else
           ret (failure (Some statusCode) ("HTTP " ++ pretty statusCode))
     | NetError message => ret (failure None message)
     | NetTimeout => ret (failure None "Request timeout")
     end)
    (fun message => ret (failure None message)).

End NodeTransport.

(* ===================================================================== *)
(** ** Utilities (utils/safe.ts, utils/normalize.ts)                      *)
(* ===================================================================== *)

(** [safeExecuteAsync(fn, fallback)]. *)
Definition safeExecuteAsync {C A} (fn : M C A) (fallback : A) : M C A :=
  try_catch fn (fun _ => ret fallback).

(** A captured value of type [unknown].  For a plain object the fields that
    [normalizeError] looks at are given, with [String(error)]; for any other
    value only [String(error)] matters.  [to_string] is the text that
    [String(error)] returns: a value for which that conversion throws (an
    object without prototype, or one whose [toString] throws) has no
    counterpart here. *)
Inductive Unknown : Type :=
  | UError (e : JsError)
  | UString (s : string)
  | UObject (message reason stack name : option string) (to_string : string)
  | UOther (to_string : string).

(** [new Error(message)]: the engine fills in the stack. *)
Definition new_Error {C} (message : string) : M C JsError :=
  let* w := get_world in
  ret {| err_name := "Error"; err_message := message;
         err_stack := new_error_stack w |}.

Definition normalizeError {C} (error : Unknown) : M C JsError :=
  match error with
  | UError e => ret e
  | UString s => new_Error s
  | UObject message reason stack name to_string =>
      let message :=
        match nonempty message with
        | Some m => m
        | None =>
            match nonempty reason with
            | Some r => r
            | None => to_string
            end
        end in
      let* err := new_Error message in
      let err :=
        match nonempty stack with
        | Some st => {| err_name := err_name err; err_message := err_message err;
                        err_stack := Some st |}
        | None => err
        end in
      let err :=
        match nonempty name with
        | Some n => {| err_name := n; err_message := err_message err;
                       err_stack := err_stack err |}
        | None => err
        end in
      ret err
  | UOther to_string => new_Error to_string
  end.


(** [result.id || null]. *)
Definition id_or_null (r : TransportResponse) : option string := nonempty (id r).

Definition installs (names : list string) : World -> World :=
  fun w => with_listeners (listeners w ++ names) w.

Definition removes (names : list string) : World -> World :=
  fun w => with_listeners (filter (fun n => n ∉ names) (listeners w)) w.

(* ===================================================================== *)
(** ** The localStorage queue (browser/src/client.ts)                     *)
(* ===================================================================== *)

Definition MAX_QUEUE_SIZE : nat := 100.

(** [localStorage] restricted to the one key the SDK uses,
    ['error-tracker-queue'], whose value is the JSON text of an event array. *)
Definition localStorage_getItem {C} : M C (option (list JsonEvent)) :=
  let* w := get_world in
  if ls_getItem_throws w then throw "SecurityError: localStorage is not available"
  else ret (ls_item w).

Definition localStorage_setItem {C} (data : list JsonEvent) : M C unit :=
  let* w := get_world in
  if ls_setItem_throws w data then throw "QuotaExceededError"
  else put_world (with_ls_item (Some data) w).

Definition localStorage_removeItem {C} : M C unit :=
  let* w := get_world in
  if ls_removeItem_throws w then throw "SecurityError: localStorage is not available"
  else put_world (with_ls_item None w).

(** [JSON.parse] builds new objects for the maps of an event. *)
Definition parse_map {C} (o : option JsonObject) : M C (option loc) :=
  match o with
  | Some m => let* l := alloc (JSON_parse_object m) in ret (Some l)
  | None => ret None
  end.

Definition fromJSON {C} (j : JsonEvent) : M C ErrorEvent :=
  let* metadata := parse_map (je_metadata j) in
  let* tags := parse_map (je_tags j) in
  ret {| ev_appId := je_appId j;
         ev_commitHash := je_commitHash j;
         ev_environment := je_environment j;
         ev_level := je_level j;
         ev_message := je_message j;
         ev_stackTrace := je_stackTrace j;
         ev_metadata := metadata;
         ev_sourceContext := je_sourceContext j;
         ev_userAgent := je_userAgent j;
         ev_timestamp := je_timestamp j;
         ev_tags := tags;
         ev_user := je_user j |}.

Fixpoint JSON_parse_events {C} (data : list JsonEvent) : M C (list ErrorEvent) :=
  match data with
  | [] => ret []
  | j :: rest =>
      let* e := fromJSON j in
      let* es := JSON_parse_events rest in
      ret (e :: es)
  end.

Definition JSON_stringify_events {C} (events : list ErrorEvent) : M C (list JsonEvent) :=
  let* w := get_world in
  ret (map (toJSON (heap w)) events).

(** The entry of the world, [ls_item], is the text that the SDK itself writes
    under its key: the JSON text of an event array.  Other code can write
    under the same key.  A text of that kind is given by what [JSON.parse]
    makes of it: *)
Inductive ForeignText : Type :=
  | NotJson       (* not JSON: [JSON.parse] throws *)
  | NotAnArray.   (* the text of null, a number, a boolean or an object: a
                     value without a [length] and a [push] that work *)

(** [createLocalStorageQueue()]. *)
Module QueueStorage.

Definition get {C} : M C (list ErrorEvent) :=
  try_catch
    (let* data := localStorage_getItem in
     match data with
     | Some text => JSON_parse_events text
     | None => ret []
     end)
    (fun _ => ret []).

Definition set {C} (events : list ErrorEvent) : M C unit :=
  try_catch
    (let* text := JSON_stringify_events events in
     localStorage_setItem text)
    (fun _ => ret tt).

Definition clear {C} : M C unit :=
  try_catch localStorage_removeItem (fun _ => ret tt).

(** [get()] while the entry holds a text that other code wrote ([ls_item] is
    not read then).  [JSON.parse(data)] is returned as it is: the caller gets
    an array, or ([None]) a value that is not one. *)
Definition get_foreign {C} (text : ForeignText) : M C (option (list ErrorEvent)) :=
  try_catch
    (let* w := get_world in
     if ls_getItem_throws w then throw "SecurityError: localStorage is not available"
     else
       match text with
       | NotJson => throw "SyntaxError: Unexpected token in JSON"
       | NotAnArray => ret None
       end)
    (fun _ => ret (Some [])).

End QueueStorage.

(** Running a method on an object that the caller holds in a local variable:
    the result comes with the object as the method left it. *)
Definition on {C D A} (obj : D) (m : M D A) : M C (A * D) :=
  fun s =>
    match m (mkSt obj (world s)) with
    | (Ok a, s') => (Ok (a, this s'), mkSt (this s) (world s'))
    | (Throw e, s') => (Throw e, mkSt (this s) (world s'))
    end.

(** Running a method on the object held in the module variable [client]. *)
Definition with_client {D A} (m : M D A) (c : D) : M (option D) A :=
  fun s =>
    match m (mkSt c (world s)) with
    | (r, s') => (r, mkSt (Some (this s')) (world s'))
    end.

Definition default_level (level : option ErrorLevel) (d : ErrorLevel) : ErrorLevel :=
  default d level.

(* ===================================================================== *)
(** ** BrowserClient (browser/src/client.ts)                              *)
(* ===================================================================== *)

Module BrowserClient.
Section WithStackParser.

(** [parseStackTrace] (utils/stacktrace.ts) matches regular expressions
    against the lines of a stack; the clients only store what it returns. *)
Variable parseStackTrace : option string -> option SourceContext.

(** Each cleanup handler is given by the names of the global handlers it
    removes. *)
Record BrowserClient : Type := {
  base : BaseHub.BaseHub;
  transport : BaseTransport.BaseTransport;
  cleanupHandlers : list (list string);
  isProcessingQueue : bool;
}.

Definition set_base (b : BaseHub.BaseHub) (c : BrowserClient) : BrowserClient :=
  {| base := b; transport := transport c;
     cleanupHandlers := cleanupHandlers c;
     isProcessingQueue := isProcessingQueue c |}.

Definition set_cleanupHandlers (l : list (list string)) (c : BrowserClient) : BrowserClient :=
  {| base := base c; transport := transport c;
     cleanupHandlers := l;
     isProcessingQueue := isProcessingQueue c |}.

Definition set_isProcessingQueue (b : bool) (c : BrowserClient) : BrowserClient :=
  {| base := base c; transport := transport c;
     cleanupHandlers := cleanupHandlers c;
     isProcessingQueue := b |}.

(** A method inherited from [BaseHub]. *)
Definition super {A} (m : M BaseHub.BaseHub A) : M BrowserClient A :=
  zoom base set_base m.

Definition debug (message : string) : M BrowserClient unit :=
  super (BaseHub.debug message).

(** [this.transport.send(event)]. *)
Definition transport_send (event : ErrorEvent) : M BrowserClient TransportResponse :=
  let* c := get_this in
  FetchTransport.send (BaseHub.config (base c)) (transport c) event.

(** [enqueue(event)]. *)
Definition enqueue (event : ErrorEvent) : M BrowserClient unit :=
  let* events := QueueStorage.get in
  let events :=
    if (MAX_QUEUE_SIZE <=? length events)%nat
    then tail events (* events.shift() *)
    else events in
  let events := (events ++ [event])%list in
  QueueStorage.set events.

(** [enqueue(event)] while the entry holds a text that other code wrote:
    the same code, with [events.length] and [events.push] applied to what
    [get()] returned. *)
Definition enqueue_foreign (text : ForeignText) (event : ErrorEvent) : M BrowserClient unit :=
  let* events := QueueStorage.get_foreign text in
  match events with
  | None => throw "TypeError: events.push is not a function"
  | Some events =>
      let events :=
        if (MAX_QUEUE_SIZE <=? length events)%nat
        then tail events
        else events in
      let events := (events ++ [event])%list in
      QueueStorage.set events
  end.

(** The [for] loop of [flushQueue], with its [break]. *)
Fixpoint flush_loop (events remaining : list ErrorEvent) : M BrowserClient (list ErrorEvent) :=
  match events with
  | [] => ret remaining
  | event :: rest =>
      let* result := transport_send event in
      if negb (success result) then
        ret (remaining ++ [event])%list (* push, then break *)
      else
        let* _ := debug "Queue event sent" in
        flush_loop rest remaining
  end.

(** [flushQueue()]. *)
Definition flushQueue : M BrowserClient unit :=
  let* c := get_this in
  if isProcessingQueue c then ret tt
  else
    let* _ := put_this (set_isProcessingQueue true c) in
    try_finally
      (let* events := QueueStorage.get in
       let* remaining := flush_loop events [] in
       if (length remaining <? length events)%nat
       then QueueStorage.set remaining
       else ret tt)
      (let* c := get_this in put_this (set_isProcessingQueue false c)).

(** [sendEvent(event)]. *)
Definition sendEvent (event : ErrorEvent) : M BrowserClient (option string) :=
  let* processedEvent := super (BaseHub.applyBeforeSend event) in
  match processedEvent with
  | None =>
      let* _ := debug "Event dropped by beforeSend" in
      ret None
  | Some processedEvent =>
      let* w := get_world in
      if negb (navigator_onLine w) then
        let* _ := debug "Offline - queueing event" in
        let* _ := enqueue processedEvent in
        ret None
      else
        let* result := transport_send processedEvent in
        if negb (success result) then
          let* _ := debug "Send failed, queueing event" in
          let* _ := enqueue processedEvent in
          ret None
        else
          let* _ := debug "Event sent successfully" in
          ret (id_or_null result)
  end.

Definition with_userAgent (ua : option string) (e : ErrorEvent) : ErrorEvent :=
  {| ev_appId := ev_appId e; ev_commitHash := ev_commitHash e;
     ev_environment := ev_environment e; ev_level := ev_level e;
     ev_message := ev_message e; ev_stackTrace := ev_stackTrace e;
     ev_metadata := ev_metadata e; ev_sourceContext := ev_sourceContext e;
     ev_userAgent := ua; ev_timestamp := ev_timestamp e;
     ev_tags := ev_tags e; ev_user := ev_user e |}.

Definition with_sourceContext (sc : option SourceContext) (e : ErrorEvent) : ErrorEvent :=
  {| ev_appId := ev_appId e; ev_commitHash := ev_commitHash e;
     ev_environment := ev_environment e; ev_level := ev_level e;
     ev_message := ev_message e; ev_stackTrace := ev_stackTrace e;
     ev_metadata := ev_metadata e; ev_sourceContext := sc;
     ev_userAgent := ev_userAgent e; ev_timestamp := ev_timestamp e;
     ev_tags := ev_tags e; ev_user := ev_user e |}.

(** The event that [captureException] hands to [sendEvent]. *)
Definition exception_event (error : Unknown) (level : ErrorLevel) : M BrowserClient ErrorEvent :=
  let* normalizedError := normalizeError error in
  let* event :=
    super (BaseHub.buildEvent (err_message normalizedError) level
             (Some normalizedError)) in
  let* w := get_world in
  let event := with_userAgent (Some (navigator_userAgent w)) event in
  let event := with_sourceContext (parseStackTrace (err_stack normalizedError)) event in
  let* _ := debug "Capturing exception" in
  ret event.

(** [captureException(error, level = 'Error')]. *)
Definition captureException (error : Unknown) (level : option ErrorLevel) : M BrowserClient (option string) :=
  safeExecuteAsync
    (let* event := exception_event error (default_level level LError) in
     sendEvent event)
    None.

(** The event that [captureMessage] hands to [sendEvent]. *)
Definition message_event (message : string) (level : ErrorLevel) : M BrowserClient ErrorEvent :=
  let* event := super (BaseHub.buildEvent message level None) in
  let* w := get_world in
  let event := with_userAgent (Some (navigator_userAgent w)) event in
  let* _ := debug "Capturing message" in
  ret event.

(** [captureMessage(message, level = 'Warning')]. *)
Definition captureMessage (message : string) (level : option ErrorLevel) : M BrowserClient (option string) :=
  safeExecuteAsync
    (let* event := message_event message (default_level level LWarning) in
     sendEvent event)
    None.

(** [setupGlobalHandlers(client)] (integrations/global-handlers.ts) and
    [setupBrowserListeners()]: which handlers get installed. *)
Definition global_handlers : list string := ["onerror"; "unhandledrejection"].
Definition browser_listeners : list (list string) :=
  [["online"]; ["visibilitychange"]; ["beforeunload"]].

(** [constructor(options)].  The initial [flushQueue()] is run to its end. *)
Definition new {C} (opts : ErrorTrackerOptions) : M C BrowserClient :=
  let* hub := BaseHub.new opts in
  let* t := lift_result (BaseTransport.new (BaseHub.config hub)) in
  let client :=
    {| base := hub; transport := t; cleanupHandlers := [];
       isProcessingQueue := false |} in
  let* client :=
    if truthy (prop (opt_autoCapture (Config.options (BaseHub.config hub)))) then
      let* _ := modify_world (installs global_handlers) in
      let client := set_cleanupHandlers (cleanupHandlers client ++ [global_handlers])%list client in
      let* _ := Config.debug (BaseHub.config hub) "Global handlers installed" in
      ret client
    else ret client in
  let* _ := modify_world (installs (concat browser_listeners)) in
  let client := set_cleanupHandlers (cleanupHandlers client ++ browser_listeners)%list client in
  let* r := on client flushQueue in
  ret (snd r).

(** [navigator.sendBeacon], as in [BeaconTransport]. *)
Variable sendBeacon : string -> Payload -> result bool.

(** The loop of [sendPendingViaBeacon]; the results of the sends are not
    looked at.  The beacon transport is built from the same configuration as
    [transport], so it has the same endpoint. *)
Fixpoint beacon_loop (events : list ErrorEvent) : M BrowserClient unit :=
  match events with
  | [] => ret tt
  | event :: rest =>
      let* c := get_this in
      let* _ := BeaconTransport.send sendBeacon (transport c) event in
      beacon_loop rest
  end.

(** [sendPendingViaBeacon()]. *)
Definition sendPendingViaBeacon : M BrowserClient unit :=
  let* events := QueueStorage.get in
  let* _ := beacon_loop events in
  QueueStorage.clear.

(** [destroy()]. *)
Definition destroy : M BrowserClient unit :=
  let* c := get_this in
  let* _ := modify_world (removes (concat (cleanupHandlers c))) in
  let* _ := put_this (set_cleanupHandlers [] c) in
  debug "Client destroyed".

End WithStackParser.
End BrowserClient.

(* ===================================================================== *)
(** ** The browser package (browser/src/index.ts)                         *)
(* ===================================================================== *)

Module Browser.
Section WithStackParser.

Variable parseStackTrace : option string -> option SourceContext.

(** The state of the module is its variable [client]. *)
Abbreviation Module_ := (option BrowserClient.BrowserClient).

Definition init (opts : ErrorTrackerOptions) : M Module_ unit :=
  let* client := get_this in
  match client with
  | Some _ => console_warn "ErrorTracker: Already initialized"
  | None =>
      let* c := BrowserClient.new opts in
      put_this (Some c)
  end.

Definition captureException (error : Unknown) (level : option ErrorLevel) : M Module_ (option string) :=
  let* client := get_this in
  match client with
  | None =>
      let* _ := console_warn "ErrorTracker: Not initialized. Call init() first." in
      ret None
  | Some c => with_client (BrowserClient.captureException parseStackTrace error level) c
  end.

Definition captureMessage (message : string) (level : option ErrorLevel) : M Module_ (option string) :=
  let* client := get_this in
  match client with
  | None =>
      let* _ := console_warn "ErrorTracker: Not initialized. Call init() first." in
      ret None
  | Some c => with_client (BrowserClient.captureMessage message level) c
  end.

(** [client?.method(...)]. *)
Definition optional_call (m : M BrowserClient.BrowserClient unit) : M Module_ unit :=
  let* client := get_this in
  match client with
  | Some c => with_client m c
  | None => ret tt
  end.

Definition setUser (user : option UserInfo) : M Module_ unit :=
  optional_call (BrowserClient.super (BaseHub.setUser user)).

Definition setTag (key value : string) : M Module_ unit :=
  optional_call (BrowserClient.super (BaseHub.setTag key value)).

Definition setTags (tags : gmap string string) : M Module_ unit :=
  optional_call (BrowserClient.super (BaseHub.setTags tags)).

Definition setExtra (key : string) (value : JsValue) : M Module_ unit :=
  optional_call (BrowserClient.super (BaseHub.setExtra key value)).

Definition setExtras (extras : JsObject) : M Module_ unit :=
  optional_call (BrowserClient.super (BaseHub.setExtras extras)).

Definition getClient : M Module_ Module_ := get_this.

Definition close : M Module_ unit :=
  let* _ := optional_call BrowserClient.destroy in
  put_this None.

End WithStackParser.
End Browser.

(* ===================================================================== *)
(** ** NodeClient (node/src/client.ts)                                    *)
(* ===================================================================== *)

Module NodeClient.
Section WithStackParser.

Variable parseStackTrace : option string -> option SourceContext.

Record NodeClient : Type := {
  base : BaseHub.BaseHub;
  transport : NodeTransport.NodeTransport;
  cleanupHandlers : list (list string);
}.

Definition set_base (b : BaseHub.BaseHub) (c : NodeClient) : NodeClient :=
  {| base := b; transport := transport c;
     cleanupHandlers := cleanupHandlers c |}.

Definition set_cleanupHandlers (l : list (list string)) (c : NodeClient) : NodeClient :=
  {| base := base c; transport := transport c; cleanupHandlers := l |}.

Definition super {A} (m : M BaseHub.BaseHub A) : M NodeClient A :=
  zoom base set_base m.

Definition debug (message : string) : M NodeClient unit :=
  super (BaseHub.debug message).

Definition transport_send (event : ErrorEvent) : M NodeClient TransportResponse :=
  let* c := get_this in
  NodeTransport.send (BaseHub.config (base c)) (transport c) event.

(** [sendEvent(event)]. *)
Definition sendEvent (event : ErrorEvent) : M NodeClient (option string) :=
  let* processedEvent := super (BaseHub.applyBeforeSend event) in
  match processedEvent with
  | None =>
      let* _ := debug "Event dropped by beforeSend" in
      ret None
  | Some processedEvent =>
      let* result := transport_send processedEvent in
      if negb (success result) then
        let* _ := debug "Send failed" in
        ret None
      else
        let* _ := debug "Event sent successfully" in
        ret (id_or_null result)
  end.

(** The event that [captureException] hands to [sendEvent]. *)
Definition exception_event (error : Unknown) (level : ErrorLevel) : M NodeClient ErrorEvent :=
  let* normalizedError := normalizeError error in
  let* event :=
    super (BaseHub.buildEvent (err_message normalizedError) level
             (Some normalizedError)) in
  let event :=
    BrowserClient.with_sourceContext
      (parseStackTrace (err_stack normalizedError)) event in
  let* _ := debug "Capturing exception" in
  ret event.

Definition captureException (error : Unknown) (level : option ErrorLevel) : M NodeClient (option string) :=
  safeExecuteAsync
    (let* event := exception_event error (default_level level LError) in
     sendEvent event)
    None.

(** The event that [captureMessage] hands to [sendEvent]. *)
Definition message_event (message : string) (level : ErrorLevel) : M NodeClient ErrorEvent :=
  let* event := super (BaseHub.buildEvent message level None) in
  let* _ := debug "Capturing message" in
  ret event.

Definition captureMessage (message : string) (level : option ErrorLevel) : M NodeClient (option string) :=
  safeExecuteAsync
    (let* event := message_event message (default_level level LWarning) in
     sendEvent event)
    None.

(** [setupGlobalHandlers(client)] (integrations/global-handlers.ts). *)
Definition global_handlers : list string :=
  ["uncaughtException"; "unhandledRejection"; "SIGTERM"; "SIGINT"].

(** [constructor(options)]. *)
Definition new {C} (opts : ErrorTrackerOptions) : M C NodeClient :=
  let* hub := BaseHub.new opts in
  let* t := lift_result (NodeTransport.new (BaseHub.config hub)) in
  let client := {| base := hub; transport := t; cleanupHandlers := [] |} in
  if truthy (prop (opt_autoCapture (Config.options (BaseHub.config hub)))) then
    let* _ := modify_world (installs global_handlers) in
    let client := set_cleanupHandlers (cleanupHandlers client ++ [global_handlers])%list client in
    let* _ := Config.debug (BaseHub.config hub) "Global handlers installed" in
    ret client
  else ret client.

Definition getConfig : M NodeClient Config.Config := super BaseHub.getConfig.

(** [destroy()]. *)
Definition destroy : M NodeClient unit :=
  let* c := get_this in
  let* _ := modify_world (removes (concat (cleanupHandlers c))) in
  let* _ := put_this (set_cleanupHandlers [] c) in
  debug "Client destroyed".

End WithStackParser.
End NodeClient.

(* ===================================================================== *)
(** ** The node package (node/src/globals.ts, node/src/index.ts)          *)
(* ===================================================================== *)

Module Node.
Section WithStackParser.

Variable parseStackTrace : option string -> option SourceContext.

(** The state of the module [globals] is its variable [_client]. *)
Abbreviation Module_ := (option NodeClient.NodeClient).

Definition setGlobalClient (client : Module_) : M Module_ unit := put_this client.
Definition getGlobalClient : M Module_ Module_ := get_this.

Definition init (opts : ErrorTrackerOptions) : M Module_ unit :=
  let* client := getGlobalClient in
  match client with
  | Some _ => console_warn "ErrorTracker: Already initialized"
  | None =>
      let* c := NodeClient.new opts in
      setGlobalClient (Some c)
  end.

Definition captureException (error : Unknown) (level : option ErrorLevel) : M Module_ (option string) :=
  let* client := getGlobalClient in
  match client with
  | None =>
      let* _ := console_warn "ErrorTracker: Not initialized. Call init() first." in
      ret None
  | Some c => with_client (NodeClient.captureException parseStackTrace error level) c
  end.

Definition captureMessage (message : string) (level : option ErrorLevel) : M Module_ (option string) :=
  let* client := getGlobalClient in
  match client with
  | None =>
      let* _ := console_warn "ErrorTracker: Not initialized. Call init() first." in
      ret None
  | Some c => with_client (NodeClient.captureMessage message level) c
  end.

Definition optional_call (m : M NodeClient.NodeClient unit) : M Module_ unit :=
  let* client := getGlobalClient in
  match client with
  | Some c => with_client m c
  | None => ret tt
  end.

Definition setUser (user : option UserInfo) : M Module_ unit :=
  optional_call (NodeClient.super (BaseHub.setUser user)).

Definition setTag (key value : string) : M Module_ unit :=
  optional_call (NodeClient.super (BaseHub.setTag key value)).

Definition setTags (tags : gmap string string) : M Module_ unit :=
  optional_call (NodeClient.super (BaseHub.setTags tags)).

Definition setExtra (key : string) (value : JsValue) : M Module_ unit :=
  optional_call (NodeClient.super (BaseHub.setExtra key value)).

Definition setExtras (extras : JsObject) : M Module_ unit :=
  optional_call (NodeClient.super (BaseHub.setExtras extras)).

Definition close : M Module_ unit :=
  let* _ := optional_call NodeClient.destroy in
  setGlobalClient None.

End WithStackParser.
End Node.

(* ===================================================================== *)
(** ** The vocabulary of the statements, and sample data                  *)
(* ===================================================================== *)

Local Open Scope list_scope.

(** An ingestion response [{ success: true, id }]. *)
Definition accepted (event_id : string) : HttpOutcome :=
  NetResponse 200 (BodyJson (PObject (Some (JV (JBool true))) (Some event_id) None)).

(** A browser that is online, with working storage, an empty queue and an
    endpoint that accepts every request. *)
Definition quiet_world : World :=
  {| heap := []; console := []; navigator_onLine := true;
     navigator_userAgent := "Mozilla/5.0";
     clock := "2024-01-01T00:00:00.000Z";
     new_error_stack := None; URL_valid := fun _ => true;
     ls_item := None; ls_getItem_throws := false;
     ls_setItem_throws := fun _ => false; ls_removeItem_throws := false;
     network := fun _ => accepted "evt-1";
     requests := []; listeners := [] |}.

Definition with_network (n : nat -> HttpOutcome) (w : World) : World :=
  {| heap := heap w; console := console w;
     navigator_onLine := navigator_onLine w;
     navigator_userAgent := navigator_userAgent w; clock := clock w;
     new_error_stack := new_error_stack w; URL_valid := URL_valid w;
     ls_item := ls_item w; ls_getItem_throws := ls_getItem_throws w;
     ls_setItem_throws := ls_setItem_throws w;
     ls_removeItem_throws := ls_removeItem_throws w; network := n;
     requests := requests w; listeners := listeners w |}.

Definition with_onLine (b : bool) (w : World) : World :=
  {| heap := heap w; console := console w;
     navigator_onLine := b;
     navigator_userAgent := navigator_userAgent w; clock := clock w;
     new_error_stack := new_error_stack w; URL_valid := URL_valid w;
     ls_item := ls_item w; ls_getItem_throws := ls_getItem_throws w;
     ls_setItem_throws := ls_setItem_throws w;
     ls_removeItem_throws := ls_removeItem_throws w; network := network w;
     requests := requests w; listeners := listeners w |}.

(** [{ dsn: 'https://x', appId: 'a', commitHash: 'c1', environment: 'Production' }]. *)
Definition sample_options : ErrorTrackerOptions :=
  {| opt_dsn := Some (jstr "https://x"); opt_appId := Some (jstr "a");
     opt_commitHash := Some (jstr "c1");
     opt_environment := Some (jstr "Production");
     opt_apiKey := None; opt_autoCapture := None; opt_debug := None;
     opt_beforeSend := None; opt_tags := None; opt_user := None |}.

Definition with_beforeSend (hook : BeforeSend) (o : ErrorTrackerOptions) : ErrorTrackerOptions :=
  {| opt_dsn := opt_dsn o; opt_appId := opt_appId o;
     opt_commitHash := opt_commitHash o; opt_environment := opt_environment o;
     opt_apiKey := opt_apiKey o; opt_autoCapture := opt_autoCapture o;
     opt_debug := opt_debug o; opt_beforeSend := Some hook;
     opt_tags := opt_tags o; opt_user := opt_user o |}.

(** The same literal without its [environment] key. *)
Definition options_without_environment : ErrorTrackerOptions :=
  {| opt_dsn := Some (jstr "https://x"); opt_appId := Some (jstr "a");
     opt_commitHash := Some (jstr "c1");
     opt_environment := None;
     opt_apiKey := None; opt_autoCapture := None; opt_debug := None;
     opt_beforeSend := None; opt_tags := None; opt_user := None |}.

(** Running a computation from a receiver and a world. *)
Definition run {C A} (m : M C A) (c : C) (w : World) : result A * St C :=
  m (mkSt c w).

(** What the four checks of [validate] ask of an options literal: [dsn],
    [appId] and [commitHash] hold a truthy value (for a string: a non-empty
    one), and [environment] is either missing from the literal, in which case
    the default ['Development'] fills it in, or one of the three names. *)
Definition acceptable (opts : ErrorTrackerOptions) : Prop :=
  truthy (prop (opt_dsn opts)) = true ∧
  truthy (prop (opt_appId opts)) = true ∧
  truthy (prop (opt_commitHash opts)) = true ∧
  (opt_environment opts = None ∨
   ∃ name, opt_environment opts = Some (jstr name) ∧
           name ∈ Config.VALID_ENVIRONMENTS).

Definition configuration_errors : list string :=
  ["ErrorTracker: dsn is required";
   "ErrorTracker: appId is required";
   "ErrorTracker: commitHash is required";
   "ErrorTracker: environment must be one of: Production, Staging, Development"].

Definition not_initialized_warning : ConsoleLine :=
  Warn "ErrorTracker: Not initialized. Call init() first.".

(** The world after one more console line, nothing else touched. *)
Definition warned (w : World) : World :=
  with_console (console w ++ [not_initialized_warning]) w.

(** Two worlds that differ in their console output at most. *)
Definition same_but_console (w w' : World) : Prop :=
  with_console [] w = with_console [] w'.

(** The maps of the scope of a hub, read through their references. *)
Definition tags_of (s : St BaseHub.BaseHub) : JsObject :=
  deref (heap (world s)) (scope_tags (BaseHub.scope (this s))).

Definition extras_of (s : St BaseHub.BaseHub) : JsObject :=
  deref (heap (world s)) (scope_extras (BaseHub.scope (this s))).

(** The maps an event carries, read through its references in a heap. *)
Definition event_tags (h : Heap) (e : ErrorEvent) : option JsObject :=
  deref h <$> ev_tags e.

Definition event_metadata (h : Heap) (e : ErrorEvent) : option JsObject :=
  deref h <$> ev_metadata e.

(** The references of the scope point into the heap. *)
Definition hub_wf (s : St BaseHub.BaseHub) : Prop :=
  (scope_tags (BaseHub.scope (this s)) < length (heap (world s)))%nat ∧
  (scope_extras (BaseHub.scope (this s)) < length (heap (world s)))%nat.

(** No key of a map holds [undefined]. *)
Definition no_undefined (o : JsObject) : Prop :=
  ∀ k, o !! k ≠ Some JUndefined.

(** The scope mutators, as data. *)
Inductive ScopeOp : Type :=
  | OpSetUser (user : option UserInfo)
  | OpSetTag (key value : string)
  | OpSetTags (tags : gmap string string)
  | OpSetExtra (key : string) (value : JsValue)
  | OpSetExtras (extras : JsObject).

Definition apply_op (op : ScopeOp) : M BaseHub.BaseHub unit :=
  match op with
  | OpSetUser user => BaseHub.setUser user
  | OpSetTag key value => BaseHub.setTag key value
  | OpSetTags tags => BaseHub.setTags tags
  | OpSetExtra key value => BaseHub.setExtra key value
  | OpSetExtras extras => BaseHub.setExtras extras
  end.

Fixpoint apply_ops (ops : list ScopeOp) : M BaseHub.BaseHub unit :=
  match ops with
  | [] => ret tt
  | op :: rest => let* _ := apply_op op in apply_ops rest
  end.

(** What a host can do to a hub between two captures: call a scope mutator,
    or change the configuration through [getConfig().update(updates)]. *)
Inductive HubOp : Type :=
  | HScope (op : ScopeOp)
  | HUpdate (updates : ErrorTrackerOptions).

(** [hub.getConfig().update(updates)]: [getConfig] hands out the [Config]
    object of the hub itself, and [update] replaces its options without
    validating them. *)
Definition getConfig_update (updates : ErrorTrackerOptions) : M BaseHub.BaseHub unit :=
  let* c := BaseHub.getConfig in
  let* hub := get_this in
  put_this (BaseHub.set_config (Config.update updates c) hub).

Definition apply_hub_op (op : HubOp) : M BaseHub.BaseHub unit :=
  match op with
  | HScope o => apply_op o
  | HUpdate updates => getConfig_update updates
  end.

Fixpoint apply_hub_ops (ops : list HubOp) : M BaseHub.BaseHub unit :=
  match ops with
  | [] => ret tt
  | op :: rest => let* _ := apply_hub_op op in apply_hub_ops rest
  end.

(** The three options that an event copies hold what validation asks of
    them. *)
Definition identified (c : Config.Config) : Prop :=
  truthy (prop (opt_appId (Config.options c))) = true ∧
  truthy (prop (opt_commitHash (Config.options c))) = true ∧
  ∃ name, prop (opt_environment (Config.options c)) = jstr name ∧
          name ∈ Config.VALID_ENVIRONMENTS.

(** An operation that is not an update giving [appId], [commitHash] or
    [environment] a value that validation would refuse. *)
Definition keeps_identified (op : HubOp) : Prop :=
  match op with
  | HScope _ => True
  | HUpdate updates =>
      (∀ v, opt_appId updates = Some v → truthy v = true) ∧
      (∀ v, opt_commitHash updates = Some v → truthy v = true) ∧
      (∀ v, opt_environment updates = Some v →
            ∃ name, v = jstr name ∧ name ∈ Config.VALID_ENVIRONMENTS)
  end.

(** The updates [{ debug: true }] and [{ appId: undefined }]. *)
Definition debug_on : ErrorTrackerOptions :=
  {| opt_dsn := None; opt_appId := None; opt_commitHash := None;
     opt_environment := None; opt_apiKey := None; opt_autoCapture := None;
     opt_debug := Some (JV (JBool true)); opt_beforeSend := None;
     opt_tags := None; opt_user := None |}.

Definition appId_undefined : ErrorTrackerOptions :=
  {| opt_dsn := None; opt_appId := Some JUndefined; opt_commitHash := None;
     opt_environment := None; opt_apiKey := None; opt_autoCapture := None;
     opt_debug := None; opt_beforeSend := None;
     opt_tags := None; opt_user := None |}.

(** The heap once [buildEvent] has copied the non-empty maps of the scope. *)
Definition heap_with_copy (h : Heap) (o : JsObject) : Heap :=
  if (0 <? keys_length o)%nat then extend h o else h.

Definition copy_ref (h : Heap) (o : JsObject) : option loc :=
  if (0 <? keys_length o)%nat then Some (fresh h) else None.

(** A reference that no scope mutator writes through: it points into the
    heap and is neither of the two references the scope holds. *)
Definition detached (l : loc) (s : St BaseHub.BaseHub) : Prop :=
  (l < length (heap (world s)))%nat ∧
  l ≠ scope_tags (BaseHub.scope (this s)) ∧
  l ≠ scope_extras (BaseHub.scope (this s)).

(** The hub that [new BaseHub(sample_options)] builds in the quiet world. *)
Definition sample_hub : BaseHub.BaseHub :=
  {| BaseHub.config :=
       {| Config.options := spread_options Config.DEFAULT_OPTIONS sample_options |};
     BaseHub.scope :=
       {| scope_tags := 0%nat; scope_user := None; scope_extras := 1%nat |};
     BaseHub.initialized := true |}.

Definition sample_hub_world : World := with_heap [∅; ∅] quiet_world.

(** The sample hub after [setTag('version', '1.0.0')]. *)
Definition tagged_world : World :=
  with_heap [{["version" := jstr "1.0.0"]}; ∅] quiet_world.

Definition success_without_id : TransportResponse :=
  {| success := true; id := None; statusCode := None; error := None |}.

(** An endpoint that answers 200 with a body that is not JSON. *)
Definition plain_text_world : World :=
  with_network (fun _ => NetResponse 200 (BodyText "OK")) quiet_world.

Definition sample_event : ErrorEvent :=
  {| ev_appId := jstr "a"; ev_commitHash := jstr "c1";
     ev_environment := jstr "Production"; ev_level := LWarning;
     ev_message := "hello"; ev_stackTrace := None; ev_metadata := None;
     ev_sourceContext := None; ev_userAgent := Some "Mozilla/5.0";
     ev_timestamp := Some "2024-01-01T00:00:00.000Z"; ev_tags := None;
     ev_user := None |}.

Definition sample_transport : BaseTransport.BaseTransport :=
  {| BaseTransport.endpoint := "https://x/api/ingest-error" |}.

(** The request that a transport issues for an event. *)
Definition request_for (c : Config.Config) (t : BaseTransport.BaseTransport)
    (h : Heap) (event : ErrorEvent) : Request :=
  {| req_url := BaseTransport.endpoint t;
     req_headers := BaseTransport.buildHeaders c;
     req_body := BaseTransport.buildPayload h event |}.

(** The browser client that [new BrowserClient(sample_options)] builds in the
    quiet world, and the world it leaves. *)
Definition sample_client : BrowserClient.BrowserClient :=
  {| BrowserClient.base := sample_hub;
     BrowserClient.transport := sample_transport;
     BrowserClient.cleanupHandlers :=
       [["onerror"; "unhandledrejection"]; ["online"]; ["visibilitychange"];
        ["beforeunload"]];
     BrowserClient.isProcessingQueue := false |}.

Definition sample_client_world : World :=
  with_listeners
    ["onerror"; "unhandledrejection"; "online"; "visibilitychange"; "beforeunload"]
    sample_hub_world.

(** Three queued events. *)
Definition queued (message : string) : JsonEvent :=
  {| je_appId := jstr "a"; je_commitHash := jstr "c1";
     je_environment := jstr "Production"; je_level := LError;
     je_message := message; je_stackTrace := None; je_metadata := None;
     je_sourceContext := None; je_userAgent := Some "Mozilla/5.0";
     je_timestamp := Some "2024-01-01T00:00:00.000Z"; je_tags := None;
     je_user := None |}.

(** An endpoint that accepts every request but the second, which it answers
    with 503. *)
Definition second_fails (n : nat) : HttpOutcome :=
  match n with
  | 1%nat => NetResponse 503 (BodyText "Service Unavailable")
  | _ => accepted "evt"
  end.

Definition three_queued_world : World :=
  with_ls_item (Some [queued "first"; queued "second"; queued "third"])
    (with_network second_fails sample_client_world).

(** Two worlds that differ in their heap and in the stored queue at most. *)
Definition same_but_queue (w w' : World) : Prop :=
  with_heap [] (with_ls_item None w) = with_heap [] (with_ls_item None w').

(** The storage never throws. *)
Definition reliable_storage (w : World) : Prop :=
  ls_getItem_throws w = false ∧ ∀ data, ls_setItem_throws w data = false.

(** The stored queue, an absent entry being an empty queue. *)
Definition stored_queue (w : World) : list JsonEvent := default [] (ls_item w).

(** The map references of an event point into the heap. *)
Definition event_in_heap (h : Heap) (e : ErrorEvent) : Prop :=
  (∀ l, ev_tags e = Some l → (l < length h)%nat) ∧
  (∀ l, ev_metadata e = Some l → (l < length h)%nat).

(** [events.shift()] when the queue is full. *)
Definition evict (data : list JsonEvent) : list JsonEvent :=
  if (MAX_QUEUE_SIZE <=? length data)%nat then tail data else data.

(** Enqueueing a list of events, one call after the other. *)
Fixpoint enqueue_all (events : list ErrorEvent) : M BrowserClient.BrowserClient unit :=
  match events with
  | [] => ret tt
  | e :: rest => let* _ := BrowserClient.enqueue e in enqueue_all rest
  end.

(** The queue after the events [new] were pushed onto [q] one by one. *)
Definition fifo (q new : list JsonEvent) : list JsonEvent :=
  fold_left (fun q j => evict q ++ [j]) new q.

(** The [n]-th of a series of events that carry no maps. *)
Definition numbered_event (n : nat) : ErrorEvent :=
  {| ev_appId := jstr "a"; ev_commitHash := jstr "c1";
     ev_environment := jstr "Production"; ev_level := LError;
     ev_message := pretty n; ev_stackTrace := None; ev_metadata := None;
     ev_sourceContext := None; ev_userAgent := None;
     ev_timestamp := None; ev_tags := None; ev_user := None |}.

Definition numbered_events (n : nat) : list ErrorEvent :=
  map numbered_event (seq 0 n).

(** Two worlds that differ in their heap and console output at most: the
    requests issued and the stored queue are the same. *)
Definition same_but_heap_console (w w' : World) : Prop :=
  with_heap [] (with_console [] w) = with_heap [] (with_console [] w').

(** A hook that drops every event, one that fails, and one that scrubs the
    message of its argument before it fails. *)
Definition dropping_hook : BeforeSend :=
  fun event h => {| hr_event := event; hr_heap := h; hr_outcome := HookReturns None |}.

Definition failing_hook : BeforeSend :=
  fun event h =>
    {| hr_event := event; hr_heap := h; hr_outcome := HookThrows "hook failed" |}.

Definition scrubbing_hook : BeforeSend :=
  fun event h =>
    {| hr_event :=
         {| ev_appId := ev_appId event; ev_commitHash := ev_commitHash event;
            ev_environment := ev_environment event; ev_level := ev_level event;
            ev_message := "[scrubbed]"; ev_stackTrace := ev_stackTrace event;
            ev_metadata := ev_metadata event;
            ev_sourceContext := ev_sourceContext event;
            ev_userAgent := ev_userAgent event;
            ev_timestamp := ev_timestamp event; ev_tags := ev_tags event;
            ev_user := ev_user event |};
       hr_heap := h;
       hr_outcome := HookThrows "hook failed" |}.

(** The sample clients with a hook configured. *)
Definition hub_with_hook (hook : BeforeSend) : BaseHub.BaseHub :=
  {| BaseHub.config :=
       {| Config.options :=
            spread_options Config.DEFAULT_OPTIONS
              (with_beforeSend hook sample_options) |};
     BaseHub.scope :=
       {| scope_tags := 0%nat; scope_user := None; scope_extras := 1%nat |};
     BaseHub.initialized := true |}.

Definition browser_client_with_hook (hook : BeforeSend) : BrowserClient.BrowserClient :=
  BrowserClient.set_base (hub_with_hook hook) sample_client.

Definition node_client_with_hook (hook : BeforeSend) : NodeClient.NodeClient :=
  {| NodeClient.base := hub_with_hook hook;
     NodeClient.transport :=
       {| NodeTransport.base := sample_transport; NodeTransport.isHttps := true |};
     NodeClient.cleanupHandlers := [NodeClient.global_handlers] |}.

(** *** Further vocabulary: outcomes, sample data, the beacon *)

(** The outcome that the next request will get. *)
Definition next_outcome (w : World) : HttpOutcome :=
  network w (length (requests w)).

(** An answer that ingestion counts as accepted: a 2xx status and a JSON
    object whose [success] is truthy. *)
Definition accepts (o : HttpOutcome) (event_id : option string) : Prop :=
  ∃ status v message,
    o = NetResponse status (BodyJson (PObject (Some v) event_id message)) ∧
    200 ≤ status < 300 ∧ truthy v = true.

(** An endpoint that answers every request with 503. *)
Definition unavailable_world : World :=
  with_network (fun _ => NetResponse 503 (BodyText "Service Unavailable"))
    sample_client_world.

Definition sample_node_transport : NodeTransport.NodeTransport :=
  {| NodeTransport.base := sample_transport; NodeTransport.isHttps := true |}.

(** The extras that an event carries, none when it has no metadata. *)
Definition metadata_or_empty (h : Heap) (e : ErrorEvent) : JsObject :=
  default ∅ (event_metadata h e).

(** The last character of a string, if any. *)
Fixpoint last_char (s : string) : option ascii :=
  match s with
  | EmptyString => None
  | String ch EmptyString => Some ch
  | String _ rest => last_char rest
  end.

(** Options whose [tags] are the object at reference 0. *)
Definition options_with_tags : ErrorTrackerOptions :=
  {| opt_dsn := Some (jstr "https://x"); opt_appId := Some (jstr "a");
     opt_commitHash := Some (jstr "c1");
     opt_environment := Some (jstr "Production");
     opt_apiKey := None; opt_autoCapture := None; opt_debug := None;
     opt_beforeSend := None; opt_tags := Some 0%nat; opt_user := None |}.

(** A world in which the host holds one tags object. *)
Definition host_tags_world : World :=
  with_heap [{["version" := jstr "1.0.0"]}] quiet_world.

(** The configuration does not ask for debug output. *)
Definition quiet (c : Config.Config) : Prop :=
  truthy (prop (opt_debug (Config.options c))) = false.

(** A hook that returns a new event, the message redacted. *)
Definition redact (event : ErrorEvent) : ErrorEvent :=
  {| ev_appId := ev_appId event; ev_commitHash := ev_commitHash event;
     ev_environment := ev_environment event; ev_level := ev_level event;
     ev_message := "[redacted]"; ev_stackTrace := ev_stackTrace event;
     ev_metadata := ev_metadata event;
     ev_sourceContext := ev_sourceContext event;
     ev_userAgent := ev_userAgent event;
     ev_timestamp := ev_timestamp event; ev_tags := ev_tags event;
     ev_user := ev_user event |}.

Definition redacting_hook : BeforeSend :=
  fun event h =>
    {| hr_event := event; hr_heap := h;
       hr_outcome := HookReturns (Some (redact event)) |}.

(** A browser that is offline. *)
Definition offline_world : World := with_onLine false sample_client_world.

(** An options literal without [dsn]. *)
Definition options_without_dsn : ErrorTrackerOptions :=
  {| opt_dsn := None; opt_appId := Some (jstr "a");
     opt_commitHash := Some (jstr "c1");
     opt_environment := Some (jstr "Production");
     opt_apiKey := None; opt_autoCapture := None; opt_debug := None;
     opt_beforeSend := None; opt_tags := None; opt_user := None |}.

Definition already_initialized_warning : ConsoleLine :=
  Warn "ErrorTracker: Already initialized".

(** The messages of the requests issued, oldest first. *)
Definition request_messages (w : World) : list string :=
  map (fun q => p_message (req_body q)) (requests w).

(** The answer to the [i]-th request from now is one that ingestion counts
    as accepted. *)
Definition accepted_at (w : World) (i : nat) : Prop :=
  ∃ event_id, accepts (network w (length (requests w) + i)) event_id.

(** A storage on which every call throws, as in a browser that denies access
    to [localStorage]. *)
Definition broken_storage (w : World) : Prop :=
  ls_getItem_throws w = true ∧ (∀ data, ls_setItem_throws w data = true) ∧
  ls_removeItem_throws w = true.

Definition broken_storage_world : World :=
  {| heap := heap sample_client_world; console := [];
     navigator_onLine := false;
     navigator_userAgent := "Mozilla/5.0";
     clock := "2024-01-01T00:00:00.000Z";
     new_error_stack := None; URL_valid := fun _ => true;
     ls_item := None; ls_getItem_throws := true;
     ls_setItem_throws := fun _ => true; ls_removeItem_throws := true;
     network := fun _ => accepted "evt-1";
     requests := []; listeners := listeners sample_client_world |}.

(** The request that goes out for a beacon, and whether the user agent takes
    the beacon for an event. *)
Definition beacon_request (t : BaseTransport.BaseTransport) (h : Heap)
    (event : ErrorEvent) : Request :=
  {| req_url := BaseTransport.endpoint t;
     req_headers := [("Content-Type", "application/json")];
     req_body := BaseTransport.buildPayload h event |}.

Definition beacon_queued (sendBeacon : string → Payload → result bool)
    (t : BaseTransport.BaseTransport) (h : Heap) (event : ErrorEvent) : bool :=
  match sendBeacon (BaseTransport.endpoint t) (BaseTransport.buildPayload h event) with
  | Ok true => true
  | _ => false
  end.

(* ===================================================================== *)
(** ** Configuration                                                      *)
(* ===================================================================== *)

Lemma truthy_string (s : string) : truthy (jstr s) = true ↔ s ≠ EmptyString.
Proof.
  unfold jstr; simpl. destruct (String.eqb_spec s EmptyString); simpl; split;
    congruence.
Qed.

Lemma includes_spec (v : JsValue) :
  Config.includes Config.VALID_ENVIRONMENTS v = true ↔
  ∃ name, v = jstr name ∧ name ∈ Config.VALID_ENVIRONMENTS.
Proof.
  unfold Config.includes, Config.VALID_ENVIRONMENTS. rewrite existsb_exists.
  split.
  - intros (name & Hin & Heq). apply bool_decide_eq_true in Heq.
    exists name. split; [done | by apply list_elem_of_In].
  - intros (name & -> & Hin). exists name. split.
    + by apply list_elem_of_In.
    + by apply bool_decide_eq_true.
Qed.

Lemma validate_after_defaults (opts : ErrorTrackerOptions) :
  Config.validate {| Config.options := spread_options Config.DEFAULT_OPTIONS opts |} = Ok tt
  ↔ acceptable opts.
Proof.
  unfold Config.validate, acceptable.
  cbn [Config.options spread_options opt_dsn opt_appId opt_commitHash
       opt_environment Config.DEFAULT_OPTIONS over].
  replace (over (opt_dsn opts) None) with (opt_dsn opts)
    by (by destruct (opt_dsn opts)).
  replace (over (opt_appId opts) None) with (opt_appId opts)
    by (by destruct (opt_appId opts)).
  replace (over (opt_commitHash opts) None) with (opt_commitHash opts)
    by (by destruct (opt_commitHash opts)).
  destruct (truthy (prop (opt_dsn opts))); cbn [negb];
    [| split; [done | by intros (? & _)]].
  destruct (truthy (prop (opt_appId opts))); cbn [negb];
    [| split; [done | by intros (_ & ? & _)]].
  destruct (truthy (prop (opt_commitHash opts))); cbn [negb];
    [| split; [done | by intros (_ & _ & ? & _)]].
  destruct (opt_environment opts) as [v |]; cbn [over prop default from_option Datatypes.id].
  - destruct (Config.includes Config.VALID_ENVIRONMENTS v) eqn:Hinc; cbn [negb].
    + apply includes_spec in Hinc as (name & -> & Hin).
      split; [| done]. intros _. repeat split. right. eauto.
    + split; [done |]. intros (_ & _ & _ & [? | (name & [= ->] & Hin)]); [done |].
      assert (Config.includes Config.VALID_ENVIRONMENTS (jstr name) = true) as H
        by (apply includes_spec; eauto).
      congruence.
  - split; [| done]. intros _. repeat split. by left.
Qed.

Lemma validate_throws_configuration_error (c : Config.Config) (message : string) :
  Config.validate c = Throw message → message ∈ configuration_errors.
Proof.
  unfold Config.validate, configuration_errors.
  repeat (match goal with |- context [if ?b then _ else _] => destruct b end);
    intros [= <-]; set_solver.
Qed.

Lemma Config_new_cases (opts : ErrorTrackerOptions) :
  match Config.new opts with
  | Ok c =>
      acceptable opts ∧
      c = {| Config.options := spread_options Config.DEFAULT_OPTIONS opts |}
  | Throw message => ¬ acceptable opts ∧ message ∈ configuration_errors
  end.
Proof.
  pose proof (validate_after_defaults opts) as Hv.
  pose proof (validate_throws_configuration_error
                {| Config.options := spread_options Config.DEFAULT_OPTIONS opts |})
    as Herr.
  unfold Config.new.
  destruct (Config.validate _) as [[] | message] eqn:Hval.
  - split; [by apply Hv | done].
  - split; [| by apply Herr]. intros Ha. apply Hv in Ha. congruence.
Qed.

(** C3, amended.  [new Config(options)] succeeds exactly when [dsn], [appId]
    and [commitHash] are present and non-empty and [environment] is either
    left out of the options (the default ['Development'] then applies) or one
    of Production, Staging and Development; in every other case it throws one
    of the four configuration errors. *)
Theorem config_construction (opts : ErrorTrackerOptions) :
  (acceptable opts ↔
   Config.new opts =
     Ok {| Config.options := spread_options Config.DEFAULT_OPTIONS opts |}) ∧
  (¬ acceptable opts ↔
   ∃ message, Config.new opts = Throw message ∧ message ∈ configuration_errors).
Proof.
  pose proof (Config_new_cases opts) as H.
  destruct (Config.new opts) as [c | message].
  - destruct H as [Ha ->]. split; split.
    + done.
    + done.
    + intros Hn. by destruct Hn.
    + by intros (m & [=] & _).
  - destruct H as [Hn Hin]. split; split.
    + intros Ha. by destruct Hn.
    + by intros [=].
    + intros _. by exists message.
    + done.
Qed.

(** C3, as stated, fails: an options literal without its [environment] key
    passes validation, because [DEFAULT_OPTIONS] supplies ['Development']. *)
Lemma missing_environment_is_accepted :
  opt_environment options_without_environment = None ∧
  (∃ c, Config.new options_without_environment = Ok c ∧
        opt_environment (Config.options c) = Some (jstr "Development")) ∧
  ¬ (∃ message, Config.new options_without_environment = Throw message).
Proof.
  split; [reflexivity |]. split.
  - eexists. split; reflexivity.
  - intros (message & H). vm_compute in H. discriminate.
Qed.

(** The checks on the other three fields, and on an [environment] that is
    given, are as C3 words them. *)
Lemma required_fields_fail_fast (opts : ErrorTrackerOptions) :
  (opt_dsn opts = None ∨ opt_dsn opts = Some (jstr EmptyString) ∨
   opt_dsn opts = Some JUndefined ∨
   opt_appId opts = None ∨ opt_appId opts = Some (jstr EmptyString) ∨
   opt_appId opts = Some JUndefined ∨
   opt_commitHash opts = None ∨ opt_commitHash opts = Some (jstr EmptyString) ∨
   opt_commitHash opts = Some JUndefined ∨
   (∃ v, opt_environment opts = Some v ∧
         Config.includes Config.VALID_ENVIRONMENTS v = false)) →
  ∃ message, Config.new opts = Throw message ∧ message ∈ configuration_errors.
Proof.
  intros H. pose proof (Config_new_cases opts) as Hcases.
  destruct (Config.new opts) as [c | message];
    [| exists message; split; [done | apply Hcases]].
  exfalso. destruct Hcases as [(Hd & Ha & Hc & He) _].
  destruct H as [H|[H|[H|[H|[H|[H|[H|[H|[H|(v & H & Hinc)]]]]]]]]];
    rewrite H in *; try discriminate.
  destruct He as [? | (name & [= ->] & Hin)]; [done |].
  assert (Config.includes Config.VALID_ENVIRONMENTS (jstr name) = true)
    by (apply includes_spec; eauto).
  congruence.
Qed.

Lemma valid_options_construct (opts : ErrorTrackerOptions) (dsn appId commitHash environment : string) :
  opt_dsn opts = Some (jstr dsn) → dsn ≠ EmptyString →
  opt_appId opts = Some (jstr appId) → appId ≠ EmptyString →
  opt_commitHash opts = Some (jstr commitHash) → commitHash ≠ EmptyString →
  opt_environment opts = Some (jstr environment) →
  environment ∈ Config.VALID_ENVIRONMENTS →
  ∃ c, Config.new opts = Ok c.
Proof.
  intros Hd Hd' Ha Ha' Hc Hc' He He'.
  pose proof (Config_new_cases opts) as Hcases.
  destruct (Config.new opts) as [c | message]; [by exists c |].
  exfalso. apply Hcases. unfold acceptable.
  rewrite Hd, Ha, Hc, He. cbn [prop default from_option Datatypes.id].
  rewrite !truthy_string. repeat split; try done. right. eauto.
Qed.

(* ===================================================================== *)
(** ** The package functions without a client                             *)
(* ===================================================================== *)

Lemma warned_frame (w : World) :
  heap (warned w) = heap w ∧ requests (warned w) = requests w ∧
  ls_item (warned w) = ls_item w ∧ listeners (warned w) = listeners w.
Proof. done. Qed.

Lemma same_but_console_fields (w w' : World) :
  same_but_console w w' →
  heap w = heap w' ∧ requests w = requests w' ∧ ls_item w = ls_item w' ∧
  network w = network w' ∧ navigator_onLine w = navigator_onLine w' ∧
  ls_getItem_throws w = ls_getItem_throws w' ∧
  ls_setItem_throws w = ls_setItem_throws w' ∧
  listeners w = listeners w' ∧ clock w = clock w' ∧
  navigator_userAgent w = navigator_userAgent w' ∧
  URL_valid w = URL_valid w'.
Proof.
  unfold same_but_console. intros H.
  repeat split.
  - by apply (f_equal heap) in H.
  - by apply (f_equal requests) in H.
  - by apply (f_equal ls_item) in H.
  - by apply (f_equal network) in H.
  - by apply (f_equal navigator_onLine) in H.
  - by apply (f_equal ls_getItem_throws) in H.
  - by apply (f_equal ls_setItem_throws) in H.
  - by apply (f_equal listeners) in H.
  - by apply (f_equal clock) in H.
  - by apply (f_equal navigator_userAgent) in H.
  - by apply (f_equal URL_valid) in H.
Qed.

Lemma with_console_same (c : list ConsoleLine) (w : World) :
  same_but_console w (with_console c w).
Proof. done. Qed.

(** [debug] never throws and writes to the console only. *)
Lemma Config_debug_ok {C} (c : Config.Config) (message : string) (s : St C) :
  ∃ w', Config.debug c message s = (Ok tt, mkSt (this s) w') ∧
        same_but_console (world s) w'.
Proof.
  unfold Config.debug. destruct (truthy _).
  - eexists. split; [reflexivity |]. apply with_console_same.
  - exists (world s). by destruct s.
Qed.

Lemma BrowserClient_destroy_ok (s : St BrowserClient.BrowserClient) :
  ∃ c' w', BrowserClient.destroy s = (Ok tt, mkSt c' w').
Proof.
  unfold BrowserClient.destroy, BrowserClient.debug, BrowserClient.super,
    BaseHub.debug, BaseHub.this_config, zoom, bind, get_this, put_this,
    modify_world, ret.
  cbn [this world].
  match goal with
  | |- context [Config.debug ?c ?m ?s] =>
      destruct (Config_debug_ok c m s) as (w' & -> & _)
  end.
  eauto.
Qed.

Lemma NodeClient_destroy_ok (s : St NodeClient.NodeClient) :
  ∃ c' w', NodeClient.destroy s = (Ok tt, mkSt c' w').
Proof.
  unfold NodeClient.destroy, NodeClient.debug, NodeClient.super,
    BaseHub.debug, BaseHub.this_config, zoom, bind, get_this, put_this,
    modify_world, ret.
  cbn [this world].
  match goal with
  | |- context [Config.debug ?c ?m ?s] =>
      destruct (Config_debug_ok c m s) as (w' & -> & _)
  end.
  eauto.
Qed.

Lemma Browser_close_resets (s : St (option BrowserClient.BrowserClient)) :
  ∃ w', Browser.close s = (Ok tt, mkSt None w').
Proof.
  destruct s as [[c |] w].
  - unfold Browser.close, Browser.optional_call, with_client, bind, get_this,
      put_this. cbn [this world].
    destruct (BrowserClient_destroy_ok (mkSt c w)) as (c' & w' & ->).
    cbn [this world]. eauto.
  - by exists w.
Qed.

Lemma Node_close_resets (s : St (option NodeClient.NodeClient)) :
  ∃ w', Node.close s = (Ok tt, mkSt None w').
Proof.
  destruct s as [[c |] w].
  - unfold Node.close, Node.optional_call, Node.getGlobalClient,
      Node.setGlobalClient, with_client, bind, get_this, put_this.
    cbn [this world].
    destruct (NodeClient_destroy_ok (mkSt c w)) as (c' & w' & ->).
    cbn [this world]. eauto.
  - by exists w.
Qed.

(** C10.  With no client (the module variable is null, as it is before [init]
    and as [close] leaves it), the package-level [captureException] and
    [captureMessage] of both packages resolve to null and change nothing but
    the console, which gets the warning: no object is allocated for an event
    and no request is issued. *)
Theorem capture_without_client :
  (∀ parse w error level,
     Browser.captureException parse error level (mkSt None w)
     = (Ok None, mkSt None (warned w))) ∧
  (∀ w message level,
     Browser.captureMessage message level (mkSt None w)
     = (Ok None, mkSt None (warned w))) ∧
  (∀ parse w error level,
     Node.captureException parse error level (mkSt None w)
     = (Ok None, mkSt None (warned w))) ∧
  (∀ w message level,
     Node.captureMessage message level (mkSt None w)
     = (Ok None, mkSt None (warned w))) ∧
  (∀ parse s error level, ∃ w,
     Browser.close s = (Ok tt, mkSt None w) ∧
     Browser.captureException parse error level (snd (Browser.close s))
     = (Ok None, mkSt None (warned w))) ∧
  (∀ parse s error level, ∃ w,
     Node.close s = (Ok tt, mkSt None w) ∧
     Node.captureException parse error level (snd (Node.close s))
     = (Ok None, mkSt None (warned w))).
Proof.
  repeat split; try reflexivity.
  - intros parse s error level.
    destruct (Browser_close_resets s) as [w ->]. by exists w.
  - intros parse s error level.
    destruct (Node_close_resets s) as [w ->]. by exists w.
Qed.

(* ===================================================================== *)
(** ** The scope and the events built from it                             *)
(* ===================================================================== *)

Section HeapFacts.

Implicit Types (h : Heap) (l : loc) (o : JsObject).

Lemma assign_other (key : string) (value : JsValue) o :
  key ≠ "__proto__" → assign key value o = <[key := value]> o.
Proof. intros H. unfold assign. by rewrite (bool_decide_eq_false_2 _ H). Qed.

Lemma assign_cases (key : string) (value : JsValue) o :
  assign key value o = o ∨ assign key value o = <[key := value]> o.
Proof. unfold assign. destruct (_ && _); [by left | by right]. Qed.

Lemma length_extend h o : length (extend h o) = S (length h).
Proof. unfold extend. rewrite length_app. simpl. lia. Qed.

Lemma length_store l o h : length (store l o h) = length h.
Proof. apply length_insert. Qed.

Lemma deref_extend_old h o l : (l < length h)%nat → deref (extend h o) l = deref h l.
Proof. intros Hl. unfold deref, extend. by rewrite lookup_app_l. Qed.

Lemma deref_extend_fresh h o : deref (extend h o) (fresh h) = o.
Proof.
  unfold deref, extend, fresh.
  rewrite lookup_app_r by lia. by rewrite Nat.sub_diag.
Qed.

Lemma deref_store_other l l' o h : l ≠ l' → deref (store l' o h) l = deref h l.
Proof. intros Hne. unfold deref, store. by rewrite list_lookup_insert_ne. Qed.

Lemma deref_store_same l o h : (l < length h)%nat → deref (store l o h) l = o.
Proof. intros Hl. unfold deref, store. by rewrite list_lookup_insert_eq. Qed.

Lemma spread_empty o : spread ∅ o = o.
Proof. unfold spread. apply (right_id_L ∅ (∪)). Qed.

Lemma keys_length_empty o : (0 <? keys_length o)%nat = false ↔ o = ∅.
Proof.
  unfold keys_length. rewrite Nat.ltb_ge, <- map_size_empty_iff. lia.
Qed.

End HeapFacts.

Section ScopeMutators.

Implicit Types (hub : BaseHub.BaseHub) (w : World).

Lemma setTag_run key value hub w :
  BaseHub.setTag key value (mkSt hub w) =
  (Ok tt,
   mkSt hub (with_heap
               (store (scope_tags (BaseHub.scope hub))
                  (assign key (jstr value) (deref (heap w) (scope_tags (BaseHub.scope hub))))
                  (heap w)) w)).
Proof. by destruct hub. Qed.

Lemma setTags_run tags hub w :
  BaseHub.setTags tags (mkSt hub w) =
  (Ok tt,
   mkSt (BaseHub.set_scope
           {| scope_tags := fresh (heap w);
              scope_user := scope_user (BaseHub.scope hub);
              scope_extras := scope_extras (BaseHub.scope hub) |} hub)
        (with_heap
           (extend (heap w)
              (spread (deref (heap w) (scope_tags (BaseHub.scope hub))) (jstr <$> tags)))
           w)).
Proof. by destruct hub. Qed.

Lemma setExtra_run key value hub w :
  BaseHub.setExtra key value (mkSt hub w) =
  (Ok tt,
   mkSt hub (with_heap
               (store (scope_extras (BaseHub.scope hub))
                  (if bool_decide (value = JUndefined)
                   then delete key (deref (heap w) (scope_extras (BaseHub.scope hub)))
                   else assign key value (deref (heap w) (scope_extras (BaseHub.scope hub))))
                  (heap w)) w)).
Proof.
  destruct hub. unfold BaseHub.setExtra, bind. cbn.
  by destruct (bool_decide (value = JUndefined)).
Qed.

Lemma setExtras_run extras hub w :
  BaseHub.setExtras extras (mkSt hub w) =
  (Ok tt,
   mkSt (BaseHub.set_scope
           {| scope_tags := scope_tags (BaseHub.scope hub);
              scope_user := scope_user (BaseHub.scope hub);
              scope_extras := fresh (heap w) |} hub)
        (with_heap
           (extend (heap w)
              (spread (deref (heap w) (scope_extras (BaseHub.scope hub))) extras))
           w)).
Proof. by destruct hub. Qed.

Lemma setUser_run user hub w :
  ∃ w', BaseHub.setUser user (mkSt hub w) =
        (Ok tt,
         mkSt (BaseHub.set_scope
                 {| scope_tags := scope_tags (BaseHub.scope hub);
                    scope_user := user;
                    scope_extras := scope_extras (BaseHub.scope hub) |} hub) w') ∧
        same_but_console w w'.
Proof.
  unfold BaseHub.setUser, BaseHub.put_scope, BaseHub.this_scope, BaseHub.debug,
    BaseHub.this_config, bind, get_this, put_this, ret.
  cbn [this world].
  match goal with
  | |- context [Config.debug ?c ?m ?s] =>
      destruct (Config_debug_ok c m s) as (w' & -> & Hw)
  end.
  exists w'. split; [done | done].
Qed.

End ScopeMutators.

Section BuildEvent.

Implicit Types (hub : BaseHub.BaseHub) (w : World).

Lemma copy_unless_empty_run {C} (l : loc) (s : St C) :
  BaseHub.copy_unless_empty l s =
  (Ok (copy_ref (heap (world s)) (deref (heap (world s)) l)),
   mkSt (this s)
     (with_heap (heap_with_copy (heap (world s)) (deref (heap (world s)) l))
        (world s))).
Proof.
  unfold BaseHub.copy_unless_empty, copy_ref, heap_with_copy, bind,
    read_object, alloc, ret.
  destruct (0 <? keys_length _)%nat; cbn [this world].
  - by rewrite spread_empty.
  - by destruct s as [c []].
Qed.

Lemma buildEvent_run message level error hub w :
  hub_wf (mkSt hub w) →
  let extras := deref (heap w) (scope_extras (BaseHub.scope hub)) in
  let tags := deref (heap w) (scope_tags (BaseHub.scope hub)) in
  let h1 := heap_with_copy (heap w) extras in
  BaseHub.buildEvent message level error (mkSt hub w) =
  (Ok {| ev_appId := prop (opt_appId (Config.options (BaseHub.config hub)));
         ev_commitHash := prop (opt_commitHash (Config.options (BaseHub.config hub)));
         ev_environment := prop (opt_environment (Config.options (BaseHub.config hub)));
         ev_level := level;
         ev_message := message;
         ev_stackTrace := error ≫= err_stack;
         ev_metadata := copy_ref (heap w) extras;
         ev_sourceContext := None;
         ev_userAgent := None;
         ev_timestamp := Some (clock w);
         ev_tags := copy_ref h1 tags;
         ev_user := scope_user (BaseHub.scope hub) |},
   mkSt hub (with_heap (heap_with_copy h1 tags) w)).
Proof.
  intros [Ht He]. cbn [this world] in Ht, He. intros extras tags h1.
  unfold BaseHub.buildEvent, BaseHub.this_config, BaseHub.this_scope.
  unfold bind at 1 2 3 4 5. unfold get_this at 1 2, ret at 1 2.
  cbn [this world].
  rewrite copy_unless_empty_run. cbn [this world]. fold extras. fold h1.
  unfold bind at 1. rewrite copy_unless_empty_run. cbn [this world heap with_heap].
  assert (deref h1 (scope_tags (BaseHub.scope hub)) = tags) as ->.
  { unfold h1, heap_with_copy. destruct (0 <? keys_length extras)%nat; [| done].
    by apply deref_extend_old. }
  reflexivity.
Qed.

Lemma heap_with_copy_length (h : Heap) (o : JsObject) :
  (length h ≤ length (heap_with_copy h o))%nat.
Proof.
  unfold heap_with_copy. destruct (0 <? keys_length o)%nat; [| lia].
  rewrite length_extend. lia.
Qed.

Lemma heap_with_copy_old (h : Heap) (o : JsObject) (l : loc) :
  (l < length h)%nat → deref (heap_with_copy h o) l = deref h l.
Proof.
  intros Hl. unfold heap_with_copy. destruct (0 <? keys_length o)%nat; [| done].
  by apply deref_extend_old.
Qed.

Lemma copy_ref_value (h : Heap) (o : JsObject) (l : loc) :
  copy_ref h o = Some l →
  l = length h ∧ deref (heap_with_copy h o) l = o ∧ o ≠ ∅.
Proof.
  unfold copy_ref, heap_with_copy.
  destruct (0 <? keys_length o)%nat eqn:Hk; [| done]. intros [= <-].
  split; [done |]. split; [apply deref_extend_fresh |].
  intros ->. apply Nat.ltb_lt in Hk. unfold keys_length in Hk.
  rewrite map_size_empty in Hk. lia.
Qed.

End BuildEvent.

Section ScopeIsolation.

Implicit Types (hub : BaseHub.BaseHub) (w : World) (s : St BaseHub.BaseHub).

Lemma apply_op_detached (op : ScopeOp) (l : loc) s :
  detached l s →
  ∃ s', apply_op op s = (Ok tt, s') ∧ detached l s' ∧
        deref (heap (world s')) l = deref (heap (world s)) l ∧
        BaseHub.config (this s') = BaseHub.config (this s).
Proof.
  destruct s as [hub w]. intros (Hl & Ht & He). cbn [this world] in *.
  destruct op as [user | key value | tags | key value | extras]; cbn [apply_op].
  - destruct (setUser_run user hub w) as (w' & -> & Hw).
    apply same_but_console_fields in Hw as (Hh & _).
    eexists. split; [done |]. unfold detached. cbn. rewrite <- Hh. done.
  - rewrite setTag_run. eexists. split; [done |]. unfold detached. cbn.
    rewrite length_store. repeat split; try done.
    by apply deref_store_other.
  - rewrite setTags_run. eexists. split; [done |]. unfold detached. cbn.
    rewrite length_extend. unfold fresh. repeat split; try done; try lia.
    by apply deref_extend_old.
  - rewrite setExtra_run. eexists. split; [done |]. unfold detached. cbn.
    rewrite length_store. repeat split; try done.
    by apply deref_store_other.
  - rewrite setExtras_run. eexists. split; [done |]. unfold detached. cbn.
    rewrite length_extend. unfold fresh. repeat split; try done; try lia.
    by apply deref_extend_old.
Qed.

(** The scope mutators never throw. *)
Lemma apply_ops_total (ops : list ScopeOp) s :
  ∃ s', apply_ops ops s = (Ok tt, s') ∧
        BaseHub.config (this s') = BaseHub.config (this s).
Proof.
  revert s. induction ops as [| op ops IH]; intros s; cbn [apply_ops].
  - by exists s.
  - unfold bind.
    assert (∃ s1, apply_op op s = (Ok tt, s1) ∧
                  BaseHub.config (this s1) = BaseHub.config (this s))
      as (s1 & -> & Hc).
    { destruct s as [hub w].
      destruct op as [user | key value | tags | key value | extras];
        cbn [apply_op].
      - destruct (setUser_run user hub w) as (w' & -> & _). eauto.
      - rewrite setTag_run. eauto.
      - rewrite setTags_run. eauto.
      - rewrite setExtra_run. eauto.
      - rewrite setExtras_run. eauto. }
    destruct (IH s1) as (s' & -> & Hc'). exists s'. split; [done |].
    congruence.
Qed.

Lemma apply_ops_detached (ops : list ScopeOp) (l : loc) s :
  detached l s →
  ∃ s', apply_ops ops s = (Ok tt, s') ∧ detached l s' ∧
        deref (heap (world s')) l = deref (heap (world s)) l.
Proof.
  revert s. induction ops as [| op ops IH]; intros s Hd; cbn [apply_ops].
  - by exists s.
  - unfold bind.
    destruct (apply_op_detached op l s Hd) as (s1 & -> & Hd1 & Heq1 & _).
    destruct (IH s1 Hd1) as (s' & -> & Hd' & Heq').
    exists s'. split; [done |]. split; [done |]. congruence.
Qed.

(** The references of a freshly built event are detached from the scope. *)
Lemma built_event_detached message level error hub w e s1 (l : loc) :
  hub_wf (mkSt hub w) →
  BaseHub.buildEvent message level error (mkSt hub w) = (Ok e, s1) →
  ev_tags e = Some l ∨ ev_metadata e = Some l →
  detached l s1.
Proof.
  intros Hwf. rewrite (buildEvent_run _ _ _ _ _ Hwf). intros [= <- <-].
  destruct Hwf as [Ht He]. cbn [this world] in *.
  cbn [ev_tags ev_metadata]. unfold detached. cbn [this world heap with_heap].
  set (extras := deref (heap w) (scope_extras (BaseHub.scope hub))).
  set (tags := deref (heap w) (scope_tags (BaseHub.scope hub))).
  pose proof (heap_with_copy_length (heap w) extras) as L1.
  pose proof (heap_with_copy_length (heap_with_copy (heap w) extras) tags) as L2.
  unfold copy_ref, heap_with_copy in *.
  intros [Hl | Hl].
  - destruct (0 <? keys_length tags)%nat; [| done]. injection Hl as <-.
    rewrite length_extend. unfold fresh. lia.
  - destruct (0 <? keys_length extras)%nat; [| done]. injection Hl as <-.
    rewrite length_extend in L2. unfold fresh. lia.
Qed.

End ScopeIsolation.

Lemma sample_hub_constructed :
  run (BaseHub.new sample_options) tt quiet_world
  = (Ok sample_hub, mkSt tt sample_hub_world).
Proof. reflexivity. Qed.

Lemma validate_ok_fields (c : Config.Config) :
  Config.validate c = Ok tt →
  truthy (prop (opt_dsn (Config.options c))) = true ∧
  truthy (prop (opt_appId (Config.options c))) = true ∧
  truthy (prop (opt_commitHash (Config.options c))) = true ∧
  Config.includes Config.VALID_ENVIRONMENTS
    (prop (opt_environment (Config.options c))) = true.
Proof.
  unfold Config.validate.
  destruct (truthy (prop (opt_dsn _))); [| done].
  destruct (truthy (prop (opt_appId _))); [| done].
  destruct (truthy (prop (opt_commitHash _))); [| done].
  destruct (Config.includes _ _); done.
Qed.

Lemma truthy_defined (v : JsValue) : truthy v = true → v ≠ JUndefined.
Proof. by intros H ->. Qed.

(** What the constructor establishes, and the scope mutators keep. *)
Lemma BaseHub_new_ok {C} (opts : ErrorTrackerOptions) (s : St C) :
  acceptable opts →
  (∀ l, opt_tags opts = Some l → (l < length (heap (world s)))%nat) →
  ∃ hub w',
    BaseHub.new opts s = (Ok hub, mkSt (this s) w') ∧
    Config.validate (BaseHub.config hub) = Ok tt ∧
    hub_wf (mkSt hub w') ∧
    extras_of (mkSt hub w') = ∅.
Proof.
  intros Hacc Htags.
  pose proof (Config_new_cases opts) as Hcases.
  pose proof (proj2 (validate_after_defaults opts) Hacc) as Hval.
  unfold BaseHub.new, lift_result. unfold bind at 1.
  destruct (Config.new opts) as [c | message]; [| by destruct Hcases].
  destruct Hcases as [_ ->].
  destruct (opt_tags opts) as [l |] eqn:Hl.
  - unfold bind, ret, alloc. cbn [this world heap with_heap].
    match goal with
    | |- context [Config.debug ?c ?m ?s0] =>
        destruct (Config_debug_ok c m s0) as (w' & -> & Hw)
    end.
    cbn [this world] in *.
    apply same_but_console_fields in Hw as (Hh & _). cbn [heap with_heap] in Hh.
    eexists _, w'. split; [done |]. split; [done |].
    unfold hub_wf, extras_of. cbn [this world BaseHub.scope scope_tags scope_extras].
    rewrite <- Hh. split; [| apply deref_extend_fresh].
    unfold fresh. rewrite length_extend. specialize (Htags l eq_refl).
    split; lia.
  - unfold bind, ret, alloc. cbn [this world heap with_heap].
    match goal with
    | |- context [Config.debug ?c ?m ?s0] =>
        destruct (Config_debug_ok c m s0) as (w' & -> & Hw)
    end.
    cbn [this world] in *.
    apply same_but_console_fields in Hw as (Hh & _). cbn [heap with_heap] in Hh.
    eexists _, w'. split; [done |]. split; [done |].
    unfold hub_wf, extras_of. cbn [this world BaseHub.scope scope_tags scope_extras].
    rewrite <- Hh. split; [| apply deref_extend_fresh].
    unfold fresh. rewrite !length_extend. split; lia.
Qed.

Lemma apply_op_wf (op : ScopeOp) (s : St BaseHub.BaseHub) :
  hub_wf s →
  ∃ s', apply_op op s = (Ok tt, s') ∧ hub_wf s' ∧
        BaseHub.config (this s') = BaseHub.config (this s).
Proof.
  destruct s as [hub w]. intros [Ht He]. cbn [this world] in *.
  destruct op as [user | key value | tags | key value | extras]; cbn [apply_op].
  - destruct (setUser_run user hub w) as (w' & -> & Hw).
    apply same_but_console_fields in Hw as (Hh & _).
    eexists. split; [done |]. unfold hub_wf. cbn. by rewrite <- Hh.
  - rewrite setTag_run. eexists. split; [done |]. unfold hub_wf. cbn.
    by rewrite length_store.
  - rewrite setTags_run. eexists. split; [done |]. unfold hub_wf. cbn.
    rewrite length_extend. unfold fresh. split; [split; lia | done].
  - rewrite setExtra_run. eexists. split; [done |]. unfold hub_wf. cbn.
    by rewrite length_store.
  - rewrite setExtras_run. eexists. split; [done |]. unfold hub_wf. cbn.
    rewrite length_extend. unfold fresh. split; [split; lia | done].
Qed.

Lemma apply_ops_wf (ops : list ScopeOp) (s : St BaseHub.BaseHub) :
  hub_wf s →
  ∃ s', apply_ops ops s = (Ok tt, s') ∧ hub_wf s' ∧
        BaseHub.config (this s') = BaseHub.config (this s).
Proof.
  revert s. induction ops as [| op ops IH]; intros s Hwf; cbn [apply_ops].
  - by exists s.
  - unfold bind. destruct (apply_op_wf op s Hwf) as (s1 & -> & Hwf1 & Hc1).
    destruct (IH s1 Hwf1) as (s' & -> & Hwf' & Hc').
    exists s'. split; [done |]. split; [done |]. congruence.
Qed.

Lemma getConfig_update_run (updates : ErrorTrackerOptions)
    (hub : BaseHub.BaseHub) (w : World) :
  getConfig_update updates (mkSt hub w)
  = (Ok tt,
     mkSt (BaseHub.set_config (Config.update updates (BaseHub.config hub)) hub) w).
Proof. reflexivity. Qed.

Lemma over_prop (b a : option JsValue) :
  prop (over b a) = match b with Some v => v | None => prop a end.
Proof. by destruct b. Qed.

(** The constructor leaves a hub whose configuration passed validation. *)
Lemma BaseHub_new_identified {C} (opts : ErrorTrackerOptions) (s : St C)
    (hub : BaseHub.BaseHub) (w1 : World) :
  BaseHub.new opts s = (Ok hub, mkSt (this s) w1) →
  (∀ l, opt_tags opts = Some l → (l < length (heap (world s)))%nat) →
  hub_wf (mkSt hub w1) ∧ identified (BaseHub.config hub) ∧
  BaseHub.config hub
  = {| Config.options := spread_options Config.DEFAULT_OPTIONS opts |}.
Proof.
  intros Hnew Htags.
  pose proof (Config_new_cases opts) as Hcases.
  destruct (Config.new opts) as [c | message] eqn:Hc.
  - destruct Hcases as [Hacc ->].
    destruct (BaseHub_new_ok opts s Hacc Htags) as (hub' & w' & Hnew' & Hval & Hwf & _).
    rewrite Hnew in Hnew'. injection Hnew' as <- <-.
    assert (BaseHub.config hub
            = {| Config.options := spread_options Config.DEFAULT_OPTIONS opts |})
      as Hcfg.
    { clear Hval Hwf. unfold BaseHub.new, lift_result in Hnew.
      unfold bind at 1 in Hnew. rewrite Hc in Hnew.
      unfold bind at 1 in Hnew.
      destruct (opt_tags opts);
        unfold bind, ret, alloc in Hnew; cbn [this world] in Hnew;
        match type of Hnew with
        | context [Config.debug ?c0 ?m ?s0] =>
            destruct (Config_debug_ok c0 m s0) as (w2 & Hd & _)
        end;
        rewrite Hd in Hnew; by injection Hnew as <- _. }
    split; [done |]. split; [| done].
    apply validate_ok_fields in Hval as (_ & Ha & Hch & He).
    split; [done |]. split; [done |]. by apply includes_spec.
  - unfold BaseHub.new, lift_result, bind in Hnew. by rewrite Hc in Hnew.
Qed.

(** What the operations of a host keep. *)
Lemma apply_hub_ops_keep (ops : list HubOp) (s : St BaseHub.BaseHub) :
  hub_wf s →
  identified (BaseHub.config (this s)) →
  Forall keeps_identified ops →
  ∃ s',
    apply_hub_ops ops s = (Ok tt, s') ∧ hub_wf s' ∧
    identified (BaseHub.config (this s')) ∧
    ((∀ updates, HUpdate updates ∉ ops) →
     BaseHub.config (this s') = BaseHub.config (this s)).
Proof.
  revert s. induction ops as [| op ops IH]; intros s Hwf Hid Hall;
    cbn [apply_hub_ops].
  - by exists s.
  - apply Forall_cons in Hall as [Hop Hall]. unfold bind.
    assert (∃ s1, apply_hub_op op s = (Ok tt, s1) ∧ hub_wf s1 ∧
                  identified (BaseHub.config (this s1)) ∧
                  ((∀ updates, op ≠ HUpdate updates) →
                   BaseHub.config (this s1) = BaseHub.config (this s)))
      as (s1 & -> & Hwf1 & Hid1 & Hsame1).
    { destruct op as [o | updates]; cbn [apply_hub_op].
      - destruct (apply_op_wf o s Hwf) as (s1 & Hrun & Hwf1 & Hc1).
        exists s1. rewrite Hc1. done.
      - destruct s as [hub w]. rewrite getConfig_update_run. eexists.
        split; [reflexivity |]. split; [exact Hwf |]. split.
        + destruct Hid as (Ha & Hc & name & He & Hin).
          destruct Hop as (Ha' & Hc' & He').
          cbn [this] in Ha, Hc, He. unfold identified.
          cbn [this BaseHub.config BaseHub.set_config Config.update Config.options
               spread_options opt_appId opt_commitHash opt_environment].
          rewrite !over_prop. split; [| split].
          * destruct (opt_appId updates); [by apply Ha' | done].
          * destruct (opt_commitHash updates); [by apply Hc' | done].
          * destruct (opt_environment updates) as [v |]; [by apply He' | eauto].
        + intros Hno. by destruct (Hno updates). }
    destruct (IH s1 Hwf1 Hid1 Hall) as (s' & -> & Hwf' & Hid' & Hsame').
    exists s'. split; [done |]. split; [done |]. split; [done |].
    intros Hno. rewrite Hsame', Hsame1; [done | |].
    + intros updates ->. apply (Hno updates). by left.
    + intros updates Hin. apply (Hno updates). by right.
Qed.

(** C5, amended.  A hub that the constructor has built, after any sequence of
    scope mutations and of configuration updates that do not give [appId],
    [commitHash] or [environment] a value that validation refuses: [buildEvent]
    returns an event whose [appId], [commitHash] and [environment] are the
    values of the configuration (those of the options, when nothing was
    updated), [appId] and [commitHash] truthy and [environment] one of the
    three names, and whose [level] and [message] are the arguments of the
    call; when the tags map of the scope is empty the [tags] of the event are
    undefined, and when the extras map is empty its [metadata] is undefined:
    the field holds no map in memory and its key is absent from the JSON
    form. *)
Theorem buildEvent_required_fields {C}
    (opts : ErrorTrackerOptions) (s : St C) (hub : BaseHub.BaseHub) (w1 : World)
    (ops : list HubOp) (message : string) (level : ErrorLevel)
    (error : option JsError) :
  BaseHub.new opts s = (Ok hub, mkSt (this s) w1) →
  (∀ l, opt_tags opts = Some l → (l < length (heap (world s)))%nat) →
  Forall keeps_identified ops →
  ∃ s2 e w3,
    apply_hub_ops ops (mkSt hub w1) = (Ok tt, s2) ∧
    BaseHub.buildEvent message level error s2 = (Ok e, mkSt (this s2) w3) ∧
    ev_appId e = prop (opt_appId (Config.options (BaseHub.config (this s2)))) ∧
    truthy (ev_appId e) = true ∧
    ev_commitHash e
    = prop (opt_commitHash (Config.options (BaseHub.config (this s2)))) ∧
    truthy (ev_commitHash e) = true ∧
    ev_environment e
    = prop (opt_environment (Config.options (BaseHub.config (this s2)))) ∧
    (∃ name, ev_environment e = jstr name ∧ name ∈ Config.VALID_ENVIRONMENTS) ∧
    ev_level e = level ∧
    ev_message e = message ∧
    (tags_of s2 = ∅ →
     ev_tags e = None ∧ je_tags (toJSON (heap w3) e) = None) ∧
    (extras_of s2 = ∅ →
     ev_metadata e = None ∧ je_metadata (toJSON (heap w3) e) = None) ∧
    ((∀ updates, HUpdate updates ∉ ops) →
     ev_appId e = prop (opt_appId opts) ∧
     ev_commitHash e = prop (opt_commitHash opts)).
Proof.
  intros Hnew Htags Hall.
  destruct (BaseHub_new_identified opts s hub w1 Hnew Htags) as (Hwf & Hid & Hcfg).
  destruct (apply_hub_ops_keep ops (mkSt hub w1) Hwf Hid Hall)
    as ([hub2 w2] & Hrun & Hwf2 & (Ha & Hc & name & He & Hin) & Hsame).
  cbn [this world] in *.
  exists (mkSt hub2 w2). rewrite (buildEvent_run _ _ _ _ _ Hwf2).
  eexists _, _. split; [exact Hrun |]. split; [reflexivity |].
  cbn [this ev_appId ev_commitHash ev_environment ev_level ev_message ev_tags
       ev_metadata toJSON je_tags je_metadata].
  split; [done |]. split; [done |]. split; [done |]. split; [done |].
  split; [done |]. split; [eauto |]. split; [done |]. split; [done |].
  split; [| split].
  - intros H. unfold tags_of in H. cbn [this world] in H. by rewrite H.
  - intros H. unfold extras_of in H. cbn [this world] in H. by rewrite H.
  - intros Hno. rewrite (Hsame Hno), Hcfg.
    cbn [Config.options spread_options opt_appId opt_commitHash
         Config.DEFAULT_OPTIONS].
    rewrite !over_prop. by destruct (opt_appId opts), (opt_commitHash opts).
Qed.

Lemma buildEvent_required_fields_witness :
  BaseHub.new sample_options (mkSt tt quiet_world)
  = (Ok sample_hub, mkSt tt sample_hub_world) ∧
  (∀ l, opt_tags sample_options = Some l → (l < length (heap quiet_world))%nat) ∧
  Forall keeps_identified
    [HScope (OpSetTag "version" "1.0.0"); HUpdate debug_on;
     HScope (OpSetExtra "requestId" JUndefined)] ∧
  ∃ s2 e w3,
    apply_hub_ops
      [HScope (OpSetTag "version" "1.0.0"); HUpdate debug_on;
       HScope (OpSetExtra "requestId" JUndefined)]
      (mkSt sample_hub sample_hub_world) = (Ok tt, s2) ∧
    BaseHub.buildEvent "hello" LWarning None s2 = (Ok e, mkSt (this s2) w3) ∧
    ev_appId e = prop (opt_appId (Config.options (BaseHub.config (this s2)))) ∧
    truthy (ev_appId e) = true ∧
    ev_commitHash e
    = prop (opt_commitHash (Config.options (BaseHub.config (this s2)))) ∧
    truthy (ev_commitHash e) = true ∧
    ev_environment e
    = prop (opt_environment (Config.options (BaseHub.config (this s2)))) ∧
    (∃ name, ev_environment e = jstr name ∧ name ∈ Config.VALID_ENVIRONMENTS) ∧
    ev_level e = LWarning ∧
    ev_message e = "hello" ∧
    (tags_of s2 = ∅ →
     ev_tags e = None ∧ je_tags (toJSON (heap w3) e) = None) ∧
    (extras_of s2 = ∅ →
     ev_metadata e = None ∧ je_metadata (toJSON (heap w3) e) = None) ∧
    ((∀ updates,
        HUpdate updates ∉ [HScope (OpSetTag "version" "1.0.0"); HUpdate debug_on;
                           HScope (OpSetExtra "requestId" JUndefined)]) →
     ev_appId e = prop (opt_appId sample_options) ∧
     ev_commitHash e = prop (opt_commitHash sample_options)).
Proof.
  assert (∀ l, opt_tags sample_options = Some l → (l < length (heap quiet_world))%nat)
    as Htags by (intros l Hl; discriminate Hl).
  assert (Forall keeps_identified
            [HScope (OpSetTag "version" "1.0.0"); HUpdate debug_on;
             HScope (OpSetExtra "requestId" JUndefined)]) as Hall.
  { repeat constructor; intros v Hv; discriminate Hv. }
  split; [reflexivity |]. split; [exact Htags |]. split; [exact Hall |].
  apply (buildEvent_required_fields sample_options (mkSt tt quiet_world) sample_hub
           sample_hub_world _ "hello" LWarning None);
    [reflexivity | exact Htags | exact Hall].
Defined.

(** C5, as stated, fails on a hub whose configuration was updated: after
    [getConfig().update({ appId: undefined })], which [update] accepts without
    validating, the event that [buildEvent] returns has no [appId], in memory,
    in its JSON form and in the payload. *)
Lemma updated_configuration_loses_appId :
  match run (BaseHub.new sample_options) tt quiet_world with
  | (Ok hub, s1) =>
      match
        run (let* _ := getConfig_update appId_undefined in
             BaseHub.buildEvent "boom" LError None) hub (world s1)
      with
      | (Ok e, s2) =>
          ev_appId e = JUndefined ∧
          je_appId (toJSON (heap (world s2)) e) = JUndefined ∧
          p_appId (BaseTransport.buildPayload (heap (world s2)) e) = JUndefined ∧
          ev_message e = "boom"
      | (Throw _, _) => False
      end
  | (Throw _, _) => False
  end.
Proof. vm_compute. repeat split. Qed.

Lemma tagged_world_reached :
  run (BaseHub.setTag "version" "1.0.0") sample_hub sample_hub_world
  = (Ok tt, mkSt sample_hub tagged_world).
Proof. reflexivity. Qed.

(** C9.  An event built from a scope keeps the tags (and the metadata) it was
    built with, whatever scope mutations follow: its maps are copies taken at
    build time, the maps of the scope when those were not empty, and reading
    them after any sequence of [setUser], [setTag], [setTags], [setExtra] and
    [setExtras] gives what reading them right after the build gave. *)
Theorem scope_snapshot_isolation
    (hub : BaseHub.BaseHub) (w : World) (message : string) (level : ErrorLevel)
    (error : option JsError) (ops : list ScopeOp) :
  hub_wf (mkSt hub w) →
  ∃ e s1 s2,
    BaseHub.buildEvent message level error (mkSt hub w) = (Ok e, s1) ∧
    apply_ops ops s1 = (Ok tt, s2) ∧
    (tags_of (mkSt hub w) ≠ ∅ →
     event_tags (heap (world s1)) e = Some (tags_of (mkSt hub w))) ∧
    (extras_of (mkSt hub w) ≠ ∅ →
     event_metadata (heap (world s1)) e = Some (extras_of (mkSt hub w))) ∧
    event_tags (heap (world s2)) e = event_tags (heap (world s1)) e ∧
    event_metadata (heap (world s2)) e = event_metadata (heap (world s1)) e.
Proof.
  intros Hwf.
  pose proof (built_event_detached message level error hub w) as Hdet.
  pose proof (buildEvent_run message level error hub w Hwf) as Hrun.
  cbv zeta in Hrun.
  set (extras := deref (heap w) (scope_extras (BaseHub.scope hub))) in *.
  set (tags := deref (heap w) (scope_tags (BaseHub.scope hub))) in *.
  destruct (BaseHub.buildEvent message level error (mkSt hub w)) as [r s1].
  injection Hrun as -> ->.
  match goal with
  | |- ∃ e s1 s2, (Ok ?ev, ?st) = _ ∧ _ =>
      set (e := ev) in *; set (s1 := st) in *
  end.
  specialize (Hdet e s1).
  destruct (apply_ops_total ops s1) as (s2 & Hops & _).
  exists e, s1, s2. split; [done |]. split; [done |].
  split; [| split; [| split]].
  - intros Hne. unfold event_tags, tags_of. cbn [this world ev_tags e].
    fold tags in Hne |- *.
    destruct (copy_ref _ tags) as [l |] eqn:Hl.
    + apply copy_ref_value in Hl as (_ & Hd & _). cbn. by rewrite Hd.
    + exfalso. unfold copy_ref in Hl.
      destruct (0 <? keys_length tags)%nat eqn:Hk; [done |].
      by apply keys_length_empty in Hk.
  - intros Hne. unfold event_metadata, extras_of. cbn [this world ev_metadata e].
    fold extras in Hne |- *.
    destruct (copy_ref _ extras) as [l |] eqn:Hl.
    + pose proof Hl as Hl'.
      apply copy_ref_value in Hl as (-> & Hd & _). cbn.
      rewrite heap_with_copy_old; [by rewrite Hd |].
      unfold copy_ref in Hl'. unfold heap_with_copy.
      destruct (0 <? keys_length extras)%nat; [| done].
      rewrite length_extend. lia.
    + exfalso. unfold copy_ref in Hl.
      destruct (0 <? keys_length extras)%nat eqn:Hk; [done |].
      by apply keys_length_empty in Hk.
  - unfold event_tags. destruct (ev_tags e) as [l |] eqn:Hl; [| done].
    destruct (apply_ops_detached ops l s1) as (s2' & Hops' & _ & Heq).
    { apply Hdet; [done | done | by left]. }
    rewrite Hops in Hops'. injection Hops' as <-. cbn. by rewrite Heq.
  - unfold event_metadata. destruct (ev_metadata e) as [l |] eqn:Hl; [| done].
    destruct (apply_ops_detached ops l s1) as (s2' & Hops' & _ & Heq).
    { apply Hdet; [done | done | by right]. }
    rewrite Hops in Hops'. injection Hops' as <-. cbn. by rewrite Heq.
Qed.

Lemma scope_snapshot_isolation_witness :
  hub_wf (mkSt sample_hub tagged_world) ∧
  ∃ e s1 s2,
    BaseHub.buildEvent "hello" LWarning None (mkSt sample_hub tagged_world)
    = (Ok e, s1) ∧
    apply_ops [OpSetTag "version" "2.0.0"; OpSetTags {["region" := "eu"]}] s1
    = (Ok tt, s2) ∧
    (tags_of (mkSt sample_hub tagged_world) ≠ ∅ →
     event_tags (heap (world s1)) e = Some (tags_of (mkSt sample_hub tagged_world))) ∧
    (extras_of (mkSt sample_hub tagged_world) ≠ ∅ →
     event_metadata (heap (world s1)) e
     = Some (extras_of (mkSt sample_hub tagged_world))) ∧
    event_tags (heap (world s2)) e = event_tags (heap (world s1)) e ∧
    event_metadata (heap (world s2)) e = event_metadata (heap (world s1)) e.
Proof.
  split; [split; simpl; lia |].
  apply (scope_snapshot_isolation sample_hub tagged_world "hello" LWarning None).
  split; simpl; lia.
Defined.

(** The tags the scope holds do change under the same mutations. *)
Lemma scope_tags_do_change :
  ∃ e s1 s2,
    BaseHub.buildEvent "hello" LWarning None (mkSt sample_hub tagged_world)
    = (Ok e, s1) ∧
    apply_ops [OpSetTag "version" "2.0.0"] s1 = (Ok tt, s2) ∧
    tags_of s2 !! "version" = Some (jstr "2.0.0") ∧
    (event_tags (heap (world s2)) e ≫= (.!! "version")) = Some (jstr "1.0.0").
Proof. eexists _, _, _. repeat split. Qed.

(* ===================================================================== *)
(** ** Extras and [undefined]                                             *)
(* ===================================================================== *)

(** [setExtra(k, undefined)] removes the key. *)
Lemma setExtra_undefined_deletes (key : string) (s : St BaseHub.BaseHub) :
  hub_wf s →
  ∃ s', BaseHub.setExtra key JUndefined s = (Ok tt, s') ∧
        extras_of s' !! key = None.
Proof.
  destruct s as [hub w]. intros [_ He]. cbn [this world] in He.
  rewrite setExtra_run. eexists. split; [done |].
  unfold extras_of. cbn. rewrite deref_store_same by done.
  apply lookup_delete_eq.
Qed.

(** [setExtra] keeps a map free of [undefined] that way. *)
Lemma setExtra_no_undefined (key : string) (value : JsValue) (s : St BaseHub.BaseHub) :
  hub_wf s → no_undefined (extras_of s) →
  ∃ s', BaseHub.setExtra key value s = (Ok tt, s') ∧
        no_undefined (extras_of s').
Proof.
  destruct s as [hub w]. intros [_ He] Hno. cbn [this world] in He.
  rewrite setExtra_run. eexists. split; [done |].
  unfold extras_of in *. cbn in *. rewrite deref_store_same by done.
  intros k. destruct (bool_decide_reflect (value = JUndefined)) as [-> | Hv].
  - destruct (decide (k = key)) as [-> | Hk].
    + by rewrite lookup_delete_eq.
    + rewrite lookup_delete_ne by done. apply Hno.
  - destruct (assign_cases key value (deref (heap w) (scope_extras (BaseHub.scope hub))))
      as [-> | ->]; [apply Hno |].
    destruct (decide (k = key)) as [-> | Hk].
    + rewrite lookup_insert_eq. congruence.
    + rewrite lookup_insert_ne by done. apply Hno.
Qed.

(** [setExtras] copies whatever its argument holds. *)
Lemma setExtras_copies (extras : JsObject) (key : string) (value : JsValue)
    (s : St BaseHub.BaseHub) :
  extras !! key = Some value →
  ∃ s', BaseHub.setExtras extras s = (Ok tt, s') ∧
        extras_of s' !! key = Some value.
Proof.
  destruct s as [hub w]. intros Hk.
  rewrite setExtras_run. eexists. split; [done |].
  unfold extras_of. cbn. rewrite deref_extend_fresh. unfold spread.
  by apply lookup_union_Some_l.
Qed.

(** C4 at [setExtras({ requestId: undefined })] on a new hub: the key is
    stored with the value [undefined], where [setExtra('requestId', undefined)]
    leaves no key; the next event then carries a metadata object, and its
    payload a [metadata] that is an empty map. *)
Theorem setExtras_stores_undefined :
  ∃ s1 s2 e s3,
    run (BaseHub.setExtras {["requestId" := JUndefined]}) sample_hub sample_hub_world
    = (Ok tt, s1) ∧
    extras_of s1 !! "requestId" = Some JUndefined ∧
    ¬ no_undefined (extras_of s1) ∧
    run (BaseHub.setExtra "requestId" JUndefined) sample_hub sample_hub_world
    = (Ok tt, s2) ∧
    extras_of s2 = ∅ ∧
    BaseHub.buildEvent "boom" LError None s1 = (Ok e, s3) ∧
    event_metadata (heap (world s3)) e = Some {["requestId" := JUndefined]} ∧
    p_metadata (BaseTransport.buildPayload (heap (world s3)) e) = Some ∅.
Proof.
  eexists _, _, _, _.
  split; [reflexivity |]. split; [reflexivity |].
  split; [intros H; by apply (H "requestId") |].
  split; [reflexivity |]. split; [reflexivity |].
  split; [reflexivity |]. split; reflexivity.
Qed.

(* ===================================================================== *)
(** ** Transports and response bodies that are not JSON                   *)
(* ===================================================================== *)

Lemma sample_transport_constructed :
  BaseTransport.new (BaseHub.config sample_hub) = Ok sample_transport.
Proof. reflexivity. Qed.

(** [NodeTransport.send] resolves to a success without id on any 2xx response
    whose body is not valid JSON. *)
Lemma NodeTransport_tolerates_invalid_json {C}
    (c : Config.Config) (t : NodeTransport.NodeTransport) (event : ErrorEvent)
    (s : St C) (status : Z) (text : string) :
  URL_valid (world s) (BaseTransport.endpoint (NodeTransport.base t)) = true →
  network (world s) (length (requests (world s))) = NetResponse status (BodyText text) →
  200 ≤ status < 300 →
  fst (NodeTransport.send c t event s) = Ok success_without_id.
Proof.
  intros Hurl Hnet Hstatus.
  unfold NodeTransport.send, NodeTransport.new_URL, try_catch, bind, get_world,
    http_request, ret, throw.
  cbn [this world]. rewrite Hurl. cbn [this world]. rewrite Hnet.
  assert (status_ok status = true) as ->.
  { unfold status_ok. apply andb_true_iff. split; [apply Z.leb_le | apply Z.ltb_lt]; lia. }
  reflexivity.
Qed.

(** C2 at a 200 response with the body [OK], in the browser:
    [FetchTransport.send] resolves to a failure (the rejection of
    [response.json()] lands in its [catch]), and the client then queues an
    event that the server has accepted; the Node transport resolves the same
    response to a success without id. *)
Theorem FetchTransport_fails_on_invalid_json :
  status_ok 200 = true ∧
  fst (run (FetchTransport.send (BaseHub.config sample_hub) sample_transport
              sample_event) tt plain_text_world)
  = Ok (failure None "SyntaxError: Unexpected token in JSON") ∧
  match
    run (let* c := BrowserClient.new sample_options in
         on c (BrowserClient.captureMessage "hello" None)) tt plain_text_world
  with
  | (Ok (event_id, _), s) =>
      event_id = None ∧
      length (requests (world s)) = 1%nat ∧
      length <$> ls_item (world s) = Some 1%nat
  | (Throw _, _) => False
  end ∧
  fst (run (NodeTransport.send (BaseHub.config sample_hub)
              {| NodeTransport.base := sample_transport;
                 NodeTransport.isHttps := true |}
              sample_event) tt plain_text_world)
  = Ok success_without_id.
Proof.
  split; [reflexivity |]. split; [reflexivity |]. split; [| reflexivity].
  vm_compute. repeat split.
Qed.

(* ===================================================================== *)
(** ** Draining the queue                                                 *)
(* ===================================================================== *)

(** [FetchTransport.send] never throws; it issues exactly one request. *)
Lemma FetchTransport_send_run {C} (c : Config.Config)
    (t : BaseTransport.BaseTransport) (event : ErrorEvent) (s : St C) :
  ∃ r, FetchTransport.send c t event s =
       (Ok r,
        mkSt (this s)
          (with_requests
             (requests (world s) ++ [request_for c t (heap (world s)) event])
             (world s))).
Proof.
  unfold FetchTransport.send, FetchTransport.fetch, try_catch, bind, get_world,
    http_request, ret, throw, request_for.
  cbn [this world].
  destruct (network (world s) (length (requests (world s))))
    as [message | | status body]; cbn [this world]; eauto.
  destruct (negb (status_ok status)); cbn [this world]; eauto.
  unfold JSON_parse_body, throw, ret.
  destruct body as [text | parsed]; cbn [this world]; eauto.
  unfold BaseTransport.parseResponse, throw, ret.
  destruct parsed as [| [v |] resp_id resp_error]; cbn [this world]; eauto.
  destruct (truthy v); eauto.
Qed.

Lemma sample_client_constructed :
  run (BrowserClient.new sample_options) tt quiet_world
  = (Ok sample_client, mkSt tt sample_client_world).
Proof. reflexivity. Qed.

(** C1 at a queue of three events with an endpoint that fails the second:
    [flushQueue] sends the first two in order, does not try the third, and
    writes back the failed second event alone; the third event is no longer
    in the queue. *)
Theorem flushQueue_drops_untried_events :
  match run BrowserClient.flushQueue sample_client three_queued_world with
  | (Ok _, s) =>
      ls_item (world s) = Some [queued "second"] ∧
      map (fun r => p_message (req_body r)) (requests (world s))
      = ["first"; "second"] ∧
      BrowserClient.isProcessingQueue (this s) = false
  | (Throw _, _) => False
  end.
Proof. vm_compute. repeat split. Qed.

(* ===================================================================== *)
(** ** The queue storage                                                  *)
(* ===================================================================== *)

Section QueueStorageFacts.

Context {C : Type}.
Implicit Types (s : St C) (w : World) (h : Heap).

Lemma same_but_queue_trans w1 w2 w3 :
  same_but_queue w1 w2 → same_but_queue w2 w3 → same_but_queue w1 w3.
Proof. unfold same_but_queue. congruence. Qed.

Lemma same_but_queue_fields w w' :
  same_but_queue w w' →
  requests w = requests w' ∧ console w = console w' ∧
  network w = network w' ∧ navigator_onLine w = navigator_onLine w' ∧
  ls_getItem_throws w = ls_getItem_throws w' ∧
  ls_setItem_throws w = ls_setItem_throws w' ∧
  listeners w = listeners w'.
Proof.
  unfold same_but_queue. intros H. repeat split.
  - by apply (f_equal requests) in H.
  - by apply (f_equal console) in H.
  - by apply (f_equal network) in H.
  - by apply (f_equal navigator_onLine) in H.
  - by apply (f_equal ls_getItem_throws) in H.
  - by apply (f_equal ls_setItem_throws) in H.
  - by apply (f_equal listeners) in H.
Qed.

Lemma stringify_parse_object (o : JsonObject) :
  JSON_stringify_object (JSON_parse_object o) = o.
Proof.
  unfold JSON_stringify_object, JSON_parse_object. apply map_eq. intros k.
  rewrite lookup_omap, lookup_fmap. by destruct (o !! k).
Qed.

Lemma deref_app_fresh h (o : JsObject) (h' : Heap) :
  deref (h ++ o :: h') (length h) = o.
Proof.
  unfold deref. rewrite lookup_app_r by lia. by rewrite Nat.sub_diag.
Qed.

Lemma parse_map_run (o : option JsonObject) s :
  ∃ l ext,
    parse_map o s =
      (Ok l, mkSt (this s) (with_heap (heap (world s) ++ ext) (world s))) ∧
    (∀ h', (fun l => JSON_stringify_object (deref (heap (world s) ++ ext ++ h') l)) <$> l = o) ∧
    (∀ l', l = Some l' → (l' < length (heap (world s) ++ ext))%nat).
Proof.
  destruct o as [m |]; cbn [parse_map].
  - exists (Some (length (heap (world s)))), [JSON_parse_object m].
    split; [done |]. split.
    + intros h'. cbn. rewrite deref_app_fresh. by rewrite stringify_parse_object.
    + intros l' [= <-]. rewrite length_app. simpl. lia.
  - exists None, []. split.
    + unfold ret. rewrite app_nil_r. by destruct s as [c []].
    + done.
Qed.

Lemma toJSON_app h (h' : Heap) (e : ErrorEvent) :
  event_in_heap h e → toJSON (h ++ h') e = toJSON h e.
Proof.
  intros [Ht Hm]. unfold toJSON. f_equal.
  - destruct (ev_metadata e) as [l |]; [| done]. cbn. f_equal.
    unfold deref. by rewrite lookup_app_l by eauto.
  - destruct (ev_tags e) as [l |]; [| done]. cbn. f_equal.
    unfold deref. by rewrite lookup_app_l by eauto.
Qed.

Lemma event_in_heap_app h (h' : Heap) (e : ErrorEvent) :
  event_in_heap h e → event_in_heap (h ++ h') e.
Proof.
  intros [Ht Hm]. split; intros l Hl; rewrite length_app.
  - specialize (Ht l Hl). lia.
  - specialize (Hm l Hl). lia.
Qed.

(** Parsing an event allocates its maps; stringifying it gives the text back. *)
Lemma fromJSON_run (j : JsonEvent) s :
  ∃ e ext,
    fromJSON j s =
      (Ok e, mkSt (this s) (with_heap (heap (world s) ++ ext) (world s))) ∧
    event_in_heap (heap (world s) ++ ext) e ∧
    toJSON (heap (world s) ++ ext) e = j.
Proof.
  unfold fromJSON. unfold bind at 1.
  destruct (parse_map_run (je_metadata j) s) as (lm & ext1 & -> & Hm & Hlm).
  unfold bind at 1.
  match goal with
  | |- context [parse_map (je_tags j) ?s1] =>
      destruct (parse_map_run (je_tags j) s1) as (lt & ext2 & -> & Ht & Hlt)
  end.
  cbn [this world heap with_heap] in *.
  exists {| ev_appId := je_appId j; ev_commitHash := je_commitHash j;
            ev_environment := je_environment j; ev_level := je_level j;
            ev_message := je_message j; ev_stackTrace := je_stackTrace j;
            ev_metadata := lm; ev_sourceContext := je_sourceContext j;
            ev_userAgent := je_userAgent j; ev_timestamp := je_timestamp j;
            ev_tags := lt; ev_user := je_user j |}, (ext1 ++ ext2).
  rewrite app_assoc. split; [done |]. split.
  - split; cbn; intros l Hl.
    + by apply Hlt.
    + specialize (Hlm l Hl). rewrite length_app. lia.
  - unfold toJSON. cbn. destruct j; cbn in *. f_equal.
    + specialize (Hm (ext2 ++ [])). rewrite app_nil_r in Hm.
      by rewrite <- app_assoc.
    + specialize (Ht []). by rewrite !app_nil_r in Ht.
Qed.

Lemma JSON_parse_events_run (data : list JsonEvent) s :
  ∃ events ext,
    JSON_parse_events data s =
      (Ok events, mkSt (this s) (with_heap (heap (world s) ++ ext) (world s))) ∧
    Forall (event_in_heap (heap (world s) ++ ext)) events ∧
    map (toJSON (heap (world s) ++ ext)) events = data.
Proof.
  revert s. induction data as [| j rest IH]; intros s; cbn [JSON_parse_events].
  - exists [], []. split; [| done].
    unfold ret. rewrite app_nil_r. by destruct s as [c []].
  - unfold bind at 1.
    destruct (fromJSON_run j s) as (e & ext1 & -> & He & Hj).
    unfold bind at 1.
    match goal with
    | |- context [JSON_parse_events rest ?s1] =>
        destruct (IH s1) as (events & ext2 & -> & Hall & Hmap)
    end.
    cbn [this world heap with_heap] in *.
    exists (e :: events), (ext1 ++ ext2). rewrite app_assoc.
    split; [done |]. split.
    + constructor; [by apply event_in_heap_app | done].
    + cbn. rewrite toJSON_app by done. by rewrite Hj, Hmap.
Qed.

(** [get()] never throws; on a storage that can be read it returns the stored
    events as new objects. *)
Lemma QueueStorage_get_run s :
  ∃ events ext,
    QueueStorage.get s =
      (Ok events, mkSt (this s) (with_heap (heap (world s) ++ ext) (world s))) ∧
    Forall (event_in_heap (heap (world s) ++ ext)) events ∧
    (ls_getItem_throws (world s) = false →
     map (toJSON (heap (world s) ++ ext)) events = stored_queue (world s)).
Proof.
  unfold QueueStorage.get, try_catch, localStorage_getItem, stored_queue.
  unfold bind at 1. unfold bind at 1. unfold get_world at 1. cbn [this world].
  destruct (ls_getItem_throws (world s)).
  - exists [], []. unfold throw, ret. rewrite app_nil_r.
    split; [by destruct s as [c []] | done].
  - unfold ret at 1. destruct (ls_item (world s)) as [data |].
    + destruct (JSON_parse_events_run data s) as (events & ext & -> & Hall & Hmap).
      exists events, ext. done.
    + exists [], []. unfold ret. rewrite app_nil_r.
      split; [by destruct s as [c []] | done].
Qed.

(** [set(events)] never throws; unless the storage refuses, the entry becomes
    the JSON text of the events. *)
Lemma QueueStorage_set_run (events : list ErrorEvent) s :
  QueueStorage.set events s =
  (Ok tt,
   mkSt (this s)
     (if ls_setItem_throws (world s) (map (toJSON (heap (world s))) events)
      then world s
      else with_ls_item (Some (map (toJSON (heap (world s))) events)) (world s))).
Proof.
  unfold QueueStorage.set, try_catch, JSON_stringify_events,
    localStorage_setItem, bind, get_world, put_world, throw, ret.
  cbn [this world].
  destruct (ls_setItem_throws (world s) _); [by destruct s |done].
Qed.

End QueueStorageFacts.

(* ===================================================================== *)
(** ** Enqueueing                                                         *)
(* ===================================================================== *)

Section Enqueue.

Implicit Types (s : St BrowserClient.BrowserClient) (w : World) (e : ErrorEvent).

Lemma map_tail {A B} (f : A → B) (l : list A) : map f (tail l) = tail (map f l).
Proof. by destruct l. Qed.

(** [enqueue] never throws, whatever the storage does. *)
Lemma enqueue_run e s :
  ∃ w' ext,
    BrowserClient.enqueue e s = (Ok tt, mkSt (this s) w') ∧
    same_but_queue (world s) w' ∧
    heap w' = heap (world s) ++ ext ∧
    (reliable_storage (world s) → event_in_heap (heap (world s)) e →
     ls_item w' = Some (evict (stored_queue (world s)) ++ [toJSON (heap (world s)) e])).
Proof.
  unfold BrowserClient.enqueue. unfold bind at 1.
  destruct (QueueStorage_get_run s) as (events & ext & -> & Hall & Hmap).
  rewrite QueueStorage_set_run. cbn [this world heap with_heap].
  set (h1 := heap (world s) ++ ext) in *.
  set (events' := (if (MAX_QUEUE_SIZE <=? length events)%nat
                   then tail events else events) ++ [e]).
  destruct (ls_setItem_throws (with_heap h1 (world s)) (map (toJSON h1) events'))
    eqn:Hthrows.
  - eexists _, ext. split; [done |]. split; [done |]. split; [done |].
    intros [_ Hset] _. cbn in Hthrows. by rewrite Hset in Hthrows.
  - eexists _, ext. split; [done |]. split; [done |]. split; [done |].
    intros [Hget _] He. cbn [ls_item with_ls_item]. f_equal.
    specialize (Hmap Hget). unfold events', evict.
    rewrite map_app. cbn [map]. unfold h1 at 2. rewrite toJSON_app by done.
    f_equal. rewrite <- Hmap. rewrite length_map.
    destruct (MAX_QUEUE_SIZE <=? length events)%nat; [apply map_tail | done].
Qed.

Lemma reliable_storage_same w w' :
  same_but_queue w w' → reliable_storage w → reliable_storage w'.
Proof.
  intros Hs [Hg Hset]. apply same_but_queue_fields in Hs as (_ & _ & _ & _ & Hg' & Hs' & _).
  split; [congruence |]. intros data. by rewrite <- Hs'.
Qed.

Lemma enqueue_all_run (events : list ErrorEvent) s :
  reliable_storage (world s) →
  Forall (event_in_heap (heap (world s))) events →
  ∃ w',
    enqueue_all events s = (Ok tt, mkSt (this s) w') ∧
    same_but_queue (world s) w' ∧
    stored_queue w' =
      fifo (stored_queue (world s)) (map (toJSON (heap (world s))) events).
Proof.
  revert s. induction events as [| e rest IH]; intros s Hrel Hall.
  - exists (world s). by destruct s.
  - cbn [enqueue_all]. unfold bind.
    apply Forall_cons in Hall as [He Hrest].
    destruct (enqueue_run e s) as (w1 & ext & -> & Hsame & Hheap & Hitem).
    specialize (Hitem Hrel He).
    destruct (IH (mkSt (this s) w1)) as (w' & -> & Hsame' & Hq).
    + by apply (reliable_storage_same (world s)).
    + cbn [world]. rewrite Hheap.
      eapply Forall_impl; [exact Hrest |]. intros e'. apply event_in_heap_app.
    + exists w'. split; [done |]. split.
      * by apply (same_but_queue_trans _ w1).
      * rewrite Hq. cbn [world this].
        assert (stored_queue w1 =
                evict (stored_queue (world s)) ++ [toJSON (heap (world s)) e]) as ->
          by (unfold stored_queue at 1; by rewrite Hitem).
        assert (map (toJSON (heap w1)) rest = map (toJSON (heap (world s))) rest) as ->.
        { rewrite Hheap. apply map_ext_Forall.
          eapply Forall_impl; [exact Hrest |].
          intros e' He'. by apply toJSON_app. }
        done.
Qed.

(** A queue that starts within its capacity keeps the newest entries, in the
    order they were pushed. *)
Lemma fifo_drop (q new : list JsonEvent) :
  (length q ≤ MAX_QUEUE_SIZE)%nat →
  fifo q new = drop (length (q ++ new) - MAX_QUEUE_SIZE) (q ++ new).
Proof.
  unfold fifo. revert q. induction new as [| j new IH]; intros q Hq.
  - cbn. rewrite app_nil_r. replace (length q - MAX_QUEUE_SIZE)%nat with 0%nat by lia.
    done.
  - cbn [fold_left]. unfold evict.
    destruct (MAX_QUEUE_SIZE <=? length q)%nat eqn:Hfull.
    + apply Nat.leb_le in Hfull.
      destruct q as [| j0 q']; [cbn in Hfull; unfold MAX_QUEUE_SIZE in Hfull; lia |].
      cbn [tail]. cbn [length] in *.
      rewrite IH by (rewrite length_app; cbn; lia).
      rewrite <- !app_assoc. cbn [app].
      rewrite !length_app. cbn [length]. rewrite !length_app. cbn [length].
      replace (S (length q' + S (length new)) - MAX_QUEUE_SIZE)%nat
        with (S (length q' + S (length new) - MAX_QUEUE_SIZE))%nat by lia.
      done.
    + apply Nat.leb_gt in Hfull.
      rewrite IH by (rewrite length_app; cbn; lia).
      by rewrite <- !app_assoc.
Qed.

End Enqueue.

Lemma last_map {A B} (f : A → B) (l : list A) : last (map f l) = f <$> last l.
Proof.
  induction l as [| x [| y l] IH]; [done | done |].
  change (last (map f (y :: l)) = f <$> last (y :: l)). exact IH.
Qed.

(** C8, amended.  Starting from an empty queue on a storage that works, 101
    calls of [enqueue] leave exactly 100 entries: the events from the second
    to the 101st, in the order they were enqueued, the 101st last; the first
    event is gone (none of the entries is its JSON form when the 101 forms
    are pairwise distinct).  And [enqueue] returns normally when the
    persistence layer fails: whether or not [getItem] and [setItem] throw, on
    an entry that is absent or an array of events, and on an entry whose text
    is not JSON. *)
Theorem queue_fifo_eviction
    (c : BrowserClient.BrowserClient) (w : World) (events : list ErrorEvent) :
  reliable_storage w →
  stored_queue w = [] →
  length events = 101%nat →
  Forall (event_in_heap (heap w)) events →
  (∃ w',
     enqueue_all events (mkSt c w) = (Ok tt, mkSt c w') ∧
     stored_queue w' = map (toJSON (heap w)) (tail events) ∧
     length (stored_queue w') = 100%nat ∧
     last (stored_queue w') = toJSON (heap w) <$> last events ∧
     (NoDup (map (toJSON (heap w)) events) →
      ∀ e, head events = Some e → toJSON (heap w) e ∉ stored_queue w')) ∧
  (∀ e s, ∃ w1, BrowserClient.enqueue e s = (Ok tt, mkSt (this s) w1)) ∧
  (∀ e s, ∃ w1,
     BrowserClient.enqueue_foreign NotJson e s = (Ok tt, mkSt (this s) w1)).
Proof.
  intros Hrel Hempty Hlen Hall. split; [| split].
  - destruct (enqueue_all_run events (mkSt c w) Hrel Hall) as (w' & Hrun & _ & Hq).
    cbn [this world] in *. exists w'. split; [done |].
    rewrite Hempty in Hq. rewrite fifo_drop in Hq by (cbn; lia).
    cbn [app] in Hq. rewrite length_map, Hlen in Hq.
    change (101 - MAX_QUEUE_SIZE)%nat with 1%nat in Hq.
    destruct events as [| e0 rest]; [done |].
    cbn [map drop tail] in *. rewrite drop_0 in Hq. rewrite Hq.
    injection Hlen as Hlen.
    split; [done |]. split; [by rewrite length_map |]. split.
    + rewrite last_map. destruct rest; [done | done].
    + intros Hnd e [= <-]. apply NoDup_cons in Hnd as [Hnot _]. exact Hnot.
  - intros e s. destruct (enqueue_run e s) as (w1 & _ & -> & _). eauto.
  - intros e s. unfold BrowserClient.enqueue_foreign. unfold bind at 1.
    assert (QueueStorage.get_foreign NotJson s = (Ok (Some []), s)) as ->.
    { unfold QueueStorage.get_foreign, try_catch, bind, get_world, throw, ret.
      cbn [this world]. destruct (ls_getItem_throws (world s)); by destruct s. }
    cbn [length app]. rewrite QueueStorage_set_run. eauto.
Qed.

Lemma queue_fifo_eviction_witness :
  reliable_storage sample_client_world ∧
  stored_queue sample_client_world = [] ∧
  length (numbered_events 101) = 101%nat ∧
  Forall (event_in_heap (heap sample_client_world)) (numbered_events 101) ∧
  (∃ w',
     enqueue_all (numbered_events 101) (mkSt sample_client sample_client_world)
     = (Ok tt, mkSt sample_client w') ∧
     stored_queue w' =
       map (toJSON (heap sample_client_world)) (tail (numbered_events 101)) ∧
     length (stored_queue w') = 100%nat ∧
     last (stored_queue w') =
       toJSON (heap sample_client_world) <$> last (numbered_events 101) ∧
     (NoDup (map (toJSON (heap sample_client_world)) (numbered_events 101)) →
      ∀ e, head (numbered_events 101) = Some e →
           toJSON (heap sample_client_world) e ∉ stored_queue w')) ∧
  (∀ e s, ∃ w1, BrowserClient.enqueue e s = (Ok tt, mkSt (this s) w1)) ∧
  (∀ e s, ∃ w1,
     BrowserClient.enqueue_foreign NotJson e s = (Ok tt, mkSt (this s) w1)).
Proof.
  assert (reliable_storage sample_client_world) as Hrel by (split; reflexivity).
  assert (Forall (event_in_heap (heap sample_client_world)) (numbered_events 101))
    as Hall.
  { unfold numbered_events. apply Forall_forall. intros e He.
    apply list_elem_of_In, in_map_iff in He as (n & <- & _).
    split; intros l Hl; discriminate Hl. }
  split; [exact Hrel |]. split; [reflexivity |]. split; [reflexivity |].
  split; [exact Hall |].
  apply (queue_fifo_eviction sample_client sample_client_world (numbered_events 101));
    [exact Hrel | reflexivity | reflexivity | exact Hall].
Defined.

(** C8, as stated, fails on an entry that other code wrote.  When the stored
    text is valid JSON but not an array (['null'], ['5'], ['{}']), [get()]
    returns the parsed value and [enqueue], which has no [try] of its own,
    throws a [TypeError]; nothing is stored. *)
Lemma enqueue_throws_on_foreign_entry :
  match
    run (BrowserClient.enqueue_foreign NotAnArray sample_event)
      sample_client sample_client_world
  with
  | (Throw _, s) => this s = sample_client ∧ world s = sample_client_world
  | (Ok _, _) => False
  end.
Proof. vm_compute. repeat split. Qed.


(* ===================================================================== *)
(** ** The beforeSend gate                                                *)
(* ===================================================================== *)

Section Gate.

Implicit Types (hub : BaseHub.BaseHub) (w : World) (event : ErrorEvent).

Lemma same_but_heap_console_trans w1 w2 w3 :
  same_but_heap_console w1 w2 → same_but_heap_console w2 w3 →
  same_but_heap_console w1 w3.
Proof. unfold same_but_heap_console. congruence. Qed.

Lemma same_but_console_weaken w w' :
  same_but_console w w' → same_but_heap_console w w'.
Proof.
  unfold same_but_console, same_but_heap_console. intros H. by rewrite H.
Qed.

Lemma same_but_heap_console_fields w w' :
  same_but_heap_console w w' →
  requests w = requests w' ∧ ls_item w = ls_item w' ∧
  navigator_onLine w = navigator_onLine w' ∧ network w = network w' ∧
  navigator_userAgent w = navigator_userAgent w'.
Proof.
  unfold same_but_heap_console. intros H. repeat split.
  - by apply (f_equal requests) in H.
  - by apply (f_equal ls_item) in H.
  - by apply (f_equal navigator_onLine) in H.
  - by apply (f_equal network) in H.
  - by apply (f_equal navigator_userAgent) in H.
Qed.

Lemma BaseHub_debug_run (message : string) hub w :
  ∃ w', BaseHub.debug message (mkSt hub w) = (Ok tt, mkSt hub w') ∧
        same_but_console w w'.
Proof.
  unfold BaseHub.debug, BaseHub.this_config, bind, get_this, ret. cbn [this world].
  destruct (Config_debug_ok (BaseHub.config hub) message (mkSt hub w))
    as (w' & -> & Hw).
  by exists w'.
Qed.

(** [buildEvent] never throws and touches the heap only. *)
Lemma buildEvent_total message level error hub w :
  ∃ e h', BaseHub.buildEvent message level error (mkSt hub w)
          = (Ok e, mkSt hub (with_heap h' w)).
Proof.
  unfold BaseHub.buildEvent, BaseHub.this_config, BaseHub.this_scope.
  unfold bind at 1 2 3 4 5. unfold get_this at 1 2, ret at 1 2.
  cbn [this world].
  rewrite copy_unless_empty_run. cbn [this world].
  unfold bind at 1. rewrite copy_unless_empty_run. cbn [this world heap with_heap].
  eexists _, _. reflexivity.
Qed.

(** The three ways through [applyBeforeSend]. *)
Lemma applyBeforeSend_no_hook event hub w :
  opt_beforeSend (Config.options (BaseHub.config hub)) = None →
  BaseHub.applyBeforeSend event (mkSt hub w) = (Ok (Some event), mkSt hub w).
Proof.
  intros Hh. unfold BaseHub.applyBeforeSend, BaseHub.this_config, bind, get_this, ret.
  cbn [this world]. by rewrite Hh.
Qed.

Lemma applyBeforeSend_returns (hook : BeforeSend) (r : option ErrorEvent) event hub w :
  opt_beforeSend (Config.options (BaseHub.config hub)) = Some hook →
  hr_outcome (hook event (heap w)) = HookReturns r →
  BaseHub.applyBeforeSend event (mkSt hub w)
  = (Ok r, mkSt hub (with_heap (hr_heap (hook event (heap w))) w)).
Proof.
  intros Hh Hr.
  unfold BaseHub.applyBeforeSend, BaseHub.this_config, BaseHub.run_hook,
    BaseHub.await_hook, try_catch, bind, get_this, get_world, put_world, ret.
  cbn [this world]. rewrite Hh. cbn [this world]. by rewrite Hr.
Qed.

Lemma applyBeforeSend_throws (hook : BeforeSend) (message : string) event hub w :
  opt_beforeSend (Config.options (BaseHub.config hub)) = Some hook →
  hr_outcome (hook event (heap w)) = HookThrows message →
  ∃ w',
    BaseHub.applyBeforeSend event (mkSt hub w)
    = (Ok (Some (hr_event (hook event (heap w)))), mkSt hub w') ∧
    same_but_console (with_heap (hr_heap (hook event (heap w))) w) w'.
Proof.
  intros Hh Hr.
  unfold BaseHub.applyBeforeSend, BaseHub.this_config, BaseHub.run_hook,
    BaseHub.await_hook, try_catch.
  unfold bind at 1. unfold get_this at 1. unfold bind at 1. unfold ret at 1.
  cbn [this world]. rewrite Hh.
  unfold bind at 1. unfold bind at 1. unfold bind at 1.
  unfold get_world, put_world, ret at 1 2. cbn [this world]. rewrite Hr.
  unfold throw. unfold bind.
  destruct (BaseHub_debug_run "beforeSend threw an error" hub
              (with_heap (hr_heap (hook event (heap w))) w)) as (w' & -> & Hw).
  by exists w'.
Qed.

Lemma normalizeError_run {C} (error : Unknown) (s : St C) :
  ∃ err, normalizeError error s = (Ok err, s).
Proof.
  destruct error as [e | text | message reason stack name to_string | to_string];
    cbn [normalizeError]; eauto.
Qed.

End Gate.

Section BrowserGate.

Variable parse : option string → option SourceContext.
Implicit Types (c : BrowserClient.BrowserClient) (w : World) (event : ErrorEvent).

Lemma BrowserClient_set_base_id c : BrowserClient.set_base (BrowserClient.base c) c = c.
Proof. by destruct c. Qed.

Lemma BrowserClient_super_run {A} (m : M BaseHub.BaseHub A) c w
    (r : result A) (w' : World) :
  m (mkSt (BrowserClient.base c) w) = (r, mkSt (BrowserClient.base c) w') →
  BrowserClient.super m (mkSt c w) = (r, mkSt c w').
Proof.
  intros H. unfold BrowserClient.super, zoom. cbn [this world]. rewrite H.
  cbn [this world]. by rewrite BrowserClient_set_base_id.
Qed.

Lemma BrowserClient_debug_run (message : string) c w :
  ∃ w', BrowserClient.debug message (mkSt c w) = (Ok tt, mkSt c w') ∧
        same_but_console w w'.
Proof.
  destruct (BaseHub_debug_run message (BrowserClient.base c) w) as (w' & H & Hw).
  exists w'. split; [| done]. by apply BrowserClient_super_run.
Qed.

Lemma Browser_message_event_run (message : string) (level : ErrorLevel) c w :
  ∃ event w1,
    BrowserClient.message_event message level (mkSt c w) = (Ok event, mkSt c w1) ∧
    same_but_heap_console w w1.
Proof.
  unfold BrowserClient.message_event. unfold bind at 1.
  destruct (buildEvent_total message level None (BrowserClient.base c) w)
    as (e & h' & Hb).
  rewrite (BrowserClient_super_run _ _ _ _ _ Hb).
  unfold bind at 1. unfold get_world at 1. cbn [this world]. unfold bind.
  destruct (BrowserClient_debug_run "Capturing message" c (with_heap h' w))
    as (w1 & -> & Hw).
  eexists _, w1. split; [done |].
  apply (same_but_heap_console_trans _ (with_heap h' w)); [done |].
  by apply same_but_console_weaken.
Qed.

Lemma Browser_exception_event_run (error : Unknown) (level : ErrorLevel) c w :
  ∃ event w1,
    BrowserClient.exception_event parse error level (mkSt c w)
    = (Ok event, mkSt c w1) ∧
    same_but_heap_console w w1.
Proof.
  unfold BrowserClient.exception_event. unfold bind at 1.
  destruct (normalizeError_run error (mkSt c w)) as (err & ->).
  unfold bind at 1.
  destruct (buildEvent_total (err_message err) level (Some err)
              (BrowserClient.base c) w) as (e & h' & Hb).
  rewrite (BrowserClient_super_run _ _ _ _ _ Hb).
  unfold bind at 1. unfold get_world at 1. cbn [this world]. unfold bind.
  destruct (BrowserClient_debug_run "Capturing exception" c (with_heap h' w))
    as (w1 & -> & Hw).
  eexists _, w1. split; [done |].
  apply (same_but_heap_console_trans _ (with_heap h' w)); [done |].
  by apply same_but_console_weaken.
Qed.

(** A hook that returns null: [sendEvent] resolves to null, having issued no
    request and left the queue alone. *)
Lemma Browser_sendEvent_drop (hook : BeforeSend) event c w :
  opt_beforeSend (Config.options (BaseHub.config (BrowserClient.base c))) = Some hook →
  hr_outcome (hook event (heap w)) = HookReturns None →
  ∃ w', BrowserClient.sendEvent event (mkSt c w) = (Ok None, mkSt c w') ∧
        same_but_heap_console w w'.
Proof.
  intros Hh Hr. unfold BrowserClient.sendEvent. unfold bind at 1.
  pose proof (applyBeforeSend_returns hook None event (BrowserClient.base c) w Hh Hr)
    as Ha.
  rewrite (BrowserClient_super_run _ _ _ _ _ Ha). unfold bind.
  destruct (BrowserClient_debug_run "Event dropped by beforeSend" c
              (with_heap (hr_heap (hook event (heap w))) w)) as (w' & -> & Hw).
  exists w'. split; [done |].
  apply (same_but_heap_console_trans _ (with_heap (hr_heap (hook event (heap w))) w));
    [done |].
  by apply same_but_console_weaken.
Qed.

(** A hook that fails, in a browser that is online: [sendEvent] issues one
    request, for the event object handed to the hook, as the hook left it. *)
Lemma Browser_sendEvent_hook_throws (hook : BeforeSend) (message : string) event c w :
  opt_beforeSend (Config.options (BaseHub.config (BrowserClient.base c))) = Some hook →
  hr_outcome (hook event (heap w)) = HookThrows message →
  navigator_onLine w = true →
  ∃ r w',
    BrowserClient.sendEvent event (mkSt c w) = (Ok r, mkSt c w') ∧
    requests w' =
      requests w ++
      [request_for (BaseHub.config (BrowserClient.base c)) (BrowserClient.transport c)
         (hr_heap (hook event (heap w))) (hr_event (hook event (heap w)))].
Proof.
  intros Hh Hr Honline. unfold BrowserClient.sendEvent. unfold bind at 1.
  destruct (applyBeforeSend_throws hook message event (BrowserClient.base c) w Hh Hr)
    as (w1 & Ha & Hw1).
  rewrite (BrowserClient_super_run _ _ _ _ _ Ha).
  apply same_but_console_fields in Hw1
    as (Hheap & Hreq & _ & _ & Hon & _).
  cbn [heap requests navigator_onLine with_heap] in Hheap, Hreq, Hon.
  unfold bind at 1. unfold get_world at 1. cbn [this world].
  rewrite <- Hon, Honline. cbn [negb].
  unfold bind at 1. unfold BrowserClient.transport_send. unfold bind at 1.
  unfold get_this at 1. cbn [this world].
  destruct (FetchTransport_send_run
              (BaseHub.config (BrowserClient.base c)) (BrowserClient.transport c)
              (hr_event (hook event (heap w))) (mkSt c w1)) as (r & ->).
  cbn [this world]. rewrite <- Hheap, <- Hreq.
  destruct (negb (success r)).
  - unfold bind at 1.
    match goal with
    | |- context [BrowserClient.debug ?m (mkSt c ?w2)] =>
        destruct (BrowserClient_debug_run m c w2) as (w3 & -> & Hw3)
    end.
    unfold bind at 1.
    destruct (enqueue_run (hr_event (hook event (heap w))) (mkSt c w3))
      as (w4 & ext & -> & Hw4 & _).
    cbn [this world] in *. eexists _, w4. split; [done |].
    apply same_but_queue_fields in Hw4 as (<- & _).
    apply same_but_console_fields in Hw3 as (_ & <- & _). done.
  - unfold bind at 1.
    match goal with
    | |- context [BrowserClient.debug ?m (mkSt c ?w2)] =>
        destruct (BrowserClient_debug_run m c w2) as (w3 & -> & Hw3)
    end.
    eexists _, w3. split; [done |].
    apply same_but_console_fields in Hw3 as (_ & <- & _). done.
Qed.

(** The same hook in a browser that is offline: no request, the event is
    queued; on a storage that works it is the last entry of the queue. *)
Lemma Browser_sendEvent_hook_throws_offline (hook : BeforeSend) (message : string)
    event c w :
  opt_beforeSend (Config.options (BaseHub.config (BrowserClient.base c))) = Some hook →
  hr_outcome (hook event (heap w)) = HookThrows message →
  navigator_onLine w = false →
  ∃ w',
    BrowserClient.sendEvent event (mkSt c w) = (Ok None, mkSt c w') ∧
    requests w' = requests w ∧
    (reliable_storage w →
     event_in_heap (hr_heap (hook event (heap w))) (hr_event (hook event (heap w))) →
     stored_queue w' =
       evict (stored_queue w) ++
       [toJSON (hr_heap (hook event (heap w))) (hr_event (hook event (heap w)))]).
Proof.
  intros Hh Hr Honline. unfold BrowserClient.sendEvent. unfold bind at 1.
  destruct (applyBeforeSend_throws hook message event (BrowserClient.base c) w Hh Hr)
    as (w1 & Ha & Hw1).
  rewrite (BrowserClient_super_run _ _ _ _ _ Ha).
  apply same_but_console_fields in Hw1
    as (Hheap & Hreq & Hitem & _ & Hon & Hget & Hset & _).
  cbn [heap requests navigator_onLine ls_item ls_getItem_throws ls_setItem_throws
       with_heap] in Hheap, Hreq, Hitem, Hon, Hget, Hset.
  unfold bind at 1. unfold get_world at 1. cbn [this world].
  rewrite <- Hon, Honline. cbn [negb].
  unfold bind at 1.
  destruct (BrowserClient_debug_run "Offline - queueing event" c w1)
    as (w2 & -> & Hw2).
  unfold bind at 1.
  destruct (enqueue_run (hr_event (hook event (heap w))) (mkSt c w2))
    as (w3 & ext & -> & Hw3 & _ & Hq).
  cbn [this world] in *. exists w3. split; [done |].
  apply same_but_queue_fields in Hw3 as (Hreq3 & _).
  apply same_but_console_fields in Hw2
    as (Hheap2 & Hreq2 & Hitem2 & _ & _ & Hget2 & Hset2 & _).
  split; [congruence |].
  intros [Hg Hs] He. unfold stored_queue at 1. rewrite Hq.
  - unfold stored_queue. by rewrite <- Hitem2, <- Hitem, <- Hheap2, <- Hheap.
  - split; [congruence |]. intros data. by rewrite <- Hset2, <- Hset.
  - by rewrite <- Hheap2, <- Hheap.
Qed.

End BrowserGate.

Section NodeGate.

Variable parse : option string → option SourceContext.
Implicit Types (c : NodeClient.NodeClient) (w : World) (event : ErrorEvent).

Lemma NodeClient_set_base_id c : NodeClient.set_base (NodeClient.base c) c = c.
Proof. by destruct c. Qed.

Lemma NodeClient_super_run {A} (m : M BaseHub.BaseHub A) c w
    (r : result A) (w' : World) :
  m (mkSt (NodeClient.base c) w) = (r, mkSt (NodeClient.base c) w') →
  NodeClient.super m (mkSt c w) = (r, mkSt c w').
Proof.
  intros H. unfold NodeClient.super, zoom. cbn [this world]. rewrite H.
  cbn [this world]. by rewrite NodeClient_set_base_id.
Qed.

Lemma NodeClient_debug_run (message : string) c w :
  ∃ w', NodeClient.debug message (mkSt c w) = (Ok tt, mkSt c w') ∧
        same_but_console w w'.
Proof.
  destruct (BaseHub_debug_run message (NodeClient.base c) w) as (w' & H & Hw).
  exists w'. split; [| done]. by apply NodeClient_super_run.
Qed.

Lemma Node_message_event_run (message : string) (level : ErrorLevel) c w :
  ∃ event w1,
    NodeClient.message_event message level (mkSt c w) = (Ok event, mkSt c w1) ∧
    same_but_heap_console w w1.
Proof.
  unfold NodeClient.message_event. unfold bind at 1.
  destruct (buildEvent_total message level None (NodeClient.base c) w)
    as (e & h' & Hb).
  rewrite (NodeClient_super_run _ _ _ _ _ Hb). unfold bind.
  destruct (NodeClient_debug_run "Capturing message" c (with_heap h' w))
    as (w1 & -> & Hw).
  eexists _, w1. split; [done |].
  apply (same_but_heap_console_trans _ (with_heap h' w)); [done |].
  by apply same_but_console_weaken.
Qed.

Lemma Node_exception_event_run (error : Unknown) (level : ErrorLevel) c w :
  ∃ event w1,
    NodeClient.exception_event parse error level (mkSt c w)
    = (Ok event, mkSt c w1) ∧
    same_but_heap_console w w1.
Proof.
  unfold NodeClient.exception_event. unfold bind at 1.
  destruct (normalizeError_run error (mkSt c w)) as (err & ->).
  unfold bind at 1.
  destruct (buildEvent_total (err_message err) level (Some err)
              (NodeClient.base c) w) as (e & h' & Hb).
  rewrite (NodeClient_super_run _ _ _ _ _ Hb). unfold bind.
  destruct (NodeClient_debug_run "Capturing exception" c (with_heap h' w))
    as (w1 & -> & Hw).
  eexists _, w1. split; [done |].
  apply (same_but_heap_console_trans _ (with_heap h' w)); [done |].
  by apply same_but_console_weaken.
Qed.

Lemma Node_sendEvent_drop (hook : BeforeSend) event c w :
  opt_beforeSend (Config.options (BaseHub.config (NodeClient.base c))) = Some hook →
  hr_outcome (hook event (heap w)) = HookReturns None →
  ∃ w', NodeClient.sendEvent event (mkSt c w) = (Ok None, mkSt c w') ∧
        same_but_heap_console w w'.
Proof.
  intros Hh Hr. unfold NodeClient.sendEvent. unfold bind at 1.
  pose proof (applyBeforeSend_returns hook None event (NodeClient.base c) w Hh Hr)
    as Ha.
  rewrite (NodeClient_super_run _ _ _ _ _ Ha). unfold bind.
  destruct (NodeClient_debug_run "Event dropped by beforeSend" c
              (with_heap (hr_heap (hook event (heap w))) w)) as (w' & -> & Hw).
  exists w'. split; [done |].
  apply (same_but_heap_console_trans _ (with_heap (hr_heap (hook event (heap w))) w));
    [done |].
  by apply same_but_console_weaken.
Qed.

End NodeGate.

(** The capture functions wrap "build the event, then [sendEvent]" in
    [safeExecuteAsync]. *)
Lemma capture_drop {C} (build : M C ErrorEvent) (send : ErrorEvent → M C (option string))
    (c : C) (w w1 w' : World) (event : ErrorEvent) :
  build (mkSt c w) = (Ok event, mkSt c w1) →
  send event (mkSt c w1) = (Ok None, mkSt c w') →
  safeExecuteAsync (let* event := build in send event) None (mkSt c w)
  = (Ok None, mkSt c w').
Proof.
  intros Hb Hs. unfold safeExecuteAsync, try_catch, bind. by rewrite Hb, Hs.
Qed.

Lemma browser_client_with_hook_constructed (hook : BeforeSend) :
  run (BrowserClient.new (with_beforeSend hook sample_options)) tt quiet_world
  = (Ok (browser_client_with_hook hook), mkSt tt sample_client_world).
Proof. reflexivity. Qed.

Lemma node_client_with_hook_constructed (hook : BeforeSend) :
  fst (run (NodeClient.new (with_beforeSend hook sample_options)) tt quiet_world)
  = Ok (node_client_with_hook hook).
Proof. reflexivity. Qed.

(** C7.  With a [beforeSend] hook configured, [captureMessage] and
    [captureException] of both clients build their event, and if the hook
    returns null for that event the call resolves to null, no request has
    been issued (the transport was not called) and the stored queue is what
    it was (nothing was enqueued). *)
Theorem beforeSend_drop
    (parse : option string → option SourceContext) (hook : BeforeSend)
    (bc : BrowserClient.BrowserClient) (nc : NodeClient.NodeClient) (w : World)
    (message : string) (error : Unknown) (level : option ErrorLevel) :
  opt_beforeSend (Config.options (BaseHub.config (BrowserClient.base bc))) = Some hook →
  opt_beforeSend (Config.options (BaseHub.config (NodeClient.base nc))) = Some hook →
  (∃ event w1,
     BrowserClient.message_event message (default_level level LWarning) (mkSt bc w)
     = (Ok event, mkSt bc w1) ∧
     (hr_outcome (hook event (heap w1)) = HookReturns None →
      ∃ w', BrowserClient.captureMessage message level (mkSt bc w)
            = (Ok None, mkSt bc w') ∧
            requests w' = requests w ∧ ls_item w' = ls_item w)) ∧
  (∃ event w1,
     BrowserClient.exception_event parse error (default_level level LError) (mkSt bc w)
     = (Ok event, mkSt bc w1) ∧
     (hr_outcome (hook event (heap w1)) = HookReturns None →
      ∃ w', BrowserClient.captureException parse error level (mkSt bc w)
            = (Ok None, mkSt bc w') ∧
            requests w' = requests w ∧ ls_item w' = ls_item w)) ∧
  (∃ event w1,
     NodeClient.message_event message (default_level level LWarning) (mkSt nc w)
     = (Ok event, mkSt nc w1) ∧
     (hr_outcome (hook event (heap w1)) = HookReturns None →
      ∃ w', NodeClient.captureMessage message level (mkSt nc w)
            = (Ok None, mkSt nc w') ∧
            requests w' = requests w ∧ ls_item w' = ls_item w)) ∧
  (∃ event w1,
     NodeClient.exception_event parse error (default_level level LError) (mkSt nc w)
     = (Ok event, mkSt nc w1) ∧
     (hr_outcome (hook event (heap w1)) = HookReturns None →
      ∃ w', NodeClient.captureException parse error level (mkSt nc w)
            = (Ok None, mkSt nc w') ∧
            requests w' = requests w ∧ ls_item w' = ls_item w)).
Proof.
  intros Hb Hn. split; [| split; [| split]].
  - destruct (Browser_message_event_run message (default_level level LWarning) bc w)
      as (event & w1 & Hbuild & Hw1).
    exists event, w1. split; [done |]. intros Hr.
    destruct (Browser_sendEvent_drop hook event bc w1 Hb Hr) as (w' & Hsend & Hw').
    exists w'. split; [by apply (capture_drop _ _ _ _ w1 _ event) |].
    apply same_but_heap_console_fields in Hw1 as (-> & -> & _).
    apply same_but_heap_console_fields in Hw' as (-> & -> & _). done.
  - destruct (Browser_exception_event_run parse error (default_level level LError) bc w)
      as (event & w1 & Hbuild & Hw1).
    exists event, w1. split; [done |]. intros Hr.
    destruct (Browser_sendEvent_drop hook event bc w1 Hb Hr) as (w' & Hsend & Hw').
    exists w'. split; [by apply (capture_drop _ _ _ _ w1 _ event) |].
    apply same_but_heap_console_fields in Hw1 as (-> & -> & _).
    apply same_but_heap_console_fields in Hw' as (-> & -> & _). done.
  - destruct (Node_message_event_run message (default_level level LWarning) nc w)
      as (event & w1 & Hbuild & Hw1).
    exists event, w1. split; [done |]. intros Hr.
    destruct (Node_sendEvent_drop hook event nc w1 Hn Hr) as (w' & Hsend & Hw').
    exists w'. split; [by apply (capture_drop _ _ _ _ w1 _ event) |].
    apply same_but_heap_console_fields in Hw1 as (-> & -> & _).
    apply same_but_heap_console_fields in Hw' as (-> & -> & _). done.
  - destruct (Node_exception_event_run parse error (default_level level LError) nc w)
      as (event & w1 & Hbuild & Hw1).
    exists event, w1. split; [done |]. intros Hr.
    destruct (Node_sendEvent_drop hook event nc w1 Hn Hr) as (w' & Hsend & Hw').
    exists w'. split; [by apply (capture_drop _ _ _ _ w1 _ event) |].
    apply same_but_heap_console_fields in Hw1 as (-> & -> & _).
    apply same_but_heap_console_fields in Hw' as (-> & -> & _). done.
Qed.

Lemma beforeSend_drop_witness :
  opt_beforeSend
    (Config.options (BaseHub.config (BrowserClient.base
                                       (browser_client_with_hook dropping_hook))))
  = Some dropping_hook ∧
  opt_beforeSend
    (Config.options (BaseHub.config (NodeClient.base
                                       (node_client_with_hook dropping_hook))))
  = Some dropping_hook ∧
  BrowserClient.captureMessage "hello" None
    (mkSt (browser_client_with_hook dropping_hook) sample_client_world)
  = (Ok None, mkSt (browser_client_with_hook dropping_hook) sample_client_world) ∧
  ∃ event w1,
    NodeClient.message_event "hello" (default_level None LWarning)
      (mkSt (node_client_with_hook dropping_hook) sample_client_world)
    = (Ok event, mkSt (node_client_with_hook dropping_hook) w1) ∧
    (hr_outcome (dropping_hook event (heap w1)) = HookReturns None →
     ∃ w', NodeClient.captureMessage "hello" None
             (mkSt (node_client_with_hook dropping_hook) sample_client_world)
           = (Ok None, mkSt (node_client_with_hook dropping_hook) w') ∧
           requests w' = requests sample_client_world ∧
           ls_item w' = ls_item sample_client_world).
Proof.
  split; [reflexivity |]. split; [reflexivity |]. split; [reflexivity |].
  apply (beforeSend_drop (fun _ => None) dropping_hook
           (browser_client_with_hook dropping_hook)
           (node_client_with_hook dropping_hook)
           sample_client_world "hello" (UString "boom") None);
    reflexivity.
Defined.

(** C6, amended.  When the configured [beforeSend] hook fails on an event,
    [applyBeforeSend] swallows the failure and yields the event object it
    handed to the hook, in the state the hook left it; that is the original
    event, unmodified, when the hook has assigned neither to the event nor to
    its maps.  The failure does not suppress the event.  In a browser client
    that is online, [sendEvent] then calls the transport with that event: one
    request is issued, with its payload.  In a browser client that is offline,
    [sendEvent] issues no request and queues that event for a later send: on
    a storage that works it becomes the last entry of the stored queue. *)
Theorem beforeSend_failure_tolerance
    (hook : BeforeSend) (message : string) (event : ErrorEvent)
    (c : BrowserClient.BrowserClient) (w : World) :
  opt_beforeSend (Config.options (BaseHub.config (BrowserClient.base c))) = Some hook →
  hr_outcome (hook event (heap w)) = HookThrows message →
  (∃ w1,
     BaseHub.applyBeforeSend event (mkSt (BrowserClient.base c) w)
     = (Ok (Some (hr_event (hook event (heap w)))), mkSt (BrowserClient.base c) w1) ∧
     heap w1 = hr_heap (hook event (heap w)) ∧
     requests w1 = requests w ∧
     ls_item w1 = ls_item w) ∧
  (navigator_onLine w = true →
   ∃ r w',
     BrowserClient.sendEvent event (mkSt c w) = (Ok r, mkSt c w') ∧
     requests w' =
       requests w ++
       [request_for (BaseHub.config (BrowserClient.base c)) (BrowserClient.transport c)
          (hr_heap (hook event (heap w))) (hr_event (hook event (heap w)))]) ∧
  (navigator_onLine w = false →
   ∃ w',
     BrowserClient.sendEvent event (mkSt c w) = (Ok None, mkSt c w') ∧
     requests w' = requests w ∧
     (reliable_storage w →
      event_in_heap (hr_heap (hook event (heap w))) (hr_event (hook event (heap w))) →
      stored_queue w' =
        evict (stored_queue w) ++
        [toJSON (hr_heap (hook event (heap w))) (hr_event (hook event (heap w)))])) ∧
  (hr_event (hook event (heap w)) = event →
   hr_heap (hook event (heap w)) = heap w →
   (∃ w1,
      BaseHub.applyBeforeSend event (mkSt (BrowserClient.base c) w)
      = (Ok (Some event), mkSt (BrowserClient.base c) w1)) ∧
   (navigator_onLine w = true →
    ∃ r w',
      BrowserClient.sendEvent event (mkSt c w) = (Ok r, mkSt c w') ∧
      requests w' =
        requests w ++
        [request_for (BaseHub.config (BrowserClient.base c))
           (BrowserClient.transport c) (heap w) event]) ∧
   (navigator_onLine w = false →
    ∃ w',
      BrowserClient.sendEvent event (mkSt c w) = (Ok None, mkSt c w') ∧
      requests w' = requests w ∧
      (reliable_storage w → event_in_heap (heap w) event →
       stored_queue w' = evict (stored_queue w) ++ [toJSON (heap w) event]))).
Proof.
  intros Hh Hr.
  destruct (applyBeforeSend_throws hook message event (BrowserClient.base c) w Hh Hr)
    as (w1 & Ha & Hw1).
  apply same_but_console_fields in Hw1 as (Hheap & Hreq1 & Hitem1 & _).
  cbn [heap requests ls_item with_heap] in Hheap, Hreq1, Hitem1.
  pose proof (Browser_sendEvent_hook_throws hook message event c w Hh Hr) as Hon.
  pose proof (Browser_sendEvent_hook_throws_offline hook message event c w Hh Hr)
    as Hoff.
  split; [| split; [| split]].
  - exists w1. by rewrite Ha.
  - exact Hon.
  - exact Hoff.
  - intros He Hhp. rewrite He, Hhp in Hon, Hoff. split; [| split].
    + exists w1. by rewrite Ha, He.
    + exact Hon.
    + exact Hoff.
Qed.

Lemma beforeSend_failure_tolerance_witness :
  opt_beforeSend
    (Config.options (BaseHub.config (BrowserClient.base
                                       (browser_client_with_hook failing_hook))))
  = Some failing_hook ∧
  hr_outcome (failing_hook sample_event (heap offline_world))
  = HookThrows "hook failed" ∧
  (navigator_onLine offline_world = false →
   ∃ w',
     BrowserClient.sendEvent sample_event
       (mkSt (browser_client_with_hook failing_hook) offline_world)
     = (Ok None, mkSt (browser_client_with_hook failing_hook) w') ∧
     requests w' = requests offline_world ∧
     (reliable_storage offline_world →
      event_in_heap
        (hr_heap (failing_hook sample_event (heap offline_world)))
        (hr_event (failing_hook sample_event (heap offline_world))) →
      stored_queue w' =
        evict (stored_queue offline_world) ++
        [toJSON (hr_heap (failing_hook sample_event (heap offline_world)))
           (hr_event (failing_hook sample_event (heap offline_world)))])).
Proof.
  split; [reflexivity |]. split; [reflexivity |].
  apply (beforeSend_failure_tolerance failing_hook "hook failed" sample_event
           (browser_client_with_hook failing_hook) offline_world);
    reflexivity.
Defined.

(** C6, as stated, fails twice.  In a browser that is offline the event of a
    failing hook is queued and the transport is not called; and a hook that
    assigned to its argument before failing gets the modified event sent, the
    message of the request no longer being that of the built event. *)
Lemma hook_failure_offline_or_after_mutation :
  match
    run (BrowserClient.sendEvent sample_event)
      (browser_client_with_hook failing_hook)
      (with_onLine false sample_client_world)
  with
  | (Ok r, s) =>
      r = None ∧
      requests (world s) = [] ∧
      length <$> ls_item (world s) = Some 1%nat
  | (Throw _, _) => False
  end ∧
  match
    run (BrowserClient.sendEvent sample_event)
      (browser_client_with_hook scrubbing_hook) sample_client_world
  with
  | (Ok r, s) =>
      ev_message sample_event = "hello" ∧
      map (fun q => p_message (req_body q)) (requests (world s)) = ["[scrubbed]"]
  | (Throw _, _) => False
  end ∧
  match
    run (BaseHub.applyBeforeSend sample_event) (hub_with_hook scrubbing_hook)
      sample_client_world
  with
  | (Ok (Some processed), _) => ev_message processed = "[scrubbed]"
  | _ => False
  end.
Proof. vm_compute. repeat split. Qed.

(* ===================================================================== *)
(** ** Draining, in general                                               *)
(* ===================================================================== *)

Section Drain.

Implicit Types (c : BrowserClient.BrowserClient) (w : World).

(** The loop of [flushQueue] hands back at most one event, the one whose send
    failed, and leaves the stored queue and the heap alone. *)
Lemma flush_loop_run (events : list ErrorEvent) c w :
  ∃ remaining w',
    BrowserClient.flush_loop events [] (mkSt c w) = (Ok remaining, mkSt c w') ∧
    (remaining = [] ∨ ∃ e, remaining = [e] ∧ e ∈ events) ∧
    ls_item w' = ls_item w ∧ heap w' = heap w ∧
    ls_setItem_throws w' = ls_setItem_throws w.
Proof.
  revert w. induction events as [| event rest IH]; intros w;
    cbn [BrowserClient.flush_loop].
  - exists [], w. split; [done |]. split; [by left | done].
  - unfold bind at 1. unfold BrowserClient.transport_send. unfold bind at 1.
    unfold get_this at 1. cbn [this world].
    destruct (FetchTransport_send_run
                (BaseHub.config (BrowserClient.base c))
                (BrowserClient.transport c) event (mkSt c w)) as (r & ->).
    cbn [this world].
    destruct (negb (success r)).
    + eexists [event], _. split; [done |]. split; [| done].
      right. exists event. split; [done | by left].
    + unfold bind at 1.
      match goal with
      | |- context [BrowserClient.debug ?m (mkSt c ?w1)] =>
          destruct (BrowserClient_debug_run m c w1) as (w2 & -> & Hw2)
      end.
      apply same_but_console_fields in Hw2
        as (Hh & _ & Hi & _ & _ & _ & Hs & _).
      cbn [heap ls_item ls_setItem_throws with_requests] in Hh, Hi, Hs.
      destruct (IH w2) as (remaining & w' & -> & Hr & Hi' & Hh' & Hs').
      exists remaining, w'. split; [done |]. split.
      * destruct Hr as [-> | (e & -> & He)]; [by left |].
        right. exists e. split; [done | by right].
      * split; [congruence |]. split; congruence.
Qed.

(** A drain that is already running is skipped. *)
Lemma flushQueue_reentrant c w :
  BrowserClient.isProcessingQueue c = true →
  BrowserClient.flushQueue (mkSt c w) = (Ok tt, mkSt c w).
Proof.
  intros H. unfold BrowserClient.flushQueue, bind, get_this. cbn [this world].
  by rewrite H.
Qed.

(** Whatever the queue and the network, [flushQueue] returns, and the queue it
    leaves is either the one it found or holds one event at most. *)
Lemma flushQueue_writes_back_at_most_one c w :
  BrowserClient.isProcessingQueue c = false →
  ∃ w',
    BrowserClient.flushQueue (mkSt c w) = (Ok tt, mkSt c w') ∧
    (ls_item w' = ls_item w ∨
     ∃ data, ls_item w' = Some data ∧ (length data ≤ 1)%nat).
Proof.
  intros Hflag. unfold BrowserClient.flushQueue. unfold bind at 1.
  unfold get_this at 1. cbn [this world]. rewrite Hflag.
  unfold bind at 1. unfold put_this at 1. cbn [this world].
  set (c1 := BrowserClient.set_isProcessingQueue true c).
  assert (BrowserClient.set_isProcessingQueue false c1 = c) as Hback.
  { unfold c1. destruct c. cbn in Hflag. by subst. }
  unfold try_finally. unfold bind at 1.
  destruct (QueueStorage_get_run (mkSt c1 w)) as (events & ext & -> & _ & _).
  cbn [this world]. unfold bind at 1.
  destruct (flush_loop_run events c1 (with_heap (heap w ++ ext) w))
    as (remaining & w1 & -> & Hr & Hi & Hh & Hs).
  cbn [ls_item heap ls_setItem_throws with_heap] in Hi, Hh, Hs.
  destruct (length remaining <? length events)%nat.
  - rewrite QueueStorage_set_run. cbn [this world].
    unfold bind, get_this, put_this. cbn [this world]. rewrite Hback.
    eexists. split; [done |].
    destruct (ls_setItem_throws w1 _); [by left |].
    right. eexists. split; [done |]. rewrite length_map.
    destruct Hr as [-> | (e & -> & _)]; cbn; lia.
  - unfold ret at 1. unfold bind, get_this, put_this. cbn [this world].
    rewrite Hback. exists w1. split; [done | by left].
Qed.

End Drain.

(* ===================================================================== *)
(** ** Transports: what the answer of the network becomes                 *)
(* ===================================================================== *)

Section TransportFacts.

Context {C : Type}.
Implicit Types (c : Config.Config) (t : BaseTransport.BaseTransport)
  (event : ErrorEvent) (s : St C).

Lemma status_ok_spec (status : Z) : status_ok status = true ↔ 200 ≤ status < 300.
Proof. unfold status_ok. rewrite andb_true_iff, Z.leb_le, Z.ltb_lt. done. Qed.

(** The result of [FetchTransport.send], by cases on the outcome. *)
Lemma FetchTransport_send_result c t event s :
  fst (FetchTransport.send c t event s) =
  Ok match next_outcome (world s) with
     | NetError message => failure None message
     | NetTimeout => failure None "Failed to fetch"
     | NetResponse status body =>
         if status_ok status then
           match body with
           | BodyText _ => failure None "SyntaxError: Unexpected token in JSON"
           | BodyJson PNotObject =>
               failure None
                 "TypeError: cannot use 'in' operator to search for 'success'"
           | BodyJson (PObject (Some v) resp_id resp_error) =>
               if truthy v
               then {| success := true; id := resp_id; statusCode := None;
                       error := None |}
               else {| success := false; id := None; statusCode := None;
                       error := resp_error |}
           | BodyJson (PObject None resp_id resp_error) =>
               {| success := false; id := None; statusCode := None;
                  error := resp_error |}
           end
         else failure (Some status) ("HTTP " ++ pretty status)
     end.
Proof.
  unfold FetchTransport.send, FetchTransport.fetch, try_catch, bind, get_world,
    http_request, ret, throw, next_outcome.
  cbn [this world].
  destruct (network (world s) (length (requests (world s))))
    as [message | | status body]; cbn [this world fst]; try done.
  destruct (status_ok status); cbn [negb this world fst]; [| done].
  unfold JSON_parse_body, throw, ret.
  destruct body as [text | parsed]; cbn [this world fst]; [done |].
  unfold BaseTransport.parseResponse, throw, ret.
  destruct parsed as [| [v |] resp_id resp_error]; cbn [this world fst]; try done.
  by destruct (truthy v).
Qed.

(** The result of [NodeTransport.send] once the endpoint has parsed as a URL. *)
Lemma NodeTransport_send_result c (nt : NodeTransport.NodeTransport) event s :
  URL_valid (world s) (BaseTransport.endpoint (NodeTransport.base nt)) = true →
  NodeTransport.send c nt event s =
  (Ok match next_outcome (world s) with
      | NetError message => failure None message
      | NetTimeout => failure None "Request timeout"
      | NetResponse status body =>
          if status_ok status then
            match body with
            | BodyJson (PObject (Some v) resp_id resp_error) =>
                if truthy v
                then {| success := true; id := resp_id; statusCode := None;
                        error := None |}
                else {| success := false; id := None; statusCode := None;
                        error := resp_error |}
            | BodyJson (PObject None resp_id resp_error) =>
                {| success := false; id := None; statusCode := None;
                   error := resp_error |}
            | _ => success_without_id
            end
          else failure (Some status) ("HTTP " ++ pretty status)
      end,
   mkSt (this s)
     (with_requests
        (requests (world s) ++
         [request_for c (NodeTransport.base nt) (heap (world s)) event])
        (world s))).
Proof.
  intros Hurl.
  unfold NodeTransport.send, NodeTransport.new_URL, try_catch, bind, get_world,
    http_request, ret, throw, next_outcome, request_for.
  cbn [this world]. rewrite Hurl. cbn [this world].
  destruct (network (world s) (length (requests (world s))))
    as [message | | status body]; cbn [this world]; try done.
  destruct (status_ok status); cbn [this world]; [| done].
  unfold JSON_parse_body, throw, ret.
  destruct body as [text | parsed]; cbn [this world]; [done |].
  unfold BaseTransport.parseResponse, throw, ret.
  destruct parsed as [| [v |] resp_id resp_error]; cbn [this world]; try done.
  by destruct (truthy v).
Qed.

End TransportFacts.


(** When [FetchTransport.send] succeeds, and with what. *)
Lemma FetchTransport_send_accepts {C} (c : Config.Config)
    (t : BaseTransport.BaseTransport) (event : ErrorEvent) (s : St C) :
  ∃ r,
    FetchTransport.send c t event s =
    (Ok r,
     mkSt (this s)
       (with_requests
          (requests (world s) ++ [request_for c t (heap (world s)) event])
          (world s))) ∧
    (success r = true ↔ ∃ event_id, accepts (next_outcome (world s)) event_id) ∧
    (∀ event_id, accepts (next_outcome (world s)) event_id →
       r = {| success := true; id := event_id; statusCode := None; error := None |}) ∧
    (∀ message, next_outcome (world s) = NetError message →
       r = failure None message).
Proof.
  destruct (FetchTransport_send_run c t event s) as (r & Hrun).
  pose proof (FetchTransport_send_result c t event s) as Hres.
  rewrite Hrun in Hres. cbn [fst] in Hres. injection Hres as ->.
  eexists. split; [exact Hrun |].
  destruct (next_outcome (world s)) as [message | | status body] eqn:Ho.
  - split; [| split].
    + split; [done |]. by intros (? & ? & ? & ? & [=] & _).
    + by intros ? (? & ? & ? & [=] & _).
    + by intros ? [= ->].
  - split; [| split].
    + split; [done |]. by intros (? & ? & ? & ? & [=] & _).
    + by intros ? (? & ? & ? & [=] & _).
    + by intros ? [=].
  - destruct (status_ok status) eqn:Hs.
    + apply status_ok_spec in Hs.
      destruct body as [text | [| [v |] resp_id resp_error]].
      * split; [| split]; [| | done].
        -- split; [done |]. by intros (? & ? & ? & ? & [=] & _).
        -- by intros ? (? & ? & ? & [=] & _).
      * split; [| split]; [| | done].
        -- split; [done |]. by intros (? & ? & ? & ? & [=] & _).
        -- by intros ? (? & ? & ? & [=] & _).
      * destruct (truthy v) eqn:Hv.
        -- split; [| split]; [| | done].
           ++ split; [| done]. intros _. exists resp_id, status, v, resp_error. done.
           ++ by intros ? (? & ? & ? & [= -> -> -> ->] & _).
        -- split; [| split]; [| | done].
           ++ split; [done |].
              intros (? & ? & ? & ? & [= -> -> -> ->] & _ & Hv'). congruence.
           ++ intros ? (? & ? & ? & [= -> -> -> ->] & _ & Hv'). congruence.
      * split; [| split]; [| | done].
        -- split; [done |]. by intros (? & ? & ? & ? & [=] & _).
        -- by intros ? (? & ? & ? & [=] & _).
    + assert (¬ 200 ≤ status < 300) as Hn
        by (intros H; apply status_ok_spec in H; congruence).
      split; [| split]; [| | done].
      * split; [done |]. intros (? & ? & ? & ? & [= -> ->] & H & _). by destruct Hn.
      * intros ? (? & ? & ? & [= -> ->] & H & _). by destruct Hn.
Qed.

(** X2.  [FetchTransport.send] resolves to a success exactly when the answer
    has a 2xx status and a JSON object body whose [success] is truthy; the
    [id] of the result is then the one of the body, and a network failure
    resolves to a failure that carries its message. *)
Theorem FetchTransport_success_iff {C} (c : Config.Config)
    (t : BaseTransport.BaseTransport) (event : ErrorEvent) (s : St C) :
  ∃ r,
    fst (FetchTransport.send c t event s) = Ok r ∧
    (success r = true ↔ ∃ event_id, accepts (next_outcome (world s)) event_id) ∧
    (∀ event_id, accepts (next_outcome (world s)) event_id →
       r = {| success := true; id := event_id; statusCode := None; error := None |}) ∧
    (∀ message, next_outcome (world s) = NetError message →
       r = failure None message).
Proof.
  destruct (FetchTransport_send_accepts c t event s) as (r & Hrun & H).
  exists r. by rewrite Hrun.
Qed.


(** X4.  With an endpoint that parses, [NodeTransport.send] resolves to a
    success exactly when the answer has a 2xx status and its body is not a
    JSON object that lacks a truthy [success]: a body that is not JSON, or
    JSON but not an object, counts as accepted. *)
Theorem NodeTransport_success_iff {C} (c : Config.Config)
    (nt : NodeTransport.NodeTransport) (event : ErrorEvent) (s : St C) :
  URL_valid (world s) (BaseTransport.endpoint (NodeTransport.base nt)) = true →
  ∃ r,
    fst (NodeTransport.send c nt event s) = Ok r ∧
    (success r = true ↔
     ∃ status body,
       next_outcome (world s) = NetResponse status body ∧
       200 ≤ status < 300 ∧
       ∀ resp_success resp_id resp_error,
         body = BodyJson (PObject resp_success resp_id resp_error) →
         ∃ v, resp_success = Some v ∧ truthy v = true) ∧
    (next_outcome (world s) = NetTimeout → r = failure None "Request timeout").
Proof.
  intros Hurl. rewrite (NodeTransport_send_result c nt event s Hurl).
  eexists. split; [reflexivity |].
  destruct (next_outcome (world s)) as [message | | status body] eqn:Ho.
  - split; [| done]. split; [done |]. by intros (? & ? & [=] & _).
  - split; [| done]. split; [done |]. by intros (? & ? & [=] & _).
  - split; [| done].
    destruct (status_ok status) eqn:Hs.
    + apply status_ok_spec in Hs.
      destruct body as [text | [| [v |] resp_id resp_error]].
      * split; [| done]. intros _. exists status, (BodyText text).
        split; [done |]. split; [done |]. by intros.
      * split; [| done]. intros _. exists status, (BodyJson PNotObject).
        split; [done |]. split; [done |]. by intros.
      * destruct (truthy v) eqn:Hv.
        -- split; [| done]. intros _. eexists status, _.
           split; [done |]. split; [done |]. intros ? ? ? [= <- <- <-]. eauto.
        -- split; [done |]. intros (? & ? & [= <- <-] & _ & H).
           destruct (H _ _ _ eq_refl) as (v' & [= <-] & Hv'). congruence.
      * split; [done |]. intros (? & ? & [= <- <-] & _ & H).
        by destruct (H _ _ _ eq_refl) as (v' & [=] & _).
    + assert (¬ 200 ≤ status < 300) as Hn
        by (intros H; apply status_ok_spec in H; congruence).
      split; [done |]. intros (? & ? & [= <- <-] & H & _). by destruct Hn.
Qed.

Lemma NodeTransport_success_iff_witness :
  URL_valid plain_text_world
    (BaseTransport.endpoint (NodeTransport.base sample_node_transport)) = true ∧
  ∃ r,
    fst (NodeTransport.send (BaseHub.config sample_hub) sample_node_transport
           sample_event (mkSt tt plain_text_world)) = Ok r ∧
    (success r = true ↔
     ∃ status body,
       next_outcome plain_text_world = NetResponse status body ∧
       200 ≤ status < 300 ∧
       ∀ resp_success resp_id resp_error,
         body = BodyJson (PObject resp_success resp_id resp_error) →
         ∃ v, resp_success = Some v ∧ truthy v = true) ∧
    (next_outcome plain_text_world = NetTimeout → r = failure None "Request timeout").
Proof.
  split; [reflexivity |].
  apply (NodeTransport_success_iff (BaseHub.config sample_hub) sample_node_transport
           sample_event (mkSt tt plain_text_world)).
  reflexivity.
Defined.

(** X5.  Both transports turn an answer whose status is not 2xx into a
    failure that carries the status code and the text "HTTP <status>",
    whatever the body. *)
Theorem non_2xx_status_is_captured {C} (c : Config.Config)
    (nt : NodeTransport.NodeTransport) (event : ErrorEvent) (s : St C)
    (status : Z) (body : ResponseBody) :
  next_outcome (world s) = NetResponse status body →
  ¬ (200 ≤ status < 300) →
  URL_valid (world s) (BaseTransport.endpoint (NodeTransport.base nt)) = true →
  fst (FetchTransport.send c (NodeTransport.base nt) event s)
  = Ok {| success := false; id := None; statusCode := Some status;
          error := Some ("HTTP " ++ pretty status)%string |} ∧
  fst (NodeTransport.send c nt event s)
  = Ok {| success := false; id := None; statusCode := Some status;
          error := Some ("HTTP " ++ pretty status)%string |}.
Proof.
  intros Ho Hn Hurl.
  assert (status_ok status = false) as Hs.
  { destruct (status_ok status) eqn:H; [| done].
    apply status_ok_spec in H. by destruct Hn. }
  split.
  - rewrite FetchTransport_send_result, Ho, Hs. done.
  - rewrite (NodeTransport_send_result c nt event s Hurl). cbn [fst].
    rewrite Ho, Hs. done.
Qed.

Lemma non_2xx_status_is_captured_witness :
  next_outcome unavailable_world
  = NetResponse 503 (BodyText "Service Unavailable") ∧
  ¬ (200 ≤ 503 < 300) ∧
  URL_valid unavailable_world
    (BaseTransport.endpoint (NodeTransport.base sample_node_transport)) = true ∧
  fst (FetchTransport.send (BaseHub.config sample_hub)
         (NodeTransport.base sample_node_transport) sample_event
         (mkSt tt unavailable_world))
  = Ok {| success := false; id := None; statusCode := Some 503;
          error := Some ("HTTP " ++ pretty 503)%string |} ∧
  fst (NodeTransport.send (BaseHub.config sample_hub) sample_node_transport
         sample_event (mkSt tt unavailable_world))
  = Ok {| success := false; id := None; statusCode := Some 503;
          error := Some ("HTTP " ++ pretty 503)%string |}.
Proof.
  split; [reflexivity |]. split; [lia |]. split; [reflexivity |].
  apply (non_2xx_status_is_captured (BaseHub.config sample_hub)
           sample_node_transport sample_event (mkSt tt unavailable_world)
           503 (BodyText "Service Unavailable")); [reflexivity | lia | reflexivity].
Defined.

(* ===================================================================== *)
(** ** The payload and the endpoint                                       *)
(* ===================================================================== *)

Section PayloadFacts.

Implicit Types (h : Heap) (e : ErrorEvent).

Lemma merged_metadata_empty h e :
  BaseTransport.merged_metadata h e = ∅ ↔
  metadata_or_empty h e = ∅ ∧
  (∀ t, event_tags h e = Some t → t = ∅) ∧
  ev_user e = None.
Proof.
  unfold BaseTransport.merged_metadata, metadata_or_empty, event_metadata, event_tags.
  destruct (ev_user e) as [u |].
  { split; [intros H; by apply insert_non_empty in H | by intros (_ & _ & ?)]. }
  destruct (ev_tags e) as [lt |]; cbn [fmap option_fmap option_map].
  - destruct (0 <? keys_length (deref h lt))%nat eqn:Hk.
    + split; [intros H; by apply insert_non_empty in H |].
      intros (_ & Ht & _). specialize (Ht _ eq_refl).
      apply keys_length_empty in Ht. congruence.
    + apply keys_length_empty in Hk. rewrite fmap_empty_iff.
      destruct (ev_metadata e); cbn; split.
      * intros ->. split; [done |]. split; [by intros ? [= <-] | done].
      * by intros (-> & _).
      * intros _. split; [done |]. split; [by intros ? [= <-] | done].
      * done.
  - rewrite fmap_empty_iff. destruct (ev_metadata e); cbn; split.
    + intros ->. done.
    + by intros (-> & _).
    + done.
    + done.
Qed.

End PayloadFacts.

(** X6.  [buildPayload] leaves [metadata] out of the payload exactly when the
    event carries no extras, no tags (or an empty tags map) and no user. *)
Theorem payload_metadata_omitted_iff (h : Heap) (e : ErrorEvent) :
  p_metadata (BaseTransport.buildPayload h e) = None ↔
  metadata_or_empty h e = ∅ ∧
  (∀ t, event_tags h e = Some t → t = ∅) ∧
  ev_user e = None.
Proof.
  rewrite <- merged_metadata_empty. unfold BaseTransport.buildPayload.
  cbn [p_metadata].
  destruct (0 <? size (BaseTransport.merged_metadata h e))%nat eqn:Hs.
  - apply Nat.ltb_lt in Hs. split; [done |]. intros H. rewrite H in Hs.
    rewrite map_size_empty in Hs. lia.
  - apply Nat.ltb_ge in Hs. split; [| done]. intros _.
    apply map_size_empty_iff. lia.
Qed.

(** X7.  In the [metadata] of the payload the key [tags] holds the tags of the
    event whenever these are not empty, and the key [user] holds its user,
    also when the extras have a key of that name; every other key holds the
    extras value, and is absent when that value is [undefined]. *)
Theorem payload_metadata_entries (h : Heap) (e : ErrorEvent) :
  (∀ t, event_tags h e = Some t → t ≠ ∅ →
     ∃ m, p_metadata (BaseTransport.buildPayload h e) = Some m ∧
          m !! "tags" = Some (MJTags (JSON_stringify_object t))) ∧
  (∀ u, ev_user e = Some u →
     ∃ m, p_metadata (BaseTransport.buildPayload h e) = Some m ∧
          m !! "user" = Some (MJUser u)) ∧
  (∀ m k, p_metadata (BaseTransport.buildPayload h e) = Some m →
     k ≠ "tags" → k ≠ "user" →
     m !! k = MJValue <$> (metadata_or_empty h e !! k ≫= json_of_value)).
Proof.
  assert (∀ m k,
            p_metadata (BaseTransport.buildPayload h e) = Some m →
            m !! k = BaseTransport.merged_metadata h e !! k ≫= json_of_meta)
    as Hlook.
  { intros m k. unfold BaseTransport.buildPayload. cbn [p_metadata].
    destruct (0 <? size _)%nat; [| done]. intros [= <-]. apply lookup_omap. }
  assert (∀ t, event_tags h e = Some t → t ≠ ∅ →
            BaseTransport.merged_metadata h e !! "tags" = Some (MTags t)) as Htags.
  { intros t Ht Hne. unfold BaseTransport.merged_metadata, event_tags in *.
    destruct (ev_tags e) as [l |]; [| done]. injection Ht as <-.
    destruct (0 <? keys_length (deref h l))%nat eqn:Hk;
      [| by apply keys_length_empty in Hk].
    destruct (ev_user e).
    - rewrite lookup_insert_ne by done. apply lookup_insert_eq.
    - apply lookup_insert_eq. }
  assert (∀ u, ev_user e = Some u →
            BaseTransport.merged_metadata h e !! "user" = Some (MUser u)) as Huser.
  { intros u Hu. unfold BaseTransport.merged_metadata. rewrite Hu.
    apply lookup_insert_eq. }
  assert (BaseTransport.merged_metadata h e ≠ ∅ →
          ∃ m, p_metadata (BaseTransport.buildPayload h e) = Some m) as Hsome.
  { intros Hne. unfold BaseTransport.buildPayload. cbn [p_metadata].
    destruct (0 <? size _)%nat eqn:Hs; [eauto |].
    apply Nat.ltb_ge in Hs. destruct Hne. apply map_size_empty_iff. lia. }
  split; [| split].
  - intros t Ht Hne. pose proof (Htags t Ht Hne) as Hl.
    destruct Hsome as [m Hm]; [intros H; by rewrite H in Hl |].
    exists m. split; [done |]. by rewrite (Hlook m _ Hm), Hl.
  - intros u Hu. pose proof (Huser u Hu) as Hl.
    destruct Hsome as [m Hm]; [intros H; by rewrite H in Hl |].
    exists m. split; [done |]. by rewrite (Hlook m _ Hm), Hl.
  - intros m k Hm Hkt Hku. rewrite (Hlook m k Hm).
    unfold BaseTransport.merged_metadata, metadata_or_empty, event_metadata.
    assert (∀ base : gmap string MetaVal,
              (match ev_user e with
               | Some u => <["user" := MUser u]>
                             (match ev_tags e with
                              | Some l =>
                                  if (0 <? keys_length (deref h l))%nat
                                  then <["tags" := MTags (deref h l)]> base
                                  else base
                              | None => base
                              end)
               | None => match ev_tags e with
                         | Some l =>
                             if (0 <? keys_length (deref h l))%nat
                             then <["tags" := MTags (deref h l)]> base
                             else base
                         | None => base
                         end
               end) !! k = base !! k) as Hbase.
    { intros base. destruct (ev_user e), (ev_tags e) as [l |];
        rewrite ?lookup_insert_ne by done; try done;
        destruct (0 <? keys_length (deref h l))%nat;
        rewrite ?lookup_insert_ne by done; done. }
    rewrite Hbase. rewrite lookup_fmap.
    destruct (ev_metadata e) as [l |]; cbn.
    + destruct (deref h l !! k) as [[| j] |]; done.
    + by rewrite lookup_empty.
Qed.

Section EndpointFacts.

Lemma strip_trailing_slash_cons (ch : ascii) (rest : string) :
  rest ≠ EmptyString →
  strip_trailing_slash (String ch rest) = String ch (strip_trailing_slash rest).
Proof. by destruct rest. Qed.

Lemma strip_trailing_slash_app (s : string) :
  strip_trailing_slash (s ++ "/") = s.
Proof.
  induction s as [| ch rest IH]; [done |].
  change (strip_trailing_slash (String ch (rest ++ "/")) = String ch rest).
  rewrite strip_trailing_slash_cons by (by destruct rest).
  by rewrite IH.
Qed.

Lemma strip_trailing_slash_id (s : string) :
  last_char s ≠ Some "/"%char → strip_trailing_slash s = s.
Proof.
  induction s as [| ch rest IH]; [done |].
  destruct rest as [| ch' rest'].
  - cbn. intros H. destruct (Ascii.eqb_spec ch "/"%char); [congruence | done].
  - intros H. change (String ch (strip_trailing_slash (String ch' rest'))
                      = String ch (String ch' rest')).
    f_equal. by apply IH.
Qed.

End EndpointFacts.

(** X8.  The endpoint is the DSN followed by [/api/ingest-error], one slash
    at the end of the DSN being dropped first: a DSN with and without a
    trailing slash give the same endpoint. *)
Theorem endpoint_ignores_trailing_slash (c c' : Config.Config) (dsn : string) :
  last_char dsn ≠ Some "/"%char →
  opt_dsn (Config.options c) = Some (jstr dsn) →
  opt_dsn (Config.options c') = Some (jstr (dsn ++ "/")) →
  BaseTransport.new c
  = Ok {| BaseTransport.endpoint := (dsn ++ "/api/ingest-error")%string |} ∧
  BaseTransport.new c' = BaseTransport.new c.
Proof.
  intros Hlast Hc Hc'. unfold BaseTransport.new. rewrite Hc, Hc'.
  cbn [prop default from_option Datatypes.id jstr].
  by rewrite strip_trailing_slash_app, strip_trailing_slash_id.
Qed.

Lemma endpoint_ignores_trailing_slash_witness :
  last_char "https://x" ≠ Some "/"%char ∧
  BaseTransport.new (BaseHub.config sample_hub)
  = Ok {| BaseTransport.endpoint := "https://x/api/ingest-error" |} ∧
  BaseTransport.new
    {| Config.options :=
         spread_options Config.DEFAULT_OPTIONS
           {| opt_dsn := Some (jstr "https://x/"); opt_appId := Some (jstr "a");
              opt_commitHash := Some (jstr "c1");
              opt_environment := Some (jstr "Production");
              opt_apiKey := None; opt_autoCapture := None; opt_debug := None;
              opt_beforeSend := None; opt_tags := None; opt_user := None |} |}
  = BaseTransport.new (BaseHub.config sample_hub).
Proof.
  split; [by intros [=] |].
  apply (endpoint_ignores_trailing_slash (BaseHub.config sample_hub) _ "https://x");
    [by intros [=] | reflexivity | reflexivity].
Defined.

(* ===================================================================== *)
(** ** The scope mutators, one by one                                     *)
(* ===================================================================== *)

Section ScopeFacts.

Implicit Types (hub : BaseHub.BaseHub) (w : World) (s : St BaseHub.BaseHub).

(** What [buildEvent] snapshots from a well-formed hub. *)
Lemma buildEvent_snapshot message level error hub w :
  hub_wf (mkSt hub w) →
  ∃ e w1,
    BaseHub.buildEvent message level error (mkSt hub w) = (Ok e, mkSt hub w1) ∧
    same_but_heap_console w w1 ∧
    (tags_of (mkSt hub w) ≠ ∅ →
     event_tags (heap w1) e = Some (tags_of (mkSt hub w))) ∧
    (tags_of (mkSt hub w) = ∅ → ev_tags e = None) ∧
    (extras_of (mkSt hub w) ≠ ∅ →
     event_metadata (heap w1) e = Some (extras_of (mkSt hub w))) ∧
    (extras_of (mkSt hub w) = ∅ → ev_metadata e = None) ∧
    ev_user e = scope_user (BaseHub.scope hub) ∧
    ev_stackTrace e = error ≫= err_stack ∧
    ev_timestamp e = Some (clock w).
Proof.
  intros Hwf. rewrite (buildEvent_run _ _ _ _ _ Hwf).
  destruct Hwf as [Ht He]. cbn [this world] in Ht, He.
  unfold tags_of, extras_of, event_tags, event_metadata. cbn [this world].
  set (extras := deref (heap w) (scope_extras (BaseHub.scope hub))).
  set (tags := deref (heap w) (scope_tags (BaseHub.scope hub))).
  eexists _, _. split; [reflexivity |].
  cbn [ev_tags ev_metadata ev_user ev_stackTrace ev_timestamp heap with_heap].
  split; [done |]. split; [| split; [| split; [| split]]]; try done.
  - intros Hne. destruct (copy_ref _ tags) as [l |] eqn:Hl.
    + apply copy_ref_value in Hl as (_ & Hd & _). cbn. by rewrite Hd.
    + unfold copy_ref in Hl.
      destruct (0 <? keys_length tags)%nat eqn:Hk; [done |].
      by apply keys_length_empty in Hk.
  - by intros ->.
  - intros Hne. destruct (copy_ref _ extras) as [l |] eqn:Hl.
    + pose proof Hl as Hl'.
      apply copy_ref_value in Hl as (-> & Hd & _). cbn.
      rewrite heap_with_copy_old; [by rewrite Hd |].
      unfold copy_ref in Hl'. unfold heap_with_copy.
      destruct (0 <? keys_length extras)%nat; [| done].
      rewrite length_extend. lia.
    + unfold copy_ref in Hl.
      destruct (0 <? keys_length extras)%nat eqn:Hk; [done |].
      by apply keys_length_empty in Hk.
  - by intros ->.
Qed.

(** Every scope mutator leaves the world alone but for heap and console. *)
Lemma apply_op_frame (op : ScopeOp) s :
  ∃ s', apply_op op s = (Ok tt, s') ∧
        same_but_heap_console (world s) (world s').
Proof.
  destruct s as [hub w].
  destruct op as [user | key value | tags | key value | extras]; cbn [apply_op].
  - destruct (setUser_run user hub w) as (w' & -> & Hw).
    eexists. split; [done |]. by apply same_but_console_weaken.
  - rewrite setTag_run. eexists. split; done.
  - rewrite setTags_run. eexists. split; done.
  - rewrite setExtra_run. eexists. split; done.
  - rewrite setExtras_run. eexists. split; done.
Qed.

Lemma apply_ops_frame (ops : list ScopeOp) s :
  ∃ s', apply_ops ops s = (Ok tt, s') ∧
        same_but_heap_console (world s) (world s').
Proof.
  revert s. induction ops as [| op ops IH]; intros s; cbn [apply_ops].
  - by exists s.
  - unfold bind. destruct (apply_op_frame op s) as (s1 & -> & H1).
    destruct (IH s1) as (s' & -> & H').
    exists s'. split; [done |]. by apply (same_but_heap_console_trans _ (world s1)).
Qed.

End ScopeFacts.

(** X9.  A tag set with [setTag] under a key other than ['__proto__'], on a
    tags object that takes the assignment (one that the host has not frozen),
    is on every event built afterwards: the tags of the event are the tags the
    scope had, with the key set to the value. *)
Theorem setTag_then_buildEvent
    (key value message : string) (level : ErrorLevel) (error : option JsError)
    (hub : BaseHub.BaseHub) (w : World) :
  key ≠ "__proto__" →
  hub_wf (mkSt hub w) →
  ∃ w1 e w2,
    BaseHub.setTag key value (mkSt hub w) = (Ok tt, mkSt hub w1) ∧
    BaseHub.buildEvent message level error (mkSt hub w1) = (Ok e, mkSt hub w2) ∧
    event_tags (heap w2) e = Some (<[key := jstr value]> (tags_of (mkSt hub w))).
Proof.
  intros Hkey [Ht He]. cbn [this world] in Ht, He. rewrite setTag_run.
  rewrite (assign_other _ _ _ Hkey).
  set (w1 := with_heap _ w).
  assert (hub_wf (mkSt hub w1)) as Hwf1.
  { split; cbn [this world w1 heap with_heap]; by rewrite length_store. }
  assert (tags_of (mkSt hub w1) = <[key := jstr value]> (tags_of (mkSt hub w)))
    as Htags.
  { unfold tags_of. cbn [this world w1 heap with_heap].
    by rewrite deref_store_same. }
  destruct (buildEvent_snapshot message level error hub w1 Hwf1)
    as (e & w2 & Hb & _ & Hsnap & _).
  exists w1, e, w2. split; [done |]. split; [done |].
  rewrite <- Htags. apply Hsnap. rewrite Htags. apply insert_non_empty.
Qed.

Lemma setTag_then_buildEvent_witness :
  "region" ≠ "__proto__" ∧
  hub_wf (mkSt sample_hub tagged_world) ∧
  ∃ w1 e w2,
    BaseHub.setTag "region" "eu" (mkSt sample_hub tagged_world)
    = (Ok tt, mkSt sample_hub w1) ∧
    BaseHub.buildEvent "hello" LWarning None (mkSt sample_hub w1)
    = (Ok e, mkSt sample_hub w2) ∧
    event_tags (heap w2) e
    = Some (<["region" := jstr "eu"]> (tags_of (mkSt sample_hub tagged_world))).
Proof.
  split; [by intros [=] |]. split; [split; simpl; lia |].
  apply (setTag_then_buildEvent "region" "eu" "hello" LWarning None sample_hub
           tagged_world); [by intros [=] | split; simpl; lia].
Defined.

(** X10.  [setTags] merges: afterwards a key of the argument holds the value
    given, every other key holds what it held before; the merge goes into a
    new object, the object that held the tags before is not modified. *)
Theorem setTags_merges (tags : gmap string string) (hub : BaseHub.BaseHub) (w : World) :
  hub_wf (mkSt hub w) →
  ∃ s',
    BaseHub.setTags tags (mkSt hub w) = (Ok tt, s') ∧
    hub_wf s' ∧
    (∀ k, tags_of s' !! k =
          match tags !! k with
          | Some v => Some (jstr v)
          | None => tags_of (mkSt hub w) !! k
          end) ∧
    deref (heap (world s')) (scope_tags (BaseHub.scope hub)) = tags_of (mkSt hub w) ∧
    extras_of s' = extras_of (mkSt hub w).
Proof.
  intros [Ht He]. cbn [this world] in Ht, He. rewrite setTags_run.
  eexists. split; [reflexivity |].
  unfold hub_wf, tags_of, extras_of.
  cbn [this world BaseHub.scope BaseHub.set_scope scope_tags scope_extras heap
       with_heap].
  rewrite length_extend, deref_extend_fresh, !deref_extend_old by done.
  split; [unfold fresh; split; lia |]. split; [| done].
  intros k. unfold spread. rewrite lookup_union, lookup_fmap.
  destruct (tags !! k); cbn; [by destruct (deref _ _ !! k) |].
  by rewrite (left_id_L None _).
Qed.

Lemma setTags_merges_witness :
  hub_wf (mkSt sample_hub tagged_world) ∧
  ∃ s',
    BaseHub.setTags {["region" := "eu"]} (mkSt sample_hub tagged_world)
    = (Ok tt, s') ∧
    hub_wf s' ∧
    (∀ k, tags_of s' !! k =
          match ({["region" := "eu"]} : gmap string string) !! k with
          | Some v => Some (jstr v)
          | None => tags_of (mkSt sample_hub tagged_world) !! k
          end) ∧
    deref (heap (world s')) (scope_tags (BaseHub.scope sample_hub))
    = tags_of (mkSt sample_hub tagged_world) ∧
    extras_of s' = extras_of (mkSt sample_hub tagged_world).
Proof.
  split; [split; simpl; lia |].
  apply (setTags_merges {["region" := "eu"]} sample_hub tagged_world).
  split; simpl; lia.
Defined.

(** X11.  The hub does not copy the [tags] of its options: its scope starts
    with that very object, so [setTag] (under a key other than ['__proto__'],
    and provided the host has not frozen the object) writes into the object
    the host passed to the constructor. *)
Theorem options_tags_are_shared {C} (opts : ErrorTrackerOptions) (l : loc)
    (s : St C) (key value : string) :
  acceptable opts →
  opt_tags opts = Some l →
  (l < length (heap (world s)))%nat →
  key ≠ "__proto__" →
  ∃ hub w1 w2,
    BaseHub.new opts s = (Ok hub, mkSt (this s) w1) ∧
    scope_tags (BaseHub.scope hub) = l ∧
    tags_of (mkSt hub w1) = deref (heap (world s)) l ∧
    BaseHub.setTag key value (mkSt hub w1) = (Ok tt, mkSt hub w2) ∧
    deref (heap w2) l = <[key := jstr value]> (deref (heap (world s)) l).
Proof.
  intros Hacc Hl Hlt Hkey.
  pose proof (Config_new_cases opts) as Hcases.
  unfold BaseHub.new, lift_result. unfold bind at 1.
  destruct (Config.new opts) as [c | message]; [| by destruct Hcases].
  rewrite Hl. unfold bind, ret, alloc. cbn [this world heap with_heap].
  match goal with
  | |- context [Config.debug ?c ?m ?s0] =>
      destruct (Config_debug_ok c m s0) as (w1 & -> & Hw)
  end.
  cbn [this world] in *.
  apply same_but_console_fields in Hw as (Hh & _). cbn [heap with_heap] in Hh.
  eexists _, w1, _. split; [done |]. split; [done |].
  rewrite setTag_run. rewrite (assign_other _ _ _ Hkey). unfold tags_of.
  cbn [this world BaseHub.scope scope_tags heap with_heap].
  rewrite <- Hh. rewrite deref_extend_old by done.
  split; [done |]. split; [done |].
  apply deref_store_same. rewrite length_extend. lia.
Qed.

Lemma options_tags_are_shared_witness :
  acceptable options_with_tags ∧
  opt_tags options_with_tags = Some 0%nat ∧
  (0 < length (heap host_tags_world))%nat ∧
  "region" ≠ "__proto__" ∧
  ∃ hub w1 w2,
    BaseHub.new options_with_tags (mkSt tt host_tags_world)
    = (Ok hub, mkSt tt w1) ∧
    scope_tags (BaseHub.scope hub) = 0%nat ∧
    tags_of (mkSt hub w1) = deref (heap host_tags_world) 0%nat ∧
    BaseHub.setTag "region" "eu" (mkSt hub w1) = (Ok tt, mkSt hub w2) ∧
    deref (heap w2) 0%nat
    = <["region" := jstr "eu"]> (deref (heap host_tags_world) 0%nat).
Proof.
  assert (acceptable options_with_tags) as Hacc.
  { apply validate_after_defaults. reflexivity. }
  split; [exact Hacc |]. split; [reflexivity |]. split; [simpl; lia |].
  split; [by intros [=] |].
  apply (options_tags_are_shared options_with_tags 0%nat (mkSt tt host_tags_world)
           "region" "eu"); [exact Hacc | reflexivity | simpl; lia | by intros [=]].
Defined.

(** X12.  Setting an extra under a key other than ['__proto__'] and then
    setting it to [undefined] leaves the extras as they were, when the key was
    not set before; in between the key holds the value.  (The Express
    middleware brackets a capture this way.) *)
Theorem setExtra_then_clear (key : string) (value : JsValue)
    (hub : BaseHub.BaseHub) (w : World) :
  hub_wf (mkSt hub w) →
  key ≠ "__proto__" →
  value ≠ JUndefined →
  extras_of (mkSt hub w) !! key = None →
  ∃ w1 w2,
    BaseHub.setExtra key value (mkSt hub w) = (Ok tt, mkSt hub w1) ∧
    extras_of (mkSt hub w1) = <[key := value]> (extras_of (mkSt hub w)) ∧
    BaseHub.setExtra key JUndefined (mkSt hub w1) = (Ok tt, mkSt hub w2) ∧
    extras_of (mkSt hub w2) = extras_of (mkSt hub w) ∧
    tags_of (mkSt hub w2) = tags_of (mkSt hub w).
Proof.
  intros [Ht He] Hkey Hv Hnone. cbn [this world] in Ht, He.
  rewrite setExtra_run. rewrite bool_decide_eq_false_2 by done.
  rewrite (assign_other _ _ _ Hkey).
  eexists _, _. split; [reflexivity |].
  rewrite setExtra_run. rewrite bool_decide_eq_true_2 by done.
  unfold extras_of, tags_of in *. cbn [this world heap with_heap] in *.
  rewrite !deref_store_same by (by rewrite ?length_store).
  split; [done |]. split; [reflexivity |].
  cbn [this world heap with_heap].
  rewrite !deref_store_same by (by rewrite ?length_store).
  split; [by apply delete_insert_id |].
  destruct (decide (scope_tags (BaseHub.scope hub) = scope_extras (BaseHub.scope hub)))
    as [Heq | Hne].
  - rewrite Heq. rewrite !deref_store_same by (by rewrite ?length_store).
    by apply delete_insert_id.
  - by rewrite !deref_store_other.
Qed.

Lemma setExtra_then_clear_witness :
  hub_wf (mkSt sample_hub sample_hub_world) ∧
  "request" ≠ "__proto__" ∧
  jstr "req-1" ≠ JUndefined ∧
  extras_of (mkSt sample_hub sample_hub_world) !! "request" = None ∧
  ∃ w1 w2,
    BaseHub.setExtra "request" (jstr "req-1") (mkSt sample_hub sample_hub_world)
    = (Ok tt, mkSt sample_hub w1) ∧
    extras_of (mkSt sample_hub w1)
    = <["request" := jstr "req-1"]> (extras_of (mkSt sample_hub sample_hub_world)) ∧
    BaseHub.setExtra "request" JUndefined (mkSt sample_hub w1)
    = (Ok tt, mkSt sample_hub w2) ∧
    extras_of (mkSt sample_hub w2) = extras_of (mkSt sample_hub sample_hub_world) ∧
    tags_of (mkSt sample_hub w2) = tags_of (mkSt sample_hub sample_hub_world).
Proof.
  split; [split; simpl; lia |]. split; [by intros [=] |].
  split; [by intros [=] |]. split; [reflexivity |].
  apply (setExtra_then_clear "request" (jstr "req-1") sample_hub sample_hub_world);
    [split; simpl; lia | by intros [=] | by intros [=] | reflexivity].
Defined.

(** X13.  [setUser] replaces the user of the scope, null clearing it: the
    next event carries exactly the user given, and tags and extras are not
    touched. *)
Theorem setUser_then_buildEvent (user : option UserInfo) (message : string)
    (level : ErrorLevel) (error : option JsError)
    (hub : BaseHub.BaseHub) (w : World) :
  hub_wf (mkSt hub w) →
  ∃ hub1 w1 e w2,
    BaseHub.setUser user (mkSt hub w) = (Ok tt, mkSt hub1 w1) ∧
    tags_of (mkSt hub1 w1) = tags_of (mkSt hub w) ∧
    extras_of (mkSt hub1 w1) = extras_of (mkSt hub w) ∧
    BaseHub.buildEvent message level error (mkSt hub1 w1) = (Ok e, mkSt hub1 w2) ∧
    ev_user e = user.
Proof.
  intros [Ht He]. cbn [this world] in Ht, He.
  destruct (setUser_run user hub w) as (w1 & Hs & Hw).
  apply same_but_console_fields in Hw as (Hh & _).
  match type of Hs with _ = (_, mkSt ?h _) => set (hub1 := h) in * end.
  assert (hub_wf (mkSt hub1 w1)) as Hwf1.
  { split; cbn [this world hub1 BaseHub.scope BaseHub.set_scope scope_tags
                scope_extras]; by rewrite <- Hh. }
  destruct (buildEvent_snapshot message level error hub1 w1 Hwf1)
    as (e & w2 & Hb & _ & _ & _ & _ & _ & Hu & _).
  exists hub1, w1, e, w2. split; [done |].
  unfold tags_of, extras_of.
  cbn [this world hub1 BaseHub.scope BaseHub.set_scope scope_tags scope_extras].
  rewrite <- Hh. split; [done |]. split; [done |]. split; [done |]. exact Hu.
Qed.

Lemma setUser_then_buildEvent_witness :
  hub_wf (mkSt sample_hub tagged_world) ∧
  ∃ hub1 w1 e w2,
    BaseHub.setUser None (mkSt sample_hub tagged_world) = (Ok tt, mkSt hub1 w1) ∧
    tags_of (mkSt hub1 w1) = tags_of (mkSt sample_hub tagged_world) ∧
    extras_of (mkSt hub1 w1) = extras_of (mkSt sample_hub tagged_world) ∧
    BaseHub.buildEvent "hello" LWarning None (mkSt hub1 w1) = (Ok e, mkSt hub1 w2) ∧
    ev_user e = None.
Proof.
  split; [split; simpl; lia |].
  apply (setUser_then_buildEvent None "hello" LWarning None sample_hub tagged_world).
  split; simpl; lia.
Defined.


(* ===================================================================== *)
(** ** Sending an event                                                   *)
(* ===================================================================== *)

Section SendEvent.

Implicit Types (hub : BaseHub.BaseHub) (c : BrowserClient.BrowserClient)
  (w : World) (event : ErrorEvent).

Lemma same_but_heap_console_storage w w' :
  same_but_heap_console w w' →
  ls_getItem_throws w = ls_getItem_throws w' ∧
  ls_setItem_throws w = ls_setItem_throws w' ∧
  ls_removeItem_throws w = ls_removeItem_throws w' ∧
  listeners w = listeners w' ∧
  URL_valid w = URL_valid w'.
Proof.
  unfold same_but_heap_console. intros H. repeat split.
  - by apply (f_equal ls_getItem_throws) in H.
  - by apply (f_equal ls_setItem_throws) in H.
  - by apply (f_equal ls_removeItem_throws) in H.
  - by apply (f_equal listeners) in H.
  - by apply (f_equal URL_valid) in H.
Qed.

Lemma BaseHub_debug_cases (message : string) hub w :
  ∃ w', BaseHub.debug message (mkSt hub w) = (Ok tt, mkSt hub w') ∧
        same_but_console w w' ∧
        (quiet (BaseHub.config hub) → w' = w).
Proof.
  destruct (truthy (prop (opt_debug (Config.options (BaseHub.config hub))))) eqn:Hd.
  - destruct (BaseHub_debug_run message hub w) as (w' & H & Hw).
    exists w'. split; [done |]. split; [done |]. unfold quiet. congruence.
  - exists w. split; [| done].
    unfold BaseHub.debug, BaseHub.this_config, bind, get_this, ret, Config.debug.
    cbn [this world]. by rewrite Hd.
Qed.

Lemma BrowserClient_debug_cases (message : string) c w :
  ∃ w', BrowserClient.debug message (mkSt c w) = (Ok tt, mkSt c w') ∧
        same_but_console w w' ∧
        (quiet (BaseHub.config (BrowserClient.base c)) → w' = w).
Proof.
  destruct (BaseHub_debug_cases message (BrowserClient.base c) w) as (w' & H & Hw).
  exists w'. split; [| done]. by apply BrowserClient_super_run.
Qed.

(** [applyBeforeSend] never throws, whatever the hook does; it issues no
    request and leaves the storage alone. *)
Lemma applyBeforeSend_total event hub w :
  ∃ r w1,
    BaseHub.applyBeforeSend event (mkSt hub w) = (Ok r, mkSt hub w1) ∧
    same_but_heap_console w w1 ∧
    (quiet (BaseHub.config hub) → console w1 = console w).
Proof.
  destruct (opt_beforeSend (Config.options (BaseHub.config hub))) as [hook |] eqn:Hh.
  - destruct (hr_outcome (hook event (heap w))) as [r | message] eqn:Hr.
    + rewrite (applyBeforeSend_returns hook r event hub w Hh Hr).
      eexists _, _. split; [done |]. split; done.
    + unfold BaseHub.applyBeforeSend, BaseHub.this_config, BaseHub.run_hook,
        BaseHub.await_hook, try_catch.
      unfold bind at 1. unfold get_this at 1. unfold bind at 1. unfold ret at 1.
      cbn [this world]. rewrite Hh.
      unfold bind at 1. unfold bind at 1. unfold bind at 1.
      unfold get_world, put_world, ret at 1 2. cbn [this world]. rewrite Hr.
      unfold throw. unfold bind.
      destruct (BaseHub_debug_cases "beforeSend threw an error" hub
                  (with_heap (hr_heap (hook event (heap w))) w))
        as (w' & -> & Hw & Hq).
      eexists _, w'. split; [done |]. split.
      * apply (same_but_heap_console_trans _
                 (with_heap (hr_heap (hook event (heap w))) w)); [done |].
        by apply same_but_console_weaken.
      * intros Hquiet. by rewrite (Hq Hquiet).
  - rewrite (applyBeforeSend_no_hook event hub w Hh). by exists (Some event), w.
Qed.

(** What [sendEvent] does with an event that came through the hook. *)
Lemma Browser_sendEvent_some event (p : ErrorEvent) c w w1 :
  BaseHub.applyBeforeSend event (mkSt (BrowserClient.base c) w)
  = (Ok (Some p), mkSt (BrowserClient.base c) w1) →
  ∃ r w',
    BrowserClient.sendEvent event (mkSt c w) = (Ok r, mkSt c w') ∧
    (quiet (BaseHub.config (BrowserClient.base c)) → console w' = console w1) ∧
    listeners w' = listeners w1 ∧
    (navigator_onLine w1 = false →
     r = None ∧ requests w' = requests w1 ∧
     (reliable_storage w1 → event_in_heap (heap w1) p →
      ls_item w' = Some (evict (stored_queue w1) ++ [toJSON (heap w1) p]))) ∧
    (navigator_onLine w1 = true →
     requests w' =
       requests w1 ++
       [request_for (BaseHub.config (BrowserClient.base c)) (BrowserClient.transport c)
          (heap w1) p] ∧
     ((∃ event_id, accepts (next_outcome w1) event_id ∧ r = nonempty event_id ∧
                   ls_item w' = ls_item w1) ∨
      ((¬ ∃ event_id, accepts (next_outcome w1) event_id) ∧ r = None ∧
       (reliable_storage w1 → event_in_heap (heap w1) p →
        ls_item w' = Some (evict (stored_queue w1) ++ [toJSON (heap w1) p]))))).
Proof.
  intros Ha. unfold BrowserClient.sendEvent. unfold bind at 1.
  rewrite (BrowserClient_super_run _ _ _ _ _ Ha).
  unfold bind at 1. unfold get_world at 1. cbn [this world].
  destruct (navigator_onLine w1) eqn:Honline; cbn [negb].
  - unfold bind at 1. unfold BrowserClient.transport_send. unfold bind at 1.
    unfold get_this at 1. cbn [this world].
    destruct (FetchTransport_send_accepts
                (BaseHub.config (BrowserClient.base c)) (BrowserClient.transport c)
                p (mkSt c w1)) as (resp & -> & Hsucc & Hid & _).
    cbn [this world] in *.
    destruct (success resp) eqn:Hs; cbn [negb].
    + unfold bind at 1.
      match goal with
      | |- context [BrowserClient.debug ?m (mkSt c ?w2)] =>
          destruct (BrowserClient_debug_cases m c w2) as (w3 & -> & Hw3 & Hq3)
      end.
      apply same_but_console_fields in Hw3
        as (_ & Hreq & Hitem & _ & _ & _ & _ & Hlis & _).
      cbn [requests ls_item listeners with_requests] in Hreq, Hitem, Hlis.
      eexists _, w3. split; [done |].
      split; [intros Hquiet; by rewrite (Hq3 Hquiet) |].
      split; [done |]. split; [done |]. intros _. split; [done |]. left.
      destruct (proj1 Hsucc eq_refl) as (event_id & Hacc).
      exists event_id. split; [done |]. rewrite (Hid _ Hacc). done.
    + unfold bind at 1.
      match goal with
      | |- context [BrowserClient.debug ?m (mkSt c ?w2)] =>
          destruct (BrowserClient_debug_cases m c w2) as (w3 & -> & Hw3 & Hq3)
      end.
      unfold bind at 1.
      destruct (enqueue_run p (mkSt c w3)) as (w4 & ext & -> & Hw4 & _ & Hq).
      cbn [this world] in *.
      apply same_but_queue_fields in Hw4 as (Hreq4 & Hcon4 & _ & _ & _ & _ & Hlis4).
      apply same_but_console_fields in Hw3
        as (Hheap & Hreq & Hitem & _ & _ & Hget & Hset & Hlis & _).
      cbn [heap requests ls_item listeners ls_getItem_throws ls_setItem_throws
           with_requests] in Hheap, Hreq, Hitem, Hget, Hset, Hlis.
      eexists _, w4. split; [done |].
      split; [intros Hquiet; rewrite <- Hcon4; by rewrite (Hq3 Hquiet) |].
      split; [congruence |]. split; [done |]. intros _.
      split; [congruence |]. right.
      split; [intros Hacc; apply Hsucc in Hacc; congruence |]. split; [done |].
      intros [Hg Hst] He. rewrite Hq.
      * unfold stored_queue. by rewrite <- Hitem, <- Hheap.
      * split; [congruence |]. intros data. by rewrite <- Hset.
      * by rewrite <- Hheap.
  - unfold bind at 1.
    destruct (BrowserClient_debug_cases "Offline - queueing event" c w1)
      as (w2 & -> & Hw2 & Hq2).
    unfold bind at 1.
    destruct (enqueue_run p (mkSt c w2)) as (w3 & ext & -> & Hw3 & _ & Hq).
    cbn [this world] in *.
    apply same_but_queue_fields in Hw3 as (Hreq3 & Hcon3 & _ & _ & _ & _ & Hlis3).
    apply same_but_console_fields in Hw2
      as (Hheap & Hreq & Hitem & _ & _ & Hget & Hset & Hlis & _).
    exists None, w3. split; [done |].
    split; [intros Hquiet; rewrite <- Hcon3; by rewrite (Hq2 Hquiet) |].
    split; [congruence |]. split; [| done]. intros _.
    split; [done |]. split; [congruence |].
    intros [Hg Hst] He. rewrite Hq.
    + unfold stored_queue. by rewrite <- Hitem, <- Hheap.
    + split; [congruence |]. intros data. by rewrite <- Hset.
    + by rewrite <- Hheap.
Qed.

End SendEvent.

(** X15.  When the stored entry, if there is one, is an array of events,
    [BrowserClient.sendEvent] never rejects, whatever the hook and the
    network do and whether or not [getItem] and [setItem] throw.  It leaves
    the client object and the installed handlers as they were, issues at most
    one request, none at all when the browser is offline, and prints nothing
    unless [debug] is set. *)
Theorem BrowserClient_sendEvent_total
    (event : ErrorEvent) (c : BrowserClient.BrowserClient) (w : World) :
  ∃ r w',
    BrowserClient.sendEvent event (mkSt c w) = (Ok r, mkSt c w') ∧
    listeners w' = listeners w ∧
    (requests w' = requests w ∨ ∃ q, requests w' = requests w ++ [q]) ∧
    (navigator_onLine w = false → r = None ∧ requests w' = requests w) ∧
    (quiet (BaseHub.config (BrowserClient.base c)) → console w' = console w).
Proof.
  destruct (applyBeforeSend_total event (BrowserClient.base c) w)
    as ([p |] & w1 & Ha & Hw1 & Hc1).
  - destruct (Browser_sendEvent_some event p c w w1 Ha)
      as (r & w' & Hrun & Hcon & Hlis & Hoff & Hon).
    pose proof (same_but_heap_console_fields _ _ Hw1) as (Hreq & _ & Honl & _).
    pose proof (same_but_heap_console_storage _ _ Hw1) as (_ & _ & _ & Hl & _).
    exists r, w'. split; [done |]. split; [congruence |]. split; [| split].
    + destruct (navigator_onLine w1) eqn:Ho.
      * right. destruct (Hon eq_refl) as [-> _]. rewrite Hreq. eauto.
      * left. destruct (Hoff eq_refl) as (_ & -> & _). done.
    + intros Hoffline. rewrite Honl in Hoffline.
      destruct (Hoff Hoffline) as (-> & -> & _). done.
    + intros Hq. rewrite (Hcon Hq). by apply Hc1.
  - unfold BrowserClient.sendEvent. unfold bind at 1.
    rewrite (BrowserClient_super_run _ _ _ _ _ Ha). unfold bind.
    destruct (BrowserClient_debug_cases "Event dropped by beforeSend" c w1)
      as (w' & -> & Hw' & Hq').
    pose proof (same_but_heap_console_fields _ _ Hw1) as (Hreq & _).
    pose proof (same_but_heap_console_storage _ _ Hw1) as (_ & _ & _ & Hl & _).
    apply same_but_console_fields in Hw'
      as (_ & Hreq' & _ & _ & _ & _ & _ & Hl' & _).
    exists None, w'. split; [done |]. split; [congruence |].
    split; [left; congruence |]. split; [split; [done | congruence] |].
    intros Hq. rewrite (Hq' Hq). by apply Hc1.
Qed.



(** X17.  When the hook returns an event, that event is what goes on: online
    the request carries the payload of the returned event, read from the heap
    as the hook left it; offline, on a storage that works, the returned event
    is what is queued. *)
Theorem beforeSend_result_is_sent (hook : BeforeSend)
    (event p : ErrorEvent) (c : BrowserClient.BrowserClient) (w : World) :
  opt_beforeSend (Config.options (BaseHub.config (BrowserClient.base c))) = Some hook →
  hr_outcome (hook event (heap w)) = HookReturns (Some p) →
  ∃ r w',
    BrowserClient.sendEvent event (mkSt c w) = (Ok r, mkSt c w') ∧
    (navigator_onLine w = true →
     requests w' =
       requests w ++
       [request_for (BaseHub.config (BrowserClient.base c)) (BrowserClient.transport c)
          (hr_heap (hook event (heap w))) p]) ∧
    (navigator_onLine w = false →
     reliable_storage w →
     event_in_heap (hr_heap (hook event (heap w))) p →
     requests w' = requests w ∧
     stored_queue w' =
       evict (stored_queue w) ++ [toJSON (hr_heap (hook event (heap w))) p]).
Proof.
  intros Hh Hr.
  pose proof (applyBeforeSend_returns hook (Some p) event (BrowserClient.base c) w Hh Hr)
    as Ha.
  destruct (Browser_sendEvent_some event p c w _ Ha)
    as (r & w' & Hrun & _ & _ & Hoff & Hon).
  cbn [navigator_onLine requests heap with_heap] in Hoff, Hon.
  exists r, w'. split; [done |]. split.
  - intros Ho. by destruct (Hon Ho) as [-> _].
  - intros Ho Hrel He. destruct (Hoff Ho) as (_ & -> & Hq).
    split; [done |]. unfold stored_queue at 1. by rewrite (Hq Hrel He).
Qed.

Lemma beforeSend_result_is_sent_witness :
  opt_beforeSend
    (Config.options
       (BaseHub.config (BrowserClient.base (browser_client_with_hook redacting_hook))))
  = Some redacting_hook ∧
  hr_outcome (redacting_hook sample_event (heap sample_client_world))
  = HookReturns (Some (redact sample_event)) ∧
  ∃ r w',
    BrowserClient.sendEvent sample_event
      (mkSt (browser_client_with_hook redacting_hook) sample_client_world)
    = (Ok r, mkSt (browser_client_with_hook redacting_hook) w') ∧
    (navigator_onLine sample_client_world = true →
     requests w' =
       requests sample_client_world ++
       [request_for
          (BaseHub.config (BrowserClient.base (browser_client_with_hook redacting_hook)))
          (BrowserClient.transport (browser_client_with_hook redacting_hook))
          (hr_heap (redacting_hook sample_event (heap sample_client_world)))
          (redact sample_event)]) ∧
    (navigator_onLine sample_client_world = false →
     reliable_storage sample_client_world →
     event_in_heap (hr_heap (redacting_hook sample_event (heap sample_client_world)))
       (redact sample_event) →
     requests w' = requests sample_client_world ∧
     stored_queue w' =
       evict (stored_queue sample_client_world) ++
       [toJSON (hr_heap (redacting_hook sample_event (heap sample_client_world)))
          (redact sample_event)]).
Proof.
  split; [reflexivity |]. split; [reflexivity |].
  apply (beforeSend_result_is_sent redacting_hook sample_event (redact sample_event)
           (browser_client_with_hook redacting_hook) sample_client_world);
    reflexivity.
Defined.

Section NodeSendEvent.

Implicit Types (c : NodeClient.NodeClient) (w : World) (event : ErrorEvent).

Lemma NodeTransport_send_run {C} (cfg : Config.Config)
    (nt : NodeTransport.NodeTransport) event (s : St C) :
  ∃ r w',
    NodeTransport.send cfg nt event s = (Ok r, mkSt (this s) w') ∧
    (w' = world s ∨
     w' = with_requests
            (requests (world s) ++
             [request_for cfg (NodeTransport.base nt) (heap (world s)) event])
            (world s)).
Proof.
  destruct (URL_valid (world s) (BaseTransport.endpoint (NodeTransport.base nt)))
    eqn:Hurl.
  - rewrite (NodeTransport_send_result cfg nt event s Hurl).
    eexists _, _. split; [reflexivity |]. by right.
  - unfold NodeTransport.send, NodeTransport.new_URL, try_catch, bind, get_world,
      ret, throw. cbn [this world]. rewrite Hurl.
    exists (failure None "Invalid URL"), (world s).
    split; [by destruct s |]. by left.
Qed.

Lemma NodeClient_debug_cases (message : string) c w :
  ∃ w', NodeClient.debug message (mkSt c w) = (Ok tt, mkSt c w') ∧
        same_but_console w w' ∧
        (quiet (BaseHub.config (NodeClient.base c)) → w' = w).
Proof.
  destruct (BaseHub_debug_cases message (NodeClient.base c) w) as (w' & H & Hw).
  exists w'. split; [| done]. by apply NodeClient_super_run.
Qed.

End NodeSendEvent.

(** X18.  [NodeClient.sendEvent] never rejects and has no queue: whatever
    the hook and the network do, it leaves the client, the storage and the
    installed handlers as they were and issues at most one request, so an
    event whose send fails is gone. *)
Theorem NodeClient_sendEvent_never_queues
    (event : ErrorEvent) (c : NodeClient.NodeClient) (w : World) :
  ∃ r w',
    NodeClient.sendEvent event (mkSt c w) = (Ok r, mkSt c w') ∧
    ls_item w' = ls_item w ∧
    listeners w' = listeners w ∧
    (requests w' = requests w ∨ ∃ q, requests w' = requests w ++ [q]) ∧
    (quiet (BaseHub.config (NodeClient.base c)) → console w' = console w).
Proof.
  destruct (applyBeforeSend_total event (NodeClient.base c) w)
    as (p & w1 & Ha & Hw1 & Hc1).
  pose proof (same_but_heap_console_fields _ _ Hw1) as (Hreq & Hitem & _).
  pose proof (same_but_heap_console_storage _ _ Hw1) as (_ & _ & _ & Hl & _).
  unfold NodeClient.sendEvent. unfold bind at 1.
  rewrite (NodeClient_super_run _ _ _ _ _ Ha).
  destruct p as [p |].
  - unfold bind at 1. unfold NodeClient.transport_send. unfold bind at 1.
    unfold get_this at 1. cbn [this world].
    destruct (NodeTransport_send_run (BaseHub.config (NodeClient.base c))
                (NodeClient.transport c) p (mkSt c w1)) as (resp & w2 & -> & Hw2).
    cbn [this world] in Hw2 |- *.
    assert (ls_item w2 = ls_item w1 ∧ listeners w2 = listeners w1 ∧
            console w2 = console w1 ∧
            (requests w2 = requests w1 ∨ ∃ q, requests w2 = requests w1 ++ [q]))
      as (Hi2 & Hl2 & Hc2 & Hr2).
    { destruct Hw2 as [-> | ->]; cbn; eauto 10. }
    destruct (negb (success resp)); unfold bind.
    + match goal with
      | |- context [NodeClient.debug ?m (mkSt c ?w0)] =>
          destruct (NodeClient_debug_cases m c w0) as (w3 & -> & Hw3 & Hq3)
      end.
      apply same_but_console_fields in Hw3
        as (_ & Hreq3 & Hitem3 & _ & _ & _ & _ & Hl3 & _).
      eexists _, w3. split; [done |]. split; [congruence |]. split; [congruence |].
      split; [rewrite <- Hreq3, Hreq; exact Hr2 |].
      intros Hq. rewrite (Hq3 Hq), Hc2. by apply Hc1.
    + match goal with
      | |- context [NodeClient.debug ?m (mkSt c ?w0)] =>
          destruct (NodeClient_debug_cases m c w0) as (w3 & -> & Hw3 & Hq3)
      end.
      apply same_but_console_fields in Hw3
        as (_ & Hreq3 & Hitem3 & _ & _ & _ & _ & Hl3 & _).
      eexists _, w3. split; [done |]. split; [congruence |]. split; [congruence |].
      split; [rewrite <- Hreq3, Hreq; exact Hr2 |].
      intros Hq. rewrite (Hq3 Hq), Hc2. by apply Hc1.
  - unfold bind.
    destruct (NodeClient_debug_cases "Event dropped by beforeSend" c w1)
      as (w3 & -> & Hw3 & Hq3).
    apply same_but_console_fields in Hw3
      as (_ & Hreq3 & Hitem3 & _ & _ & _ & _ & Hl3 & _).
    exists None, w3. split; [done |]. split; [congruence |]. split; [congruence |].
    split; [left; congruence |].
    intros Hq. rewrite (Hq3 Hq). by apply Hc1.
Qed.

(* ===================================================================== *)
(** ** From a capture to the request                                      *)
(* ===================================================================== *)

Section Capture.

Variable parse : option string → option SourceContext.
Implicit Types (hub : BaseHub.BaseHub) (c : BrowserClient.BrowserClient)
  (w : World) (event : ErrorEvent).




End Capture.






(* ===================================================================== *)
(** ** Initialisation                                                     *)
(* ===================================================================== *)

Section Init.

Context {C : Type}.
Implicit Types (opts : ErrorTrackerOptions) (s : St C) (w : World).

(** A constructor of a hub that gets options it cannot accept throws before
    it has done anything. *)
Lemma BaseHub_new_rejects opts :
  ¬ acceptable opts →
  ∃ message,
    message ∈ configuration_errors ∧
    ∀ (D : Type) (s : St D), BaseHub.new opts s = (Throw message, s).
Proof.
  intros Hn. pose proof (Config_new_cases opts) as Hcases.
  destruct (Config.new opts) as [c | message] eqn:Hnew; [by destruct Hcases |].
  exists message. split; [by destruct Hcases |].
  intros D s. unfold BaseHub.new, lift_result, bind. by rewrite Hnew.
Qed.

Lemma NodeClient_new_run opts (dsn : string) s :
  acceptable opts →
  prop (opt_dsn opts) = JV (JStr dsn) →
  (∀ l, opt_tags opts = Some l → (l < length (heap (world s)))%nat) →
  ∃ c w',
    NodeClient.new opts s = (Ok c, mkSt (this s) w') ∧
    Config.options (BaseHub.config (NodeClient.base c))
    = spread_options Config.DEFAULT_OPTIONS opts ∧
    BaseTransport.endpoint (NodeTransport.base (NodeClient.transport c))
    = (strip_trailing_slash dsn ++ "/api/ingest-error")%string ∧
    hub_wf (mkSt (NodeClient.base c) w') ∧
    requests w' = requests (world s) ∧ ls_item w' = ls_item (world s).
Proof.
  intros Hacc Hdsn Htags.
  pose proof (Config_new_cases opts) as Hcases.
  unfold NodeClient.new. unfold bind at 1.
  unfold BaseHub.new, lift_result. unfold bind at 1.
  destruct (Config.new opts) as [cfg | message]; [| by destruct Hcases].
  destruct Hcases as [_ ->].
  set (cfg := {| Config.options := spread_options Config.DEFAULT_OPTIONS opts |}).
  assert (prop (opt_dsn (Config.options cfg)) = JV (JStr dsn)) as Hdsn'.
  { unfold cfg. cbn [Config.options spread_options opt_dsn Config.DEFAULT_OPTIONS].
    unfold prop in *. by destruct (opt_dsn opts). }
  assert (∃ tags h1,
            (match opt_tags opts with
             | Some l => ret l
             | None => alloc ∅
             end) s = (Ok tags, mkSt (this s) (with_heap h1 (world s))) ∧
            (tags < length h1)%nat ∧ (length (heap (world s)) ≤ length h1)%nat)
    as (tags & h1 & Ht & Htl & Hlen).
  { destruct (opt_tags opts) as [l |].
    - exists l, (heap (world s)). split; [by destruct s as [? []] |].
      split; [by apply Htags | done].
    - eexists _, _. split; [reflexivity |]. rewrite length_extend.
      unfold fresh. split; lia. }
  unfold bind at 1. rewrite Ht. unfold bind at 1. unfold alloc at 1.
  cbn [this world heap with_heap]. unfold bind at 1.
  match goal with
  | |- context [Config.debug ?c0 ?m ?s0] =>
      destruct (Config_debug_ok c0 m s0) as (w1 & -> & Hw1)
  end.
  cbn [this world] in *. unfold ret at 1. cbn [this world BaseHub.config].
  unfold NodeTransport.new, BaseTransport.new. rewrite Hdsn'. cbn [this world].
  apply same_but_console_fields in Hw1 as (Hh & Hreq & Hitem & _).
  cbn [heap requests ls_item with_heap] in Hh, Hreq, Hitem.
  assert (hub_wf
            (mkSt {| BaseHub.config := cfg;
                     BaseHub.scope :=
                       {| scope_tags := tags; scope_user := opt_user opts;
                          scope_extras := fresh h1 |};
                     BaseHub.initialized := true |} w1)) as Hwf.
  { split; cbn [this world BaseHub.scope scope_tags scope_extras];
      rewrite <- Hh, length_extend; unfold fresh; lia. }
  destruct (truthy (prop (opt_autoCapture (Config.options cfg)))).
  - unfold bind, modify_world, lift_result. cbn [this world].
    match goal with
    | |- context [Config.debug ?c0 ?m ?s0] =>
        destruct (Config_debug_ok c0 m s0) as (w2 & -> & Hw2)
    end.
    cbn [this world] in *.
    apply same_but_console_fields in Hw2 as (Hh2 & Hreq2 & Hitem2 & _).
    cbn [heap requests ls_item installs with_listeners] in Hh2, Hreq2, Hitem2.
    eexists _, w2. split; [reflexivity |].
    cbn [NodeClient.base NodeClient.transport NodeClient.set_cleanupHandlers
         NodeTransport.base BaseTransport.endpoint BaseHub.config].
    split; [done |]. split; [done |].
    split; [| split; congruence].
    destruct Hwf as [H1 H2]. cbn [this world] in H1, H2.
    split; cbn [this world]; by rewrite <- Hh2.
  - eexists _, w1. split; [reflexivity |].
    cbn [NodeClient.base NodeClient.transport NodeTransport.base
         BaseTransport.endpoint BaseHub.config].
    split; [done |]. split; [done |]. split; [done |]. split; congruence.
Qed.

End Init.

(** X22.  [init] with options that do not pass validation throws one of the
    four configuration errors, in the browser package and in the node
    package alike; the module is left without a client and nothing else has
    happened: no handler installed, no request, no output. *)
Theorem init_rejects_bad_options (opts : ErrorTrackerOptions) (w : World) :
  ¬ acceptable opts →
  ∃ message,
    message ∈ configuration_errors ∧
    Browser.init opts (mkSt None w) = (Throw message, mkSt None w) ∧
    Node.init opts (mkSt None w) = (Throw message, mkSt None w).
Proof.
  intros Hn.
  destruct (BaseHub_new_rejects opts Hn) as (message & Hin & Hb).
  exists message. split; [done |]. split.
  - unfold Browser.init, bind, get_this. cbn [this world].
    unfold BrowserClient.new. unfold bind at 1. by rewrite Hb.
  - unfold Node.init, Node.getGlobalClient, bind, get_this. cbn [this world].
    unfold NodeClient.new. unfold bind at 1. by rewrite Hb.
Qed.

Lemma init_rejects_bad_options_witness :
  ¬ acceptable options_without_dsn ∧
  ∃ message,
    message ∈ configuration_errors ∧
    Browser.init options_without_dsn (mkSt None quiet_world)
    = (Throw message, mkSt None quiet_world) ∧
    Node.init options_without_dsn (mkSt None quiet_world)
    = (Throw message, mkSt None quiet_world).
Proof.
  assert (¬ acceptable options_without_dsn) as Hn
    by (intros [H _]; vm_compute in H; discriminate H).
  split; [exact Hn |].
  apply (init_rejects_bad_options options_without_dsn quiet_world). exact Hn.
Defined.

(** X23.  [init] of the node package with acceptable options whose [dsn] is a
    string installs a client: its configuration is the defaults overridden by
    the options, its endpoint is the [dsn] without a trailing slash followed
    by [/api/ingest-error], and constructing it issues no request.  A second
    [init], whatever its options, only warns: the client stays. *)
Theorem Node_init_once (opts : ErrorTrackerOptions) (dsn : string) (w : World) :
  acceptable opts →
  prop (opt_dsn opts) = JV (JStr dsn) →
  (∀ l, opt_tags opts = Some l → (l < length (heap w))%nat) →
  ∃ c w',
    Node.init opts (mkSt None w) = (Ok tt, mkSt (Some c) w') ∧
    Config.options (BaseHub.config (NodeClient.base c))
    = spread_options Config.DEFAULT_OPTIONS opts ∧
    BaseTransport.endpoint (NodeTransport.base (NodeClient.transport c))
    = (strip_trailing_slash dsn ++ "/api/ingest-error")%string ∧
    hub_wf (mkSt (NodeClient.base c) w') ∧
    requests w' = requests w ∧
    ∀ opts2,
      Node.init opts2 (mkSt (Some c) w')
      = (Ok tt,
         mkSt (Some c) (with_console (console w' ++ [already_initialized_warning]) w')).
Proof.
  intros Hacc Hdsn Htags.
  destruct (NodeClient_new_run opts dsn (mkSt (None : option NodeClient.NodeClient) w) Hacc Hdsn Htags)
    as (c & w' & Hnew & Hcfg & Hend & Hwf & Hreq & _).
  exists c, w'. split.
  { unfold Node.init, Node.getGlobalClient, Node.setGlobalClient, bind, get_this,
      put_this. cbn [this world]. by rewrite Hnew. }
  split; [done |]. split; [done |]. split; [done |]. split; [done |].
  intros opts2. reflexivity.
Qed.

Lemma Node_init_once_witness :
  acceptable sample_options ∧
  prop (opt_dsn sample_options) = JV (JStr "https://x") ∧
  (∀ l, opt_tags sample_options = Some l → (l < length (heap quiet_world))%nat) ∧
  ∃ c w',
    Node.init sample_options (mkSt None quiet_world) = (Ok tt, mkSt (Some c) w') ∧
    Config.options (BaseHub.config (NodeClient.base c))
    = spread_options Config.DEFAULT_OPTIONS sample_options ∧
    BaseTransport.endpoint (NodeTransport.base (NodeClient.transport c))
    = (strip_trailing_slash "https://x" ++ "/api/ingest-error")%string ∧
    hub_wf (mkSt (NodeClient.base c) w') ∧
    requests w' = requests quiet_world ∧
    ∀ opts2,
      Node.init opts2 (mkSt (Some c) w')
      = (Ok tt,
         mkSt (Some c) (with_console (console w' ++ [already_initialized_warning]) w')).
Proof.
  assert (acceptable sample_options) as Hacc
    by (apply validate_after_defaults; reflexivity).
  assert (∀ l, opt_tags sample_options = Some l → (l < length (heap quiet_world))%nat)
    as Htags by (intros l Hl; discriminate Hl).
  split; [exact Hacc |]. split; [reflexivity |]. split; [exact Htags |].
  apply (Node_init_once sample_options "https://x" quiet_world);
    [exact Hacc | reflexivity | exact Htags].
Defined.

(* ===================================================================== *)
(** ** Draining the queue: how far it gets                                *)
(* ===================================================================== *)

Section DrainPrefix.

Implicit Types (c : BrowserClient.BrowserClient) (w : World).

Lemma same_but_console_requests (R R' : list Request) w w1 w2 :
  same_but_console (with_requests R' w) w2 →
  same_but_console (with_requests R w2) w1 →
  same_but_console (with_requests R w) w1.
Proof.
  unfold same_but_console. intros H2 H1. rewrite <- H1.
  change (with_requests R (with_console [] (with_requests R' w))
          = with_requests R (with_console [] w2)).
  by rewrite H2.
Qed.

(** As long as the sends are accepted the loop goes on, one request per
    event, in the order of the queue. *)
Lemma flush_loop_prefix (sent rest : list ErrorEvent) c w :
  (∀ i, (i < length sent)%nat → accepted_at w i) →
  ∃ w1,
    BrowserClient.flush_loop (sent ++ rest) [] (mkSt c w)
    = BrowserClient.flush_loop rest [] (mkSt c w1) ∧
    requests w1 =
      requests w ++
      map (request_for (BaseHub.config (BrowserClient.base c))
             (BrowserClient.transport c) (heap w)) sent ∧
    same_but_console (with_requests (requests w1) w) w1.
Proof.
  revert w. induction sent as [| e sent IH]; intros w Hacc.
  - exists w. split; [done |]. cbn [map]. rewrite app_nil_r. split; [done |].
    by destruct w.
  - cbn [app BrowserClient.flush_loop].
    unfold bind at 1. unfold BrowserClient.transport_send. unfold bind at 1.
    unfold get_this at 1. cbn [this world].
    destruct (FetchTransport_send_accepts
                (BaseHub.config (BrowserClient.base c)) (BrowserClient.transport c)
                e (mkSt c w)) as (resp & -> & Hsucc & _).
    cbn [this world] in *.
    assert (success resp = true) as ->.
    { apply Hsucc. specialize (Hacc 0%nat). unfold accepted_at in Hacc.
      rewrite Nat.add_0_r in Hacc. apply Hacc. cbn. lia. }
    cbn [negb]. unfold bind at 1.
    match goal with
    | |- context [BrowserClient.debug ?m (mkSt c ?w0)] =>
        destruct (BrowserClient_debug_run m c w0) as (w2 & -> & Hw2)
    end.
    pose proof (same_but_console_fields _ _ Hw2) as (Hh & Hreq & _ & Hnet & _).
    cbn [heap requests network with_requests] in Hh, Hreq, Hnet.
    destruct (IH w2) as (w1 & -> & Hreq1 & Hw1).
    { intros i Hi. specialize (Hacc (S i)). unfold accepted_at in *.
      rewrite <- Hnet, <- Hreq. rewrite length_app. cbn [length].
      replace (length (requests w) + 1 + i)%nat
        with (length (requests w) + S i)%nat by lia.
      apply Hacc. cbn. lia. }
    exists w1. split; [done |]. split.
    + rewrite Hreq1, <- Hreq, <- Hh. cbn [map]. by rewrite <- app_assoc.
    + by apply (same_but_console_requests _ _ _ _ _ Hw2).
Qed.

(** [flushQueue], up to what its loop does. *)
Lemma flushQueue_unfold c w :
  BrowserClient.isProcessingQueue c = false →
  ∃ events ext,
    (ls_getItem_throws w = false →
     map (toJSON (heap w ++ ext)) events = stored_queue w) ∧
    ∀ remaining w1,
      BrowserClient.flush_loop events []
        (mkSt (BrowserClient.set_isProcessingQueue true c)
           (with_heap (heap w ++ ext) w))
      = (Ok remaining, mkSt (BrowserClient.set_isProcessingQueue true c) w1) →
      BrowserClient.flushQueue (mkSt c w)
      = (Ok tt,
         mkSt c
           (if (length remaining <? length events)%nat
            then if ls_setItem_throws w1 (map (toJSON (heap w1)) remaining)
                 then w1
                 else with_ls_item (Some (map (toJSON (heap w1)) remaining)) w1
            else w1)).
Proof.
  intros Hflag.
  set (c1 := BrowserClient.set_isProcessingQueue true c).
  assert (BrowserClient.set_isProcessingQueue false c1 = c) as Hback.
  { unfold c1. destruct c. cbn in Hflag. by subst. }
  destruct (QueueStorage_get_run (mkSt c1 w)) as (events & ext & Hget & _ & Hmap).
  cbn [this world] in Hget, Hmap.
  exists events, ext. split; [exact Hmap |].
  intros remaining w1 Hloop.
  unfold BrowserClient.flushQueue. unfold bind at 1.
  unfold get_this at 1. cbn [this world]. rewrite Hflag.
  unfold bind at 1. unfold put_this at 1. cbn [this world]. fold c1.
  unfold try_finally. unfold bind at 1. rewrite Hget.
  unfold bind at 1. rewrite Hloop.
  destruct (length remaining <? length events)%nat.
  - rewrite QueueStorage_set_run. cbn [this world].
    unfold bind, get_this, put_this. cbn [this world]. rewrite Hback.
    by destruct (ls_setItem_throws w1 _).
  - unfold ret at 1. unfold bind, get_this, put_this. cbn [this world].
    by rewrite Hback.
Qed.

Lemma request_messages_app (R : list Request) w :
  request_messages (with_requests R w) = map (fun q => p_message (req_body q)) R.
Proof. done. Qed.

Lemma map_message_toJSON (h : Heap) (events : list ErrorEvent) :
  map ev_message events = map je_message (map (toJSON h) events).
Proof. rewrite map_map. by apply map_ext. Qed.

End DrainPrefix.

(** X24.  When ingestion accepts every send, [flushQueue] empties the queue
    on a storage that works: it issues one request per stored event, in the
    order of the queue, each carrying the message of its event, and leaves
    an empty queue. *)
Theorem flushQueue_drains (c : BrowserClient.BrowserClient) (w : World) :
  BrowserClient.isProcessingQueue c = false →
  reliable_storage w →
  (∀ i, (i < length (stored_queue w))%nat → accepted_at w i) →
  ∃ w',
    BrowserClient.flushQueue (mkSt c w) = (Ok tt, mkSt c w') ∧
    stored_queue w' = [] ∧
    request_messages w' = request_messages w ++ map je_message (stored_queue w).
Proof.
  intros Hflag [Hg Hs] Hacc.
  destruct (flushQueue_unfold c w Hflag) as (events & ext & Hmap & Hrun).
  specialize (Hmap Hg).
  set (c1 := BrowserClient.set_isProcessingQueue true c) in *.
  set (wg := with_heap (heap w ++ ext) w) in *.
  destruct (flush_loop_prefix events [] c1 wg) as (w1 & Hloop & Hreq & Hw1).
  { intros i Hi. apply Hacc. by rewrite <- Hmap, length_map. }
  rewrite app_nil_r in Hloop. cbn [BrowserClient.flush_loop] in Hloop.
  rewrite (Hrun [] w1 Hloop). eexists. split; [reflexivity |].
  pose proof (same_but_console_fields _ _ Hw1) as (_ & _ & Hitem & _ & _ & _ & Hset & _).
  cbn [ls_item ls_setItem_throws with_requests with_heap wg] in Hitem, Hset.
  assert (request_messages w1
          = request_messages w ++ map je_message (stored_queue w)) as Hmsg.
  { unfold request_messages. rewrite Hreq, map_app, map_map. cbn [requests wg with_heap].
    f_equal. rewrite <- Hmap, map_map. by apply map_ext. }
  destruct (length [] <? length events)%nat eqn:Hlen.
  - rewrite <- Hset, Hs. split; [done |]. exact Hmsg.
  - split; [| exact Hmsg].
    apply Nat.ltb_ge in Hlen. cbn in Hlen.
    destruct events; [| cbn in Hlen; lia].
    unfold stored_queue. rewrite <- Hitem. fold (stored_queue w).
    by rewrite <- Hmap.
Qed.

Lemma flushQueue_drains_witness :
  BrowserClient.isProcessingQueue sample_client = false ∧
  reliable_storage (with_network (fun _ => accepted "evt") three_queued_world) ∧
  (∀ i, (i < length (stored_queue
                       (with_network (fun _ => accepted "evt") three_queued_world)))%nat →
        accepted_at (with_network (fun _ => accepted "evt") three_queued_world) i) ∧
  ∃ w',
    BrowserClient.flushQueue
      (mkSt sample_client (with_network (fun _ => accepted "evt") three_queued_world))
    = (Ok tt, mkSt sample_client w') ∧
    stored_queue w' = [] ∧
    request_messages w' =
      request_messages (with_network (fun _ => accepted "evt") three_queued_world) ++
      map je_message
        (stored_queue (with_network (fun _ => accepted "evt") three_queued_world)).
Proof.
  assert (reliable_storage (with_network (fun _ => accepted "evt") three_queued_world))
    as Hrel by (split; reflexivity).
  assert (∀ i,
            (i < length (stored_queue
                           (with_network (fun _ => accepted "evt") three_queued_world)))%nat →
            accepted_at (with_network (fun _ => accepted "evt") three_queued_world) i)
    as Hacc.
  { intros i _. exists (Some "evt"), 200, (JV (JBool true)), None.
    split; [reflexivity |]. split; [lia | reflexivity]. }
  split; [reflexivity |]. split; [exact Hrel |]. split; [exact Hacc |].
  apply (flushQueue_drains sample_client
           (with_network (fun _ => accepted "evt") three_queued_world));
    [reflexivity | exact Hrel | exact Hacc].
Defined.

Section DrainFailure.

Implicit Types (c : BrowserClient.BrowserClient) (w : World).




End DrainFailure.



(* ===================================================================== *)
(** ** The queue: capacity, failing storage, the beacon                   *)
(* ===================================================================== *)

(** X26.  A queue within its capacity stays within it and keeps the newest
    entries: after any number of calls of [enqueue] on a storage that works,
    the queue is the last 100 entries of what was stored followed by the
    events enqueued, in that order; no request is issued. *)
Theorem enqueue_keeps_newest
    (c : BrowserClient.BrowserClient) (w : World) (events : list ErrorEvent) :
  reliable_storage w →
  (length (stored_queue w) ≤ MAX_QUEUE_SIZE)%nat →
  Forall (event_in_heap (heap w)) events →
  ∃ w',
    enqueue_all events (mkSt c w) = (Ok tt, mkSt c w') ∧
    stored_queue w' =
      drop (length (stored_queue w ++ map (toJSON (heap w)) events) - MAX_QUEUE_SIZE)
        (stored_queue w ++ map (toJSON (heap w)) events) ∧
    (length (stored_queue w') ≤ MAX_QUEUE_SIZE)%nat ∧
    requests w' = requests w.
Proof.
  intros Hrel Hlen Hall.
  destruct (enqueue_all_run events (mkSt c w) Hrel Hall) as (w' & Hrun & Hsame & Hq).
  cbn [this world] in *. exists w'. split; [done |].
  rewrite Hq, fifo_drop by done. split; [done |]. split.
  - rewrite length_drop. lia.
  - by apply same_but_queue_fields in Hsame as (<- & _).
Qed.

Lemma enqueue_keeps_newest_witness :
  reliable_storage three_queued_world ∧
  (length (stored_queue three_queued_world) ≤ MAX_QUEUE_SIZE)%nat ∧
  Forall (event_in_heap (heap three_queued_world)) (numbered_events 2) ∧
  ∃ w',
    enqueue_all (numbered_events 2) (mkSt sample_client three_queued_world)
    = (Ok tt, mkSt sample_client w') ∧
    stored_queue w' =
      drop (length (stored_queue three_queued_world ++
                    map (toJSON (heap three_queued_world)) (numbered_events 2))
            - MAX_QUEUE_SIZE)
        (stored_queue three_queued_world ++
         map (toJSON (heap three_queued_world)) (numbered_events 2)) ∧
    (length (stored_queue w') ≤ MAX_QUEUE_SIZE)%nat ∧
    requests w' = requests three_queued_world.
Proof.
  assert (reliable_storage three_queued_world) as Hrel by (split; reflexivity).
  assert ((length (stored_queue three_queued_world) ≤ MAX_QUEUE_SIZE)%nat) as Hlen
    by (vm_compute; lia).
  assert (Forall (event_in_heap (heap three_queued_world)) (numbered_events 2))
    as Hall.
  { unfold numbered_events. apply Forall_forall. intros e He.
    apply list_elem_of_In, in_map_iff in He as (n & <- & _).
    split; intros l Hl; discriminate Hl. }
  split; [exact Hrel |]. split; [exact Hlen |]. split; [exact Hall |].
  apply (enqueue_keeps_newest sample_client three_queued_world (numbered_events 2));
    [exact Hrel | exact Hlen | exact Hall].
Defined.

(** X27.  One call of [enqueue] evicts one entry at most: a stored queue of
    100 entries or more keeps its length, so a queue that is over capacity
    (written by other code under the same key) is never brought back to
    100; a shorter queue grows by one. *)
Theorem enqueue_evicts_one_at_most
    (e : ErrorEvent) (c : BrowserClient.BrowserClient) (w : World) :
  reliable_storage w →
  event_in_heap (heap w) e →
  ∃ w',
    BrowserClient.enqueue e (mkSt c w) = (Ok tt, mkSt c w') ∧
    last (stored_queue w') = Some (toJSON (heap w) e) ∧
    length (stored_queue w') =
      (if (MAX_QUEUE_SIZE <=? length (stored_queue w))%nat
       then length (stored_queue w)
       else S (length (stored_queue w))).
Proof.
  intros Hrel He.
  destruct (enqueue_run e (mkSt c w)) as (w' & ext & Hrun & _ & _ & Hq).
  cbn [this world] in *. specialize (Hq Hrel He).
  exists w'. split; [done |]. unfold stored_queue at 1 2. rewrite Hq.
  cbn [default from_option Datatypes.id]. split; [apply last_snoc |].
  rewrite length_app. cbn [length]. unfold evict.
  destruct (MAX_QUEUE_SIZE <=? length (stored_queue w))%nat eqn:Hfull; [| lia].
  apply Nat.leb_le in Hfull. unfold MAX_QUEUE_SIZE in Hfull.
  destruct (stored_queue w); cbn [tail length] in *; lia.
Qed.

Lemma enqueue_evicts_one_at_most_witness :
  reliable_storage three_queued_world ∧
  event_in_heap (heap three_queued_world) sample_event ∧
  ∃ w',
    BrowserClient.enqueue sample_event (mkSt sample_client three_queued_world)
    = (Ok tt, mkSt sample_client w') ∧
    last (stored_queue w') = Some (toJSON (heap three_queued_world) sample_event) ∧
    length (stored_queue w') =
      (if (MAX_QUEUE_SIZE <=? length (stored_queue three_queued_world))%nat
       then length (stored_queue three_queued_world)
       else S (length (stored_queue three_queued_world))).
Proof.
  assert (reliable_storage three_queued_world) as Hrel by (split; reflexivity).
  assert (event_in_heap (heap three_queued_world) sample_event) as He
    by (split; intros l Hl; discriminate Hl).
  split; [exact Hrel |]. split; [exact He |].
  apply (enqueue_evicts_one_at_most sample_event sample_client three_queued_world);
    [exact Hrel | exact He].
Defined.

(** X28.  A storage that throws on every call is survived in silence: [get]
    gives an empty queue, [set] and [clear] return, [enqueue] returns, and
    none of them changes anything; so an event that [sendEvent] cannot
    deliver while offline is lost without a trace. *)
Theorem broken_storage_is_survived
    (e : ErrorEvent) (events : list ErrorEvent)
    (c : BrowserClient.BrowserClient) (w : World) :
  broken_storage w →
  QueueStorage.get (mkSt c w) = (Ok [], mkSt c w) ∧
  QueueStorage.set events (mkSt c w) = (Ok tt, mkSt c w) ∧
  QueueStorage.clear (mkSt c w) = (Ok tt, mkSt c w) ∧
  BrowserClient.enqueue e (mkSt c w) = (Ok tt, mkSt c w) ∧
  (opt_beforeSend (Config.options (BaseHub.config (BrowserClient.base c))) = None →
   quiet (BaseHub.config (BrowserClient.base c)) →
   navigator_onLine w = false →
   BrowserClient.sendEvent e (mkSt c w) = (Ok None, mkSt c w)).
Proof.
  intros (Hg & Hs & Hr).
  assert (QueueStorage.get (mkSt c w) = (Ok [], mkSt c w)) as Hget.
  { unfold QueueStorage.get, try_catch, localStorage_getItem, bind, get_world,
      throw, ret. cbn [this world]. by rewrite Hg. }
  assert (∀ l, QueueStorage.set l (mkSt c w) = (Ok tt, mkSt c w)) as Hset.
  { intros l. rewrite QueueStorage_set_run. cbn [this world]. by rewrite Hs. }
  assert (BrowserClient.enqueue e (mkSt c w) = (Ok tt, mkSt c w)) as Henq.
  { unfold BrowserClient.enqueue. unfold bind. rewrite Hget. apply Hset. }
  split; [exact Hget |]. split; [apply Hset |]. split; [| split; [exact Henq |]].
  - unfold QueueStorage.clear, try_catch, localStorage_removeItem, bind, get_world,
      throw, ret. cbn [this world]. by rewrite Hr.
  - intros Hh Hq Ho. unfold BrowserClient.sendEvent. unfold bind at 1.
    pose proof (applyBeforeSend_no_hook e (BrowserClient.base c) w Hh) as Ha.
    rewrite (BrowserClient_super_run _ _ _ _ _ Ha).
    unfold bind at 1. unfold get_world at 1. cbn [this world]. rewrite Ho.
    cbn [negb]. unfold bind at 1.
    destruct (BrowserClient_debug_cases "Offline - queueing event" c w)
      as (w1 & -> & _ & Hw1).
    rewrite (Hw1 Hq). unfold bind. by rewrite Henq.
Qed.

Lemma broken_storage_is_survived_witness :
  broken_storage broken_storage_world ∧
  QueueStorage.get (mkSt sample_client broken_storage_world)
  = (Ok [], mkSt sample_client broken_storage_world) ∧
  QueueStorage.set [sample_event] (mkSt sample_client broken_storage_world)
  = (Ok tt, mkSt sample_client broken_storage_world) ∧
  QueueStorage.clear (mkSt sample_client broken_storage_world)
  = (Ok tt, mkSt sample_client broken_storage_world) ∧
  BrowserClient.enqueue sample_event (mkSt sample_client broken_storage_world)
  = (Ok tt, mkSt sample_client broken_storage_world) ∧
  (opt_beforeSend
     (Config.options (BaseHub.config (BrowserClient.base sample_client))) = None →
   quiet (BaseHub.config (BrowserClient.base sample_client)) →
   navigator_onLine broken_storage_world = false →
   BrowserClient.sendEvent sample_event (mkSt sample_client broken_storage_world)
   = (Ok None, mkSt sample_client broken_storage_world)).
Proof.
  assert (broken_storage broken_storage_world) as Hb by (repeat split; reflexivity).
  split; [exact Hb |].
  apply (broken_storage_is_survived sample_event [sample_event] sample_client
           broken_storage_world).
  exact Hb.
Defined.

Section Beacon.

Variable sendBeacon : string → Payload → result bool.
Implicit Types (c : BrowserClient.BrowserClient) (w : World) (event : ErrorEvent).

(** [BeaconTransport.send] never rejects; it issues a request exactly when the
    user agent takes the beacon. *)
Lemma BeaconTransport_send_run {C} (t : BaseTransport.BaseTransport) event (s : St C) :
  ∃ r,
    BeaconTransport.send sendBeacon t event s =
    (Ok r,
     mkSt (this s)
       (if beacon_queued sendBeacon t (heap (world s)) event
        then with_requests
               (requests (world s) ++ [beacon_request t (heap (world s)) event])
               (world s)
        else world s)) ∧
    success r = beacon_queued sendBeacon t (heap (world s)) event.
Proof.
  unfold BeaconTransport.send, BeaconTransport.navigator_sendBeacon, try_catch,
    beacon_queued, beacon_request.
  unfold bind at 1. unfold get_world at 1. cbn [this world].
  destruct (sendBeacon _ _) as [[|] | message].
  - unfold bind, modify_world, ret. cbn [this world]. by eexists.
  - unfold bind, ret. cbn [this world].
    exists {| success := false; id := None; statusCode := None; error := None |}.
    split; [by destruct s | reflexivity].
  - unfold bind, throw, ret. cbn [this world].
    exists (failure None "Beacon API failed").
    split; [by destruct s | reflexivity].
Qed.

Lemma beacon_loop_run (events : list ErrorEvent) c w :
  ∃ w',
    BrowserClient.beacon_loop sendBeacon events (mkSt c w) = (Ok tt, mkSt c w') ∧
    with_requests [] w' = with_requests [] w ∧
    requests w' =
      requests w ++
      map (beacon_request (BrowserClient.transport c) (heap w))
        (filter (fun e => beacon_queued sendBeacon (BrowserClient.transport c) (heap w) e)
           events).
Proof.
  revert w. induction events as [| e events IH]; intros w;
    cbn [BrowserClient.beacon_loop].
  - exists w. split; [done |]. split; [done |]. cbn. by rewrite app_nil_r.
  - unfold bind at 1. unfold get_this at 1. cbn [this world]. unfold bind at 1.
    destruct (BeaconTransport_send_run (BrowserClient.transport c) e (mkSt c w))
      as (r & -> & _).
    cbn [this world]. rewrite filter_cons.
    destruct (beacon_queued sendBeacon (BrowserClient.transport c) (heap w) e) eqn:Hq.
    + destruct (IH (with_requests
                      (requests w ++ [beacon_request (BrowserClient.transport c) (heap w) e])
                      w)) as (w' & -> & Hsame & Hreq).
      exists w'. split; [done |]. split; [by rewrite Hsame |].
      rewrite Hreq. cbn [requests heap with_requests].
      rewrite decide_True by (cbn; by rewrite ?Hq). cbn [map].
      by rewrite <- app_assoc.
    + destruct (IH w) as (w' & -> & Hsame & Hreq).
      exists w'. split; [done |]. split; [done |].
      rewrite Hreq. rewrite decide_False by (cbn; rewrite ?Hq; by intros []). done.
Qed.

End Beacon.

(** X29.  When the stored entry, if there is one, is an array of events,
    [sendPendingViaBeacon] never throws and empties the queue whatever
    becomes of the beacons: when [removeItem] works the stored entry is gone
    afterwards, also when the user agent refused every beacon, in which case
    no request has been issued and the events are lost.  When the user agent
    takes every beacon there is one request per stored event, in the order of
    the queue; a beacon request carries the content type as its only header,
    never the API key. *)
Theorem sendPendingViaBeacon_clears (sendBeacon : string → Payload → result bool)
    (c : BrowserClient.BrowserClient) (w : World) :
  ∃ w',
    BrowserClient.sendPendingViaBeacon sendBeacon (mkSt c w) = (Ok tt, mkSt c w') ∧
    (ls_removeItem_throws w = false → ls_item w' = None) ∧
    ((∀ url body, sendBeacon url body ≠ Ok true) → requests w' = requests w) ∧
    ((∀ url body, sendBeacon url body = Ok true) →
     ls_getItem_throws w = false →
     request_messages w' = request_messages w ++ map je_message (stored_queue w)) ∧
    Forall (fun q => req_headers q = [("Content-Type", "application/json")])
      (drop (length (requests w)) (requests w')).
Proof.
  unfold BrowserClient.sendPendingViaBeacon. unfold bind at 1.
  destruct (QueueStorage_get_run (mkSt c w)) as (events & ext & -> & _ & Hmap).
  cbn [this world] in *. unfold bind at 1.
  destruct (beacon_loop_run sendBeacon events c (with_heap (heap w ++ ext) w))
    as (w1 & -> & Hsame & Hreq).
  cbn [heap requests with_heap] in Hreq.
  pose proof (f_equal ls_removeItem_throws Hsame) as Hrem.
  pose proof (f_equal ls_item Hsame) as Hitem.
  cbn [ls_removeItem_throws ls_item with_requests with_heap] in Hrem, Hitem.
  unfold QueueStorage.clear, try_catch, localStorage_removeItem, bind, get_world,
    put_world, throw, ret. cbn [this world]. rewrite Hrem.
  set (sent := filter _ events) in Hreq.
  assert (∀ w2, requests w2 = requests w1 →
            ((∀ url body, sendBeacon url body ≠ Ok true) → requests w2 = requests w) ∧
            ((∀ url body, sendBeacon url body = Ok true) →
             ls_getItem_throws w = false →
             request_messages w2 = request_messages w ++ map je_message (stored_queue w)) ∧
            Forall (fun q => req_headers q = [("Content-Type", "application/json")])
              (drop (length (requests w)) (requests w2))) as Hfacts.
  { intros w2 Hw2. split; [| split].
    - intros Hno. rewrite Hw2, Hreq.
      assert (sent = []) as ->; [| by rewrite app_nil_r].
      unfold sent. clear Hreq sent Hmap. induction events as [| e events IH]; [done |].
      rewrite filter_cons, decide_False; [exact IH |].
      unfold beacon_queued.
      destruct (sendBeacon _ _) as [[|] |] eqn:Hb; [| by intros [] | by intros []].
      by apply Hno in Hb.
    - intros Hyes Hg. unfold request_messages. rewrite Hw2, Hreq, map_app. f_equal.
      assert (sent = events) as ->.
      { unfold sent. clear Hreq sent Hmap. induction events as [| e events IH]; [done |].
        rewrite filter_cons, decide_True; [by rewrite IH |].
        unfold beacon_queued. by rewrite Hyes. }
      rewrite map_map, <- (Hmap Hg), map_map. by apply map_ext.
    - rewrite Hw2, Hreq, drop_app_length. apply Forall_forall.
      intros q Hq. by apply list_elem_of_In, in_map_iff in Hq as (e & <- & _). }
  destruct (ls_removeItem_throws w).
  - exists w1. split; [done |]. split; [done |]. by apply Hfacts.
  - eexists. split; [reflexivity |]. split; [done |]. by apply Hfacts.
Qed.

(* ===================================================================== *)
(** ** From the package functions to the wire                             *)
(* ===================================================================== *)

Section EndToEnd.

Implicit Types (c : BrowserClient.BrowserClient) (w : World) (e : ErrorEvent).



End EndToEnd.


